(** * ifm3d-ros camera nodelet: conversion pipeline, session lifecycle,
      command handlers and acquisition loop

    A shallow embedding of [ifm3d_ros_driver/src/camera_nodelet.cpp].
    Machine integers are [Z] with their wrap-around written out, a
    [double] is an IEEE 754 binary64 number, byte buffers are
    [list byte], C++ exceptions are an explicit outcome, and log lines
    and publishes are collected in an event trace. *)

From Stdlib Require Import ZArith List String Ascii Bool Lia.
From Stdlib Require Import Strings.Byte DecimalString.
From Stdlib Require Floats.SpecFloat.
Import ListNotations.
Local Open Scope string_scope.
Local Open Scope list_scope.
Local Open Scope Z_scope.

(** ** Machine integers *)

Definition wrap32 (z : Z) : Z := z mod 2 ^ 32.
Definition wrap16 (z : Z) : Z := z mod 2 ^ 16.

(** ** Exceptions and outcomes *)

(** The three families the handlers of this file tell apart:
    [catch (const ifm3d::error_t&)], [catch (const std::exception&)]
    and [catch (...)]. *)
Inductive exn : Type :=
| ifm3d_error (code : Z) (what : string)
| std_exception (what : string)
| unknown_exception.

(** ** Data model *)

Module ifm3d.

Module pixel_format.
(** Modelled from the spec: the enumeration [ifm3d::pixel_format] is
    declared in the ifm3d library, not in this repository.  The codes
    follow the order in which the formats are listed (8-bit
    unsigned/signed, 16-bit unsigned/signed, 32-bit
    unsigned/signed/float, 64-bit unsigned/float, 16-bit dual-channel,
    3-channel 32-bit float); the source takes [FORMAT_32F3] as the
    largest code. *)
Definition FORMAT_8U : Z := 0.
Definition FORMAT_8S : Z := 1.
Definition FORMAT_16U : Z := 2.
Definition FORMAT_16S : Z := 3.
Definition FORMAT_32U : Z := 4.
Definition FORMAT_32S : Z := 5.
Definition FORMAT_32F : Z := 6.
Definition FORMAT_64U : Z := 7.
Definition FORMAT_64F : Z := 8.
Definition FORMAT_16U2 : Z := 9.
Definition FORMAT_32F3 : Z := 10.
End pixel_format.

(** Modelled from the spec: the schema-mask bits of the ifm3d library
    (one bit per requested channel; the unit-vector bit is the minimal
    bootstrap mask). *)
Definition IMG_RDIS : Z := 1.
Definition IMG_AMP : Z := 2.
Definition IMG_RAMP : Z := 4.
Definition IMG_CART : Z := 8.
Definition IMG_UVEC : Z := 16.
Definition IMG_GRAY : Z := 64.
Definition IMG_DIS_NOISE : Z := 2048.

(** [ifm3d::Image]: the pixel-format tag, the dimensions (32-bit
    unsigned) and the byte range [begin<uint8_t>(), end<uint8_t>()). *)
Record Image : Type := mkImage
    { dataFormat : Z;
      height : Z;
      width : Z;
      bytes : list byte }.

(** A default-constructed [ifm3d::Image]. *)
Definition empty_image : Image :=
    {| dataFormat := pixel_format.FORMAT_8U; height := 0; width := 0; bytes := [] |}.

(** [image.begin<std::uint8_t>() == image.end<std::uint8_t>()] *)
Definition range_empty (image : Image) : bool :=
    match bytes image with [] => true | _ :: _ => false end.

End ifm3d.

Module std_msgs.
(** [std_msgs::Header]; [stamp] is a [ros::Time] in nanoseconds. *)
Record Header : Type := mkHeader
    { seq : Z;
      stamp : Z;
      frame_id : string }.

Definition Header_default : Header := {| seq := 0; stamp := 0; frame_id := EmptyString |}.
End std_msgs.

Module sensor_msgs.

Module image_encodings.
Definition TYPE_8UC1 := "8UC1".
Definition TYPE_8SC1 := "8SC1".
Definition TYPE_16UC1 := "16UC1".
Definition TYPE_16UC2 := "16UC2".
Definition TYPE_16SC1 := "16SC1".
Definition TYPE_32SC1 := "32SC1".
Definition TYPE_32FC1 := "32FC1".
Definition TYPE_32FC3 := "32FC3".
Definition TYPE_64FC1 := "64FC1".
End image_encodings.

Record Image : Type := mkImage
    { header : std_msgs.Header;
      height : Z;
      width : Z;
      encoding : string;
      is_bigendian : Z;
      step : Z;
      data : list byte }.

Record CompressedImage : Type := mkCompressedImage
    { c_header : std_msgs.Header;
      c_format : string;
      c_data : list byte }.

Module PointField.
Definition FLOAT32 : Z := 7.
End PointField.

Record PointField_t : Type := mkPointField
    { name : string;
      offset : Z;
      datatype : Z;
      count : Z }.

Record PointCloud2 : Type := mkPointCloud2
    { p_header : std_msgs.Header;
      p_height : Z;
      p_width : Z;
      fields : list PointField_t;
      p_is_bigendian : bool;
      point_step : Z;
      row_step : Z;
      p_data : list byte;
      is_dense : bool }.

End sensor_msgs.

Module ifm3d_ros_msgs.
(** [ifm3d_ros_msgs::Extrinsics]; a float is carried as its 32-bit
    pattern, it is only copied. *)
Record Extrinsics : Type := mkExtrinsics
    { e_header : std_msgs.Header;
      tx : Z; ty : Z; tz : Z;
      rot_x : Z; rot_y : Z; rot_z : Z }.
End ifm3d_ros_msgs.

(** ** Events: log lines, publishes and sleeps

    The trace keeps the INFO, WARN and ERROR lines; DEBUG lines are left
    out.  A line written through a stream is kept as the text it prints;
    a line written with a printf-style format is kept as its format
    string. *)

Inductive severity : Type := DEBUG | INFO | WARN | ERROR.

Inductive topic : Type :=
| cloud_pub_ | distance_pub_ | distance_noise_pub_ | amplitude_pub_
| raw_amplitude_pub_ | conf_pub_ | gray_image_pub_ | rgb_image_pub_
| uvec_pub_ | extrinsics_pub_.

Inductive message : Type :=
| ImageMsg (m : sensor_msgs.Image)
| CompressedMsg (m : sensor_msgs.CompressedImage)
| CloudMsg (m : sensor_msgs.PointCloud2)
| ExtrinsicsMsg (m : ifm3d_ros_msgs.Extrinsics).

Inductive event : Type :=
| Log (s : severity) (text : string)
| Publish (t : topic) (m : message)
| Sleep.

(** ** A small trace-and-exception monad *)

Inductive outcome (A : Type) : Type :=
| Returns (a : A)
| Throws (e : exn)
| Undefined      (* a read past a source buffer or through a null pointer *)
| Blocked.       (* a retry loop the environment has not yet let through *)
Arguments Returns {A} a.
Arguments Throws {A} e.
Arguments Undefined {A}.
Arguments Blocked {A}.

Definition M (A : Type) : Type := (list event * outcome A)%type.

Definition ret {A} (a : A) : M A := ([], Returns a).
Definition throw {A} (e : exn) : M A := ([], Throws e).
Definition emit (e : event) : M unit := ([e], Returns tt).
Definition bind {A B} (m : M A) (k : A -> M B) : M B :=
  match m with
  | (tr, Returns a) => let '(tr', r) := k a in ((tr ++ tr')%list, r)
  | (tr, Throws e) => (tr, Throws e)
  | (tr, Undefined) => (tr, Undefined)
  | (tr, Blocked) => (tr, Blocked)
  end.

Notation "x <- m ;; k" := (bind m (fun x => k))
  (at level 61, m at next level, right associativity).
Notation "m ;;; k" := (bind m (fun _ => k))
  (at level 61, right associativity).

Definition trace_of {A} (m : M A) : list event := fst m.
Definition result_of {A} (m : M A) : outcome A := snd m.

(** [v.insert(v.end(), p, std::next(p, n))] on a source buffer: the first
    [n] bytes, defined only while they lie inside the buffer. *)
Definition copy_bytes (buf : list byte) (n : Z) : M (list byte) :=
  if n <=? Z.of_nat (List.length buf)
  then ret (firstn (Z.to_nat n) buf)
  else ([], Undefined).

(** ** Conversion pipeline *)

Module image_encodings_model.

(** The encodings [bitDepth] knows by name, and the prefixes of the
  abstract ones with their bits per channel. *)
Definition named_8 : list string :=
    ["mono8"; "bgr8"; "rgb8"; "bgra8"; "rgba8";
     "bayer_rggb8"; "bayer_bggr8"; "bayer_gbrg8"; "bayer_grbg8"].
Definition named_16 : list string :=
    ["mono16"; "bgr16"; "rgb16"; "bgra16"; "rgba16";
     "bayer_rggb16"; "bayer_bggr16"; "bayer_gbrg16"; "bayer_grbg16"].
Definition ABSTRACT_ENCODING_PREFIXES : list (string * Z) :=
    [("8UC", 8); ("8SC", 8); ("16UC", 16); ("16SC", 16);
     ("32SC", 32); ("32FC", 32); ("64FC", 64)].

Definition mem_string (s : string) (l : list string) : bool :=
    existsb (String.eqb s) l.

Definition digit_of (c : ascii) : option Z :=
    let n := Z.of_nat (nat_of_ascii c) in
    if (48 <=? n) && (n <=? 57) then Some (n - 48) else None.

(** [atoi] on the tail of an encoding: the value of its leading digits. *)
Fixpoint atoi_from (acc : Z) (s : string) : Z :=
    match s with
    | EmptyString => acc
    | String c rest =>
        match digit_of c with
        | Some d => atoi_from (10 * acc + d) rest
        | None => acc
        end
    end.
Definition atoi (s : string) : Z := atoi_from 0 s.

Fixpoint abstract_depth (prefixes : list (string * Z)) (encoding : string) : option Z :=
    match prefixes with
    | [] => None
    | (prefix, bits) :: rest =>
        if negb (String.prefix prefix encoding) then abstract_depth rest encoding
        else if (String.length encoding =? String.length prefix)%nat then Some bits
        else if negb (atoi (substring (String.length prefix)
                                      (String.length encoding - String.length prefix)
                                      encoding) =? 0)
             then Some bits
             else abstract_depth rest encoding
    end.

(** Modelled from the spec: the lookup of a format's bytes per pixel goes
    through [sensor_msgs::image_encodings::bitDepth], which is part of
    the ROS message library and not of this repository.  It gives the
    bits per channel of the named encodings and of the abstract ones (a
    known prefix followed by a channel count) and throws
    [std::runtime_error] on every other string; [None] is that throw. *)
Definition bitDepth (encoding : string) : option Z :=
    if mem_string encoding named_8 then Some 8
    else if mem_string encoding named_16 then Some 16
    else match abstract_depth ABSTRACT_ENCODING_PREFIXES encoding with
         | Some bits => Some bits
         | None => if String.eqb encoding "yuv422" then Some 8 else None
         end.

End image_encodings_model.

Import ifm3d.pixel_format.
Import sensor_msgs.image_encodings.

(** [static constexpr auto max_pixel_format] *)
Definition max_pixel_format : Z := FORMAT_32F3.

(** [a[i] = v] on a [std::array] (indices used by the source are in range). *)
Fixpoint array_set (a : list string) (i : nat) (v : string) : list string :=
  match a, i with
  | [], _ => []
  | _ :: rest, O => v :: rest
  | x :: rest, S j => x :: array_set rest j v
  end.

(** [a.at(i)]: throws [std::out_of_range] outside the array. *)
Definition array_at (a : list string) (i : Z) : M string :=
  match nth_error a (Z.to_nat i) with
  | Some s => ret s
  | None => throw (std_exception "array::at")
  end.

(** The lookup table built once by the lambda of [ifm3d_to_ros_image]:
    [max_pixel_format + 1] value-initialised strings, then one assignment
    per format. *)
Definition image_format_info : list string :=
  let a := repeat EmptyString (Z.to_nat (max_pixel_format + 1)) in
  let a := array_set a (Z.to_nat FORMAT_8U) TYPE_8UC1 in
  let a := array_set a (Z.to_nat FORMAT_8S) TYPE_8SC1 in
  let a := array_set a (Z.to_nat FORMAT_16U) TYPE_16UC1 in
  let a := array_set a (Z.to_nat FORMAT_16S) TYPE_16SC1 in
  let a := array_set a (Z.to_nat FORMAT_32U) "32UC1" in
  let a := array_set a (Z.to_nat FORMAT_32S) TYPE_32SC1 in
  let a := array_set a (Z.to_nat FORMAT_32F) TYPE_32FC1 in
  let a := array_set a (Z.to_nat FORMAT_64U) "64UC1" in
  let a := array_set a (Z.to_nat FORMAT_64F) TYPE_64FC1 in
  let a := array_set a (Z.to_nat FORMAT_16U2) TYPE_16UC2 in
  let a := array_set a (Z.to_nat FORMAT_32F3) TYPE_32FC3 in
  a.

Definition string_empty (s : string) : bool :=
  match s with EmptyString => true | String _ _ => false end.

Section Conversion.

(** [sensor_msgs::image_encodings::bitDepth]; [None] when it throws. *)
Variable bitDepth : string -> option Z.

Definition bitDepth_call (encoding : string) : M Z :=
    match bitDepth encoding with
    | Some bits => ret bits
    | None => throw (std_exception ("Unknown encoding " ++ encoding))
    end.

Definition ifm3d_to_ros_image (image : ifm3d.Image) (header : std_msgs.Header)
             (logger : string) : M sensor_msgs.Image :=
    let format := ifm3d.dataFormat image in
    let result :=
      {| sensor_msgs.header := header;
         sensor_msgs.height := ifm3d.height image;
         sensor_msgs.width := ifm3d.width image;
         sensor_msgs.encoding := EmptyString;
         sensor_msgs.is_bigendian := 0;
         sensor_msgs.step := 0;
         sensor_msgs.data := [] |} in
    if ifm3d.range_empty image then ret result
    else if format >=? max_pixel_format then
      emit (Log ERROR "Pixel format out of range (%ld >= %ld)") ;;;
      ret result
    else
      enc <- array_at image_format_info format ;;
      enc' <- array_at image_format_info format ;;
      bits <- bitDepth_call enc' ;;
      let step := wrap32 (wrap32 (sensor_msgs.width result * bits) / 8) in
      payload <- copy_bytes (ifm3d.bytes image) (wrap32 (step * sensor_msgs.height result)) ;;
      let result :=
        {| sensor_msgs.header := header;
           sensor_msgs.height := ifm3d.height image;
           sensor_msgs.width := ifm3d.width image;
           sensor_msgs.encoding := enc;
           sensor_msgs.is_bigendian := 0;
           sensor_msgs.step := step;
           sensor_msgs.data := payload |} in
      if string_empty (sensor_msgs.encoding result) then
        emit (Log WARN "Can't handle encoding %ld (32U == %ld, 64U == %ld)") ;;;
        ret {| sensor_msgs.header := header;
               sensor_msgs.height := ifm3d.height image;
               sensor_msgs.width := ifm3d.width image;
               sensor_msgs.encoding := TYPE_8UC1;
               sensor_msgs.is_bigendian := 0;
               sensor_msgs.step := step;
               sensor_msgs.data := payload |}
      else ret result.

Definition ifm3d_to_ros_compressed_image (image : ifm3d.Image)
             (header : std_msgs.Header) (format : string) (logger : string)
    : M sensor_msgs.CompressedImage :=
    let result :=
      {| sensor_msgs.c_header := header;
         sensor_msgs.c_format := format;
         sensor_msgs.c_data := [] |} in
    let dataFormat := ifm3d.dataFormat image in
    if negb (dataFormat =? FORMAT_8S) && negb (dataFormat =? FORMAT_8U) then
      emit (Log ERROR "Invalid data format for %s data (%ld)") ;;;
      ret result
    else
      payload <- copy_bytes (ifm3d.bytes image)
                            (wrap32 (ifm3d.width image * ifm3d.height image)) ;;
      ret {| sensor_msgs.c_header := header;
             sensor_msgs.c_format := format;
             sensor_msgs.c_data := payload |}.

Definition xyz_fields : list sensor_msgs.PointField_t :=
    [ {| sensor_msgs.name := "x"; sensor_msgs.offset := 0;
         sensor_msgs.datatype := sensor_msgs.PointField.FLOAT32; sensor_msgs.count := 1 |};
      {| sensor_msgs.name := "y"; sensor_msgs.offset := 4;
         sensor_msgs.datatype := sensor_msgs.PointField.FLOAT32; sensor_msgs.count := 1 |};
      {| sensor_msgs.name := "z"; sensor_msgs.offset := 8;
         sensor_msgs.datatype := sensor_msgs.PointField.FLOAT32; sensor_msgs.count := 1 |} ].

(** [sizeof(float)] *)
Definition sizeof_float : Z := 4.

Definition ifm3d_to_ros_cloud (image : ifm3d.Image) (header : std_msgs.Header)
             (logger : string) : M sensor_msgs.PointCloud2 :=
    let result :=
      {| sensor_msgs.p_header := header;
         sensor_msgs.p_height := ifm3d.height image;
         sensor_msgs.p_width := ifm3d.width image;
         sensor_msgs.fields := [];
         sensor_msgs.p_is_bigendian := false;
         sensor_msgs.point_step := 0;
         sensor_msgs.row_step := 0;
         sensor_msgs.p_data := [];
         sensor_msgs.is_dense := false |} in
    if ifm3d.range_empty image then ret result
    else if negb (ifm3d.dataFormat image =? FORMAT_32F3)
            && negb (ifm3d.dataFormat image =? FORMAT_32F) then
      emit (Log ERROR "Unsupported pixel format %ld for point cloud") ;;;
      ret result
    else
      let point_step := wrap32 (Z.of_nat (List.length xyz_fields) * sizeof_float) in
      let row_step := wrap32 (point_step * sensor_msgs.p_width result) in
      payload <- copy_bytes (ifm3d.bytes image) (wrap32 (row_step * sensor_msgs.p_height result)) ;;
      ret {| sensor_msgs.p_header := header;
             sensor_msgs.p_height := ifm3d.height image;
             sensor_msgs.p_width := ifm3d.width image;
             sensor_msgs.fields := xyz_fields;
             sensor_msgs.p_is_bigendian := false;
             sensor_msgs.point_step := point_step;
             sensor_msgs.row_step := row_step;
             sensor_msgs.p_data := payload;
             sensor_msgs.is_dense := true |}.

End Conversion.

(** ** The nodelet's state *)

(** What an external call hands back: a value, or a thrown exception. *)
Definition access (A : Type) : Type := (A + exn)%type.

(** [std::to_string] on an [int], and an integer written to a stream. *)
Definition to_string (z : Z) : string := NilZero.string_of_int (Z.to_int z).

(** ** Double-precision numbers

    A C++ [double] is an IEEE 754 binary64 number; its operations round
    to nearest, ties to even. *)
Module ieee.

Definition double : Type := SpecFloat.spec_float.
Definition prec : Z := 53.
Definition emax : Z := 1024.

(** [static_cast<double>(z)] *)
Definition of_Z (z : Z) : double := SpecFloat.binary_normalize prec emax z 0 false.

Definition add : double -> double -> double := SpecFloat.SFadd prec emax.
Definition sub : double -> double -> double := SpecFloat.SFsub prec emax.
Definition mul : double -> double -> double := SpecFloat.SFmul prec emax.
Definition div : double -> double -> double := SpecFloat.SFdiv prec emax.

(** [a > b] *)
Definition gt (a b : double) : bool := SpecFloat.SFltb b a.

(** The literals [1e9] and [1e-9]: the doubles nearest to them. *)
Definition d1e9 : double := of_Z 1000000000.
Definition d1em9 : double := div (of_Z 1) d1e9.

(** [floor(x)] as an integer; an infinity and a NaN have none. *)
Definition floor (x : double) : option Z :=
    match x with
    | SpecFloat.S754_zero _ => Some 0
    | SpecFloat.S754_finite s m e =>
        let v := if s then Z.neg m else Z.pos m in
        Some (if 0 <=? e then v * 2 ^ e else v / 2 ^ (- e))
    | SpecFloat.S754_infinity _ => None
    | SpecFloat.S754_nan => None
    end.

(** [boost::math::round(x)] as an integer: the nearest one, a half going
    away from zero. *)
Definition round (x : double) : option Z :=
    match x with
    | SpecFloat.S754_zero _ => Some 0
    | SpecFloat.S754_finite s m e =>
        let a := if 0 <=? e then Z.pos m * 2 ^ e
                 else (2 * Z.pos m + 2 ^ (- e)) / (2 * 2 ^ (- e)) in
        Some (if s then - a else a)
    | SpecFloat.S754_infinity _ => None
    | SpecFloat.S754_nan => None
    end.

(** [static_cast<float>(x)], as the double the float is promoted to:
    [x] rounded to binary32. *)
Definition to_float (x : double) : double :=
    match x with
    | SpecFloat.S754_finite s m e =>
        match SpecFloat.binary_round 24 128 s m e with
        | SpecFloat.S754_finite s' m' e' => SpecFloat.binary_round prec emax s' m' e'
        | other => other
        end
    | other => other
    end.

(** [ns] nanoseconds are more than [secs] seconds, compared exactly. *)
Definition exceeds (ns : Z) (secs : double) : bool :=
    match secs with
    | SpecFloat.S754_zero _ => 0 <? ns
    | SpecFloat.S754_finite s m e =>
        let v := if s then Z.neg m else Z.pos m in
        if 0 <=? e then v * 2 ^ e * 1000000000 <? ns
        else v * 1000000000 <? ns * 2 ^ (- e)
    | SpecFloat.S754_infinity s => s
    | SpecFloat.S754_nan => false
    end.

End ieee.

(** ** Time *)

Module ros.
(** Modelled from the spec: [ros::Time] and [ros::Duration] belong to
    the ROS time library (rostime, as of ROS Noetic), not to this
    repository.  The spec speaks of wall-clock time, elapsed time and
    tolerances; the functions of the library that [Run] calls are
    written here as the library defines them.  Both classes hold seconds
    and nanoseconds with [0 <= nsec < 10^9]; a value of either is kept
    as its count of nanoseconds [sec * 10^9 + nsec], so that
    [sec = ns / 10^9] and [nsec = ns mod 10^9]. *)

Definition int32_range (z : Z) : bool := (- 2 ^ 31 <=? z) && (z <? 2 ^ 31).
Definition int64_range (z : Z) : bool := (- 2 ^ 63 <=? z) && (z <? 2 ^ 63).

(** [a - b] on two [ros::Time]: the difference of the nanosecond counts
    as a [ros::Duration], which throws [std::runtime_error] when its
    seconds do not fit in 32 bits. *)
Definition Time_minus (a b : Z) : access Z :=
    let d := a - b in
    if int32_range (d / 1000000000) then inl d
    else inr (std_exception "Duration is out of dual 32-bit range").

(** [d.toSec()]: [(double)sec + 1e-9 * (double)nsec]. *)
Definition Duration_toSec (d : Z) : ieee.double :=
    ieee.add (ieee.of_Z (d / 1000000000))
             (ieee.mul ieee.d1em9 (ieee.of_Z (d mod 1000000000))).

(** The nanoseconds of [fromSec]: [round((t - sec) * 1e9)]. *)
Definition nsec_of (t : ieee.double) (sec : Z) : option Z :=
    ieee.round (ieee.mul (ieee.sub t (ieee.of_Z sec)) ieee.d1e9).

(** [ros::Time(t)], that is [fromSec(t)]: the seconds are [floor(t)] and
    must fit in 32 bits unsigned, else [std::runtime_error] is thrown;
    the nanoseconds are rounded, and a full second of them is carried
    over.  The casts of a value that does not fit are undefined. *)
Definition Time_fromSec (t : ieee.double) : M Z :=
    match ieee.floor t with
    | None => ([], Undefined)
    | Some sec64 =>
        if negb (int64_range sec64) then ([], Undefined)
        else if (sec64 <? 0) || (2 ^ 32 - 1 <? sec64)
        then throw (std_exception "Time is out of dual 32-bit range")
        else
          match nsec_of t sec64 with
          | None => ([], Undefined)
          | Some nsec =>
              if (0 <=? nsec) && (nsec <? 2 ^ 32)
              then ret (wrap32 (sec64 + nsec / 1000000000) * 1000000000
                        + nsec mod 1000000000)
              else ([], Undefined)
          end
    end.

(** [ros::Duration(t)]: as above with signed 32-bit seconds. *)
Definition Duration_fromSec (t : ieee.double) : M Z :=
    match ieee.floor t with
    | None => ([], Undefined)
    | Some sec64 =>
        if negb (int64_range sec64) then ([], Undefined)
        else if negb (int32_range sec64)
        then throw (std_exception "Duration is out of dual 32-bit range")
        else
          match nsec_of t sec64 with
          | None => ([], Undefined)
          | Some nsec =>
              if int32_range nsec && int32_range (sec64 + nsec / 1000000000)
              then ret ((sec64 + nsec / 1000000000) * 1000000000 + nsec mod 1000000000)
              else ([], Undefined)
          end
    end.

End ros.

(** [std::chrono::duration_cast<std::chrono::duration<double>>(d).count()]
    on a count of nanoseconds: the count as a double, divided by [1e9]. *)
Definition to_double_seconds (ns : Z) : ieee.double :=
  ieee.div (ieee.of_Z ns) ieee.d1e9.

Module session.
(** The three collaborators of the session triple, as far as the
    nodelet can tell them apart. *)
Record CameraBase : Type := mkCameraBase
    { ip : string; xmlrpc_port : Z }.

Record FrameGrabber : Type := mkFrameGrabber
    { cam : CameraBase; mask : Z; pcic_port : Z }.

(** [ifm3d::StlImageBuffer]: the accessors of the last frame;
    [TimeStamp] is the count of nanoseconds since the epoch. *)
Record StlImageBuffer : Type := mkStlImageBuffer
    { TimeStamp : Z;
      UnitVectors : ifm3d.Image;
      XYZImage : access ifm3d.Image;
      ConfidenceImage : access ifm3d.Image;
      DistanceImage : access ifm3d.Image;
      DistanceNoiseImage : access ifm3d.Image;
      AmplitudeImage : access ifm3d.Image;
      RawAmplitudeImage : access ifm3d.Image;
      GrayImage : access ifm3d.Image;
      Extrinsics : access (list Z);
      JPEGImage : access ifm3d.Image }.

Definition fresh_buffer : StlImageBuffer :=
    {| TimeStamp := 0;
       UnitVectors := ifm3d.empty_image;
       XYZImage := inl ifm3d.empty_image;
       ConfidenceImage := inl ifm3d.empty_image;
       DistanceImage := inl ifm3d.empty_image;
       DistanceNoiseImage := inl ifm3d.empty_image;
       AmplitudeImage := inl ifm3d.empty_image;
       RawAmplitudeImage := inl ifm3d.empty_image;
       GrayImage := inl ifm3d.empty_image;
       Extrinsics := inl [0; 0; 0; 0; 0; 0];
       JPEGImage := inl ifm3d.empty_image |}.
End session.

(** The member variables of [ifm3d_ros::CameraNodelet] that the modelled
    functions read or write.  The tolerances are doubles, in seconds;
    the latency threshold is a [float], held as the double it is
    promoted to where it is used. *)
Record CameraNodelet : Type := mkCameraNodelet
  { getName : string;
    camera_ip_ : string;
    xmlrpc_port_ : Z;
    pcic_port_ : Z;
    schema_mask_ : Z;
    timeout_millis_ : Z;
    timeout_tolerance_secs_ : ieee.double;
    assume_sw_triggered_ : bool;
    soft_on_timeout_millis_ : Z;
    soft_on_timeout_tolerance_secs_ : ieee.double;
    soft_off_timeout_millis_ : Z;
    soft_off_timeout_tolerance_secs_ : ieee.double;
    frame_latency_thresh_ : ieee.double;
    frame_id_ : string;
    optical_frame_id_ : string;
    cam_ : option session.CameraBase;
    fg_ : option session.FrameGrabber;
    im_ : option session.StlImageBuffer }.

Definition set_cam_ (v : option session.CameraBase) (self : CameraNodelet) : CameraNodelet :=
  mkCameraNodelet (getName self) (camera_ip_ self) (xmlrpc_port_ self) (pcic_port_ self)
    (schema_mask_ self) (timeout_millis_ self) (timeout_tolerance_secs_ self)
    (assume_sw_triggered_ self) (soft_on_timeout_millis_ self)
    (soft_on_timeout_tolerance_secs_ self) (soft_off_timeout_millis_ self)
    (soft_off_timeout_tolerance_secs_ self) (frame_latency_thresh_ self)
    (frame_id_ self) (optical_frame_id_ self) v (fg_ self) (im_ self).

Definition set_fg_ (v : option session.FrameGrabber) (self : CameraNodelet) : CameraNodelet :=
  mkCameraNodelet (getName self) (camera_ip_ self) (xmlrpc_port_ self) (pcic_port_ self)
    (schema_mask_ self) (timeout_millis_ self) (timeout_tolerance_secs_ self)
    (assume_sw_triggered_ self) (soft_on_timeout_millis_ self)
    (soft_on_timeout_tolerance_secs_ self) (soft_off_timeout_millis_ self)
    (soft_off_timeout_tolerance_secs_ self) (frame_latency_thresh_ self)
    (frame_id_ self) (optical_frame_id_ self) (cam_ self) v (im_ self).

Definition set_im_ (v : option session.StlImageBuffer) (self : CameraNodelet) : CameraNodelet :=
  mkCameraNodelet (getName self) (camera_ip_ self) (xmlrpc_port_ self) (pcic_port_ self)
    (schema_mask_ self) (timeout_millis_ self) (timeout_tolerance_secs_ self)
    (assume_sw_triggered_ self) (soft_on_timeout_millis_ self)
    (soft_on_timeout_tolerance_secs_ self) (soft_off_timeout_millis_ self)
    (soft_off_timeout_tolerance_secs_ self) (frame_latency_thresh_ self)
    (frame_id_ self) (optical_frame_id_ self) (cam_ self) (fg_ self) v.

(** The three assignments shared by [SoftOff] and [SoftOn]. *)
Definition set_soft_on_regime (self : CameraNodelet) : CameraNodelet :=
  mkCameraNodelet (getName self) (camera_ip_ self) (xmlrpc_port_ self) (pcic_port_ self)
    (schema_mask_ self) (soft_on_timeout_millis_ self) (soft_on_timeout_tolerance_secs_ self)
    false (soft_on_timeout_millis_ self)
    (soft_on_timeout_tolerance_secs_ self) (soft_off_timeout_millis_ self)
    (soft_off_timeout_tolerance_secs_ self) (frame_latency_thresh_ self)
    (frame_id_ self) (optical_frame_id_ self) (cam_ self) (fg_ self) (im_ self).

(** ** State, trace and exceptions together *)

Definition SM (S A : Type) : Type := S -> (list event * outcome A * S)%type.

Definition sret {S A} (a : A) : SM S A := fun s => ([], Returns a, s).
Definition sthrow {S A} (e : exn) : SM S A := fun s => ([], Throws e, s).
Definition sundefined {S A} : SM S A := fun s => ([], Undefined, s).
Definition semit {S} (e : event) : SM S unit := fun s => ([e], Returns tt, s).
Definition sget {S} : SM S S := fun s => ([], Returns s, s).
Definition smodify {S} (f : S -> S) : SM S unit := fun s => ([], Returns tt, f s).
Definition sbind {S A B} (m : SM S A) (k : A -> SM S B) : SM S B :=
  fun s =>
    match m s with
    | (tr, Returns a, s') => let '(tr', r, s'') := k a s' in (tr ++ tr', r, s'')
    | (tr, Throws e, s') => (tr, Throws e, s')
    | (tr, Undefined, s') => (tr, Undefined, s')
    | (tr, Blocked, s') => (tr, Blocked, s')
    end.

(** A pure conversion run inside a stateful function. *)
Definition lift {S A} (m : M A) : SM S A := fun s => (fst m, snd m, s).

(** An external call that may throw. *)
Definition call {S A} (r : access A) : SM S A :=
  match r with
  | inl a => sret a
  | inr e => sthrow e
  end.

(** [try { body } catch ...]: the handler says which exceptions it
    catches ([None]: not caught here, the exception goes on). *)
Definition try_catch {S A} (body : SM S A) (handler : exn -> option (SM S A)) : SM S A :=
  fun s =>
    match body s with
    | (tr, Throws e, s') =>
        match handler e with
        | Some h => let '(tr', r, s'') := h s' in (tr ++ tr', r, s'')
        | None => (tr, Throws e, s')
        end
    | other => other
    end.

Notation "'do' x <- m ; k" := (sbind m (fun x => k))
  (at level 10, x name, m at level 100, k at level 200).
Notation "'do_' m ; k" := (sbind m (fun _ => k))
  (at level 10, m at level 100, k at level 200).

(** ** Session lifecycle *)

(** What the collaborators answer during one [InitStructures]: for each
    of the three constructions, [None] when it succeeds or the exception
    it throws. *)
Record init_env : Type := mkInitEnv
  { MakeShared : option exn;
    make_FrameGrabber : option exn;
    make_StlImageBuffer : option exn }.

Definition construct {S} (r : option exn) : SM S unit :=
  match r with
  | None => sret tt
  | Some e => sthrow e
  end.

(** [im_.reset(); fg_.reset(); cam_.reset();] *)
Definition reset_triple : SM CameraNodelet unit :=
  do_ smodify (set_im_ None);
  do_ smodify (set_fg_ None);
  smodify (set_cam_ None).

(** [catch (const ifm3d::error_t& ex)] and nothing else. *)
Definition catch_ifm3d {S A} (h : Z -> string -> SM S A) (e : exn) : option (SM S A) :=
  match e with
  | ifm3d_error code what => Some (h code what)
  | std_exception _ => None
  | unknown_exception => None
  end.

(** The body runs under [std::lock_guard]: no other thread sees the
    state between its first and its last step. *)
Definition InitStructures (env : init_env) (mask pcic_port : Z) : SM CameraNodelet bool :=
  try_catch
    (do_ semit (Log INFO "Running dtors...");
     do_ reset_triple;
     do_ semit (Log INFO "Initializing camera...");
     do self <- sget;
     do_ construct (MakeShared env);
     let c := {| session.ip := camera_ip_ self; session.xmlrpc_port := xmlrpc_port_ self |} in
     do_ smodify (set_cam_ (Some c));
     do_ semit Sleep;
     do_ semit (Log INFO "Initializing framegrabber...");
     do_ construct (make_FrameGrabber env);
     do_ smodify (set_fg_ (Some {| session.cam := c; session.mask := mask;
                                   session.pcic_port := pcic_port_ self |}));
     do_ semit (Log INFO "Nodelet arguments: %d, %d");
     do_ semit (Log INFO "Initializing image buffer...");
     do_ construct (make_StlImageBuffer env);
     do_ smodify (set_im_ (Some session.fresh_buffer));
     sret true)
    (catch_ifm3d (fun code what =>
       do_ semit (Log WARN (to_string code ++ ": " ++ what));
       do_ reset_triple;
       sret false)).

(** [fg_->WaitForFrame(im_.get(), timeout_millis_)]: the answer is a new
    frame in the buffer ([true]), a timeout ([false]) or an exception. *)
Definition AcquireFrame (wait : access (option session.StlImageBuffer))
  : SM CameraNodelet bool :=
  try_catch
    (do self <- sget;
     match fg_ self, im_ self with
     | Some _, Some _ =>
         do r <- call wait;
         match r with
         | Some frame => do_ smodify (set_im_ (Some frame)); sret true
         | None => sret false
         end
     | _, _ => sundefined
     end)
    (catch_ifm3d (fun code what =>
       do_ semit (Log WARN (to_string code ++ ": " ++ what));
       sret false)).

(** ** Command handlers *)

Module srv.
(** [ifm3d_ros_msgs::Dump::Response] *)
Record DumpResponse : Type := mkDumpResponse
    { d_status : Z; d_config : string }.
(** The responses of [Config], [Trigger], [SoftOff] and [SoftOn] all
    have this shape. *)
Record Response : Type := mkResponse
    { status : Z; msg : string }.
End srv.

Definition set_d_status (v : Z) : SM (CameraNodelet * srv.DumpResponse) unit :=
  smodify (fun st => (fst st, srv.mkDumpResponse v (srv.d_config (snd st)))).
Definition set_d_config (v : string) : SM (CameraNodelet * srv.DumpResponse) unit :=
  smodify (fun st => (fst st, srv.mkDumpResponse (srv.d_status (snd st)) v)).
Definition set_status (v : Z) : SM (CameraNodelet * srv.Response) unit :=
  smodify (fun st => (fst st, srv.mkResponse v (srv.msg (snd st)))).
Definition set_msg (v : string) : SM (CameraNodelet * srv.Response) unit :=
  smodify (fun st => (fst st, srv.mkResponse (srv.status (snd st)) v)).
Definition on_self {R} (f : CameraNodelet -> CameraNodelet) : SM (CameraNodelet * R) unit :=
  smodify (fun st => (f (fst st), snd st)).

(** [this->cam_->...] and [this->fg_->...]: a null pointer has nothing
    to call. *)
Definition deref {S A B} (p : option A) (k : A -> SM S B) : SM S B :=
  match p with
  | Some a => k a
  | None => sundefined
  end.

Definition Dump (ToJSON : access string) : SM (CameraNodelet * srv.DumpResponse) bool :=
  do_ set_d_status 0;
  do_ try_catch
        (do st <- sget;
         deref (cam_ (fst st)) (fun _ =>
           do j <- call ToJSON;
           set_d_config j))
        (fun e => Some
           match e with
           | ifm3d_error code what => do_ set_d_status code; semit (Log WARN what)
           | std_exception what => do_ set_d_status (-1); semit (Log WARN what)
           | unknown_exception => set_d_status (-2)
           end);
  do st <- sget;
  do_ (if negb (srv.d_status (snd st) =? 0)
       then semit (Log WARN ("Dump: " ++ to_string (srv.d_status (snd st))))
       else sret tt);
  sret true.

Definition Config (FromJSON : string -> access unit) (req_json : string)
  : SM (CameraNodelet * srv.Response) bool :=
  do_ set_status 0;
  do_ set_msg "OK";
  do_ try_catch
        (do st <- sget;
         deref (cam_ (fst st)) (fun _ => call (FromJSON req_json)))
        (fun e => Some
           match e with
           | ifm3d_error code what => do_ set_status code; set_msg what
           | std_exception what => do_ set_status (-1); set_msg what
           | unknown_exception => do_ set_status (-2); set_msg "Unknown error in `Config'"
           end);
  do st <- sget;
  do_ (if negb (srv.status (snd st) =? 0)
       then semit (Log WARN ("Config: " ++ to_string (srv.status (snd st)) ++ " - "
                             ++ srv.msg (snd st)))
       else sret tt);
  sret true.

Definition Trigger (SWTrigger : access unit) : SM (CameraNodelet * srv.Response) bool :=
  do_ set_status 0;
  do_ set_msg "Software trigger is currently not implemented";
  do_ try_catch
        (do st <- sget;
         deref (fg_ (fst st)) (fun _ => call SWTrigger))
        (catch_ifm3d (fun code what => set_status code));
  do_ semit (Log WARN "Triggering a camera head is currently not implemented - will follow");
  sret true.

(** The double-quote character of the JSON fragments. *)
Definition dq : string := String (ascii_of_nat 34) EmptyString.

(** [{"ports":{"port<n>": {"state": "<state>"}}}] *)
Definition port_state_json (port_arg : Z) (state : string) : string :=
  ("{" ++ dq ++ "ports" ++ dq ++ ":{" ++ dq ++ "port" ++ to_string port_arg ++ dq
   ++ ": {" ++ dq ++ "state" ++ dq ++ ": " ++ dq ++ state ++ dq ++ "}}}")%string.

(** [SoftOff] and [SoftOn] differ only in the state they request; both
    switch to the soft-on timeouts, as the source does. *)
Definition soft_switch (state : string) (FromJSONStr : string -> access unit)
  : SM (CameraNodelet * srv.Response) bool :=
  do_ set_status 0;
  do early <- try_catch
        (do st <- sget;
         let port_arg := Z.rem (pcic_port_ (fst st)) 50010 in
         do_ deref (cam_ (fst st)) (fun _ => call (FromJSONStr (port_state_json port_arg state)));
         do_ on_self set_soft_on_regime;
         sret None)
        (catch_ifm3d (fun code what =>
           do_ set_status code;
           do_ set_msg what;
           sret (Some false)));
  match early with
  | Some b => sret b
  | None =>
      do_ semit (Log WARN "The concept of applications is not available for the O3R - we use IDLE and RUN states instead");
      do st <- sget;
      do_ set_msg (port_state_json (Z.rem (pcic_port_ (fst st)) 50010) state);
      sret true
  end.

Definition SoftOff := soft_switch "IDLE".
Definition SoftOn := soft_switch "RUN".

(** ** Start-up: the frame identifiers of [onInit] *)

(** The parameter server as [onInit] reads it.  The four parameters whose
    defaults are constants of the ifm3d library are given resolved; the
    others are optional and default as in the source.  The tolerances
    and the latency threshold are doubles on the server; the threshold is
    read into a [float]. *)
Record parameters : Type := mkParameters
  { param_ip : string;
    param_xmlrpc_port : Z;
    param_pcic_port : Z;
    param_schema_mask : Z;
    param_timeout_millis : option Z;
    param_timeout_tolerance_secs : option ieee.double;
    param_assume_sw_triggered : option bool;
    param_soft_on_timeout_millis : option Z;
    param_soft_on_timeout_tolerance_secs : option ieee.double;
    param_soft_off_timeout_millis : option Z;
    param_soft_off_timeout_tolerance_secs : option ieee.double;
    param_frame_latency_thresh : option ieee.double;
    param_frame_id_base : option string }.

Definition param {A} (v : option A) (default : A) : A :=
  match v with
  | Some a => a
  | None => default
  end.

(** A whole number of seconds, as a count of nanoseconds. *)
Definition seconds (s : Z) : Z := s * 1000000000.

(** [nn] without its leading slash, when it has one. *)
Definition strip_slash (nn : string) : string :=
  match nn with
  | String c rest => if Ascii.eqb c "/"%char then rest else nn
  | EmptyString => nn
  end.

Definition onInit (nn : string) (p : parameters) : CameraNodelet :=
  let frame_id_base := param (param_frame_id_base p) (strip_slash nn) in
  {| getName := nn;
     camera_ip_ := param_ip p;
     xmlrpc_port_ := wrap16 (param_xmlrpc_port p);
     pcic_port_ := wrap16 (param_pcic_port p);
     schema_mask_ := wrap16 (param_schema_mask p);
     timeout_millis_ := param (param_timeout_millis p) 500;
     timeout_tolerance_secs_ := param (param_timeout_tolerance_secs p) (ieee.of_Z 5);
     assume_sw_triggered_ := param (param_assume_sw_triggered p) false;
     soft_on_timeout_millis_ := param (param_soft_on_timeout_millis p) 500;
     soft_on_timeout_tolerance_secs_ :=
       param (param_soft_on_timeout_tolerance_secs p) (ieee.of_Z 5);
     soft_off_timeout_millis_ := param (param_soft_off_timeout_millis p) 500;
     soft_off_timeout_tolerance_secs_ :=
       param (param_soft_off_timeout_tolerance_secs p) (ieee.of_Z 600);
     frame_latency_thresh_ :=
       param (option_map ieee.to_float (param_frame_latency_thresh p)) (ieee.of_Z 60);
     frame_id_ := (frame_id_base ++ "_link")%string;
     optical_frame_id_ := (frame_id_base ++ "_optical_link")%string;
     cam_ := None;
     fg_ := None;
     im_ := None |}.

(** ** The acquisition loop *)

(** The image variables local to [Run]. *)
Inductive img_var : Type :=
| confidence_img | distance_img | distance_noise_img | amplitude_img
| xyz_img | raw_amplitude_img | gray_img | rgb_img.

Definition img_var_eqb (a b : img_var) : bool :=
  match a, b with
  | confidence_img, confidence_img | distance_img, distance_img
  | distance_noise_img, distance_noise_img | amplitude_img, amplitude_img
  | xyz_img, xyz_img | raw_amplitude_img, raw_amplitude_img
  | gray_img, gray_img | rgb_img, rgb_img => true
  | _, _ => false
  end.

(** The locals of [Run] that live across iterations, and the flag behind
    [NODELET_INFO_ONCE]. *)
Record Locals : Type := mkLocals
  { images : img_var -> ifm3d.Image;
    extrinsics : list Z;
    last_frame : Z;
    got_uvec : bool;
    info_once_done : bool }.

Definition RunState : Type := (CameraNodelet * Locals)%type.

Definition self_of (st : RunState) : CameraNodelet := fst st.
Definition locals_of (st : RunState) : Locals := snd st.

Definition on_locals (f : Locals -> Locals) : SM RunState unit :=
  smodify (fun st => (fst st, f (snd st))).

Definition assign_image (v : img_var) (i : ifm3d.Image) : SM RunState unit :=
  on_locals (fun l =>
    mkLocals (fun w => if img_var_eqb w v then i else images l w)
             (extrinsics l) (last_frame l) (got_uvec l) (info_once_done l)).
Definition assign_extrinsics (e : list Z) : SM RunState unit :=
  on_locals (fun l => mkLocals (images l) e (last_frame l) (got_uvec l) (info_once_done l)).
Definition assign_last_frame (t : Z) : SM RunState unit :=
  on_locals (fun l => mkLocals (images l) (extrinsics l) t (got_uvec l) (info_once_done l)).
Definition assign_got_uvec (b : bool) : SM RunState unit :=
  on_locals (fun l => mkLocals (images l) (extrinsics l) (last_frame l) b (info_once_done l)).
Definition assign_info_once_done (b : bool) : SM RunState unit :=
  on_locals (fun l => mkLocals (images l) (extrinsics l) (last_frame l) (got_uvec l) b).

(** A member function of the nodelet called from [Run]. *)
Definition with_self {A} (m : SM CameraNodelet A) : SM RunState A :=
  fun st =>
    let '(tr, r, self') := m (fst st) in (tr, r, (self', snd st)).

Definition sblocked {S A} : SM S A := fun s => ([], Blocked, s).

(** What the environment answers during one iteration of
    [while (ros::ok())]: the frame wait, the clock readings in the order
    the iteration may ask for them, and the answers to the
    [InitStructures] calls it may make.  A clock reading is a
    [ros::Time]. *)
Record cycle_input : Type := mkCycleInput
  { wait : access (option session.StlImageBuffer);
    now_after_wait : Z;
    reinit : list init_env;
    now_after_reinit : Z;
    now_latency : Z;
    now_substitute : Z }.

(** [v.at(i)] on a [std::vector]: throws [std::out_of_range]. *)
Definition vector_at {S} (v : list Z) (i : nat) : SM S Z :=
  match nth_error v i with
  | Some x => sret x
  | None => sthrow (std_exception "vector::_M_range_check")
  end.

Definition set_tx (v : Z) (m : ifm3d_ros_msgs.Extrinsics) :=
  ifm3d_ros_msgs.mkExtrinsics (ifm3d_ros_msgs.e_header m) v (ifm3d_ros_msgs.ty m)
    (ifm3d_ros_msgs.tz m) (ifm3d_ros_msgs.rot_x m) (ifm3d_ros_msgs.rot_y m) (ifm3d_ros_msgs.rot_z m).
Definition set_ty (v : Z) (m : ifm3d_ros_msgs.Extrinsics) :=
  ifm3d_ros_msgs.mkExtrinsics (ifm3d_ros_msgs.e_header m) (ifm3d_ros_msgs.tx m) v
    (ifm3d_ros_msgs.tz m) (ifm3d_ros_msgs.rot_x m) (ifm3d_ros_msgs.rot_y m) (ifm3d_ros_msgs.rot_z m).
Definition set_tz (v : Z) (m : ifm3d_ros_msgs.Extrinsics) :=
  ifm3d_ros_msgs.mkExtrinsics (ifm3d_ros_msgs.e_header m) (ifm3d_ros_msgs.tx m) (ifm3d_ros_msgs.ty m)
    v (ifm3d_ros_msgs.rot_x m) (ifm3d_ros_msgs.rot_y m) (ifm3d_ros_msgs.rot_z m).
Definition set_rot_x (v : Z) (m : ifm3d_ros_msgs.Extrinsics) :=
  ifm3d_ros_msgs.mkExtrinsics (ifm3d_ros_msgs.e_header m) (ifm3d_ros_msgs.tx m) (ifm3d_ros_msgs.ty m)
    (ifm3d_ros_msgs.tz m) v (ifm3d_ros_msgs.rot_y m) (ifm3d_ros_msgs.rot_z m).
Definition set_rot_y (v : Z) (m : ifm3d_ros_msgs.Extrinsics) :=
  ifm3d_ros_msgs.mkExtrinsics (ifm3d_ros_msgs.e_header m) (ifm3d_ros_msgs.tx m) (ifm3d_ros_msgs.ty m)
    (ifm3d_ros_msgs.tz m) (ifm3d_ros_msgs.rot_x m) v (ifm3d_ros_msgs.rot_z m).
Definition set_rot_z (v : Z) (m : ifm3d_ros_msgs.Extrinsics) :=
  ifm3d_ros_msgs.mkExtrinsics (ifm3d_ros_msgs.e_header m) (ifm3d_ros_msgs.tx m) (ifm3d_ros_msgs.ty m)
    (ifm3d_ros_msgs.tz m) (ifm3d_ros_msgs.rot_x m) (ifm3d_ros_msgs.rot_y m) v.

(** The guarded copy of the six extrinsics into the message. *)
Definition fill_extrinsics (v : list Z) : SM ifm3d_ros_msgs.Extrinsics unit :=
  try_catch
    (do x <- vector_at v 0; do_ smodify (set_tx x);
     do x <- vector_at v 1; do_ smodify (set_ty x);
     do x <- vector_at v 2; do_ smodify (set_tz x);
     do x <- vector_at v 3; do_ smodify (set_rot_x x);
     do x <- vector_at v 4; do_ smodify (set_rot_y x);
     do x <- vector_at v 5; smodify (set_rot_z x))
    (fun e =>
       match e with
       | std_exception _ => Some (semit (Log WARN "out-of-range error fetching extrinsics"))
       | _ => None
       end).

(** A block working on a local of its own. *)
Definition with_local {S L A} (init : L) (m : SM L A) : SM S L :=
  fun s =>
    match m init with
    | (tr, Returns _, l) => (tr, Returns l, s)
    | (tr, Throws e, _) => (tr, Throws e, s)
    | (tr, Undefined, _) => (tr, Undefined, s)
    | (tr, Blocked, _) => (tr, Blocked, s)
    end.

(** [(schema_mask_ & bit) == bit] *)
Definition mask_has (schema_mask bit : Z) : bool := Z.land schema_mask bit =? bit.

Definition when {S} (b : bool) (m : SM S unit) : SM S unit :=
  if b then m else sret tt.

Section Run.

Variable bitDepth : string -> option Z.

(** [while (!this->InitStructures(mask, pcic_port_)) { warn; sleep; }]:
    one answer of the environment per attempt; the loop has no other
    exit than a successful attempt. *)
Fixpoint retry_InitStructures (envs : list init_env) (mask : RunState -> Z)
         (warning : string) : SM RunState unit :=
  match envs with
  | [] => sblocked
  | env :: rest =>
      do st <- sget;
      do ok <- with_self (InitStructures env (mask st) (pcic_port_ (self_of st)));
      if ok then sret tt
      else
        do_ semit (Log WARN warning);
        do_ semit Sleep;
        retry_InitStructures rest mask warning
  end.

(** The mask of a recovery: [got_uvec ? schema_mask_ : ifm3d::IMG_UVEC]. *)
Definition recovery_mask (st : RunState) : Z :=
  if got_uvec (locals_of st) then schema_mask_ (self_of st) else ifm3d.IMG_UVEC.

(** The failed-wait branch, up to its [continue]. *)
Definition on_timeout (c : cycle_input) : SM RunState unit :=
  do st <- sget;
  do_ (if negb (assume_sw_triggered_ (self_of st))
       then semit (Log WARN "Timeout waiting for camera!")
       else semit Sleep);
  do elapsed <- call (ros.Time_minus (now_after_wait c) (last_frame (locals_of st)));
  if ieee.gt (ros.Duration_toSec elapsed) (timeout_tolerance_secs_ (self_of st))
  then
    do_ semit (Log WARN "Attempting to restart framegrabber...");
    do_ retry_InitStructures (reinit c) recovery_mask "Could not re-initialize pixel stream!";
    assign_last_frame (now_after_reinit c)
  else sret tt.

(** [head] and [optical_head]. *)
Definition prepare_header (c : cycle_input) : SM RunState (std_msgs.Header * std_msgs.Header) :=
  do st <- sget;
  deref (im_ (self_of st)) (fun im =>
    do device_stamp <- lift (ros.Time_fromSec (to_double_seconds (session.TimeStamp im)));
    do elapsed <- call (ros.Time_minus (now_latency c) device_stamp);
    do thresh <- lift (ros.Duration_fromSec (frame_latency_thresh_ (self_of st)));
    do stamp <-
      (if elapsed >? thresh
       then
         do_ when (negb (info_once_done (locals_of st)))
               (do_ semit (Log INFO "Camera's time and client's time are not synced");
                assign_info_once_done true);
         sret (now_substitute c)
       else sret device_stamp);
    let head := {| std_msgs.seq := 0; std_msgs.stamp := stamp;
                   std_msgs.frame_id := frame_id_ (self_of st) |} in
    let optical_head := {| std_msgs.seq := 0; std_msgs.stamp := std_msgs.stamp head;
                           std_msgs.frame_id := optical_frame_id_ (self_of st) |} in
    sret (head, optical_head)).

(** The [if (!got_uvec)] branch, up to its [continue]. *)
Definition bootstrap (c : cycle_input) (optical_head : std_msgs.Header) : SM RunState unit :=
  do st <- sget;
  do uvec_msg <- deref (im_ (self_of st)) (fun im =>
    lift (ifm3d_to_ros_image bitDepth (session.UnitVectors im) optical_head
                             (getName (self_of st))));
  do_ semit (Log INFO ("uvec image size: "
                       ++ to_string (wrap32 (sensor_msgs.height uvec_msg
                                             * sensor_msgs.width uvec_msg))));
  do_ semit (Publish uvec_pub_ (ImageMsg uvec_msg));
  do_ assign_got_uvec true;
  do_ semit (Log INFO "Got unit vectors, restarting framegrabber with mask: %d");
  do_ retry_InitStructures (reinit c) (fun st => schema_mask_ (self_of st))
        "Could not re-initialize pixel stream!";
  semit (Log INFO "Start streaming data").

(** The locked block that copies the frame out of the buffer. *)
Definition pull_images : SM RunState unit :=
  try_catch
    (do st <- sget;
     deref (im_ (self_of st)) (fun im =>
       do x <- call (session.XYZImage im); do_ assign_image xyz_img x;
       do x <- call (session.ConfidenceImage im); do_ assign_image confidence_img x;
       do x <- call (session.DistanceImage im); do_ assign_image distance_img x;
       do x <- call (session.DistanceNoiseImage im); do_ assign_image distance_noise_img x;
       do x <- call (session.AmplitudeImage im); do_ assign_image amplitude_img x;
       do x <- call (session.RawAmplitudeImage im); do_ assign_image raw_amplitude_img x;
       do x <- call (session.GrayImage im); do_ assign_image gray_img x;
       do e <- call (session.Extrinsics im); do_ assign_extrinsics e;
       do x <- call (session.JPEGImage im); assign_image rgb_img x))
    (fun e =>
       match e with
       | ifm3d_error _ what => Some (semit (Log WARN what))
       | std_exception what => Some (semit (Log WARN what))
       | unknown_exception => None
       end).

Definition publish_image (t : topic) (v : img_var) (header : std_msgs.Header)
  : SM RunState unit :=
  do st <- sget;
  do m <- lift (ifm3d_to_ros_image bitDepth (images (locals_of st) v) header
                                   (getName (self_of st)));
  semit (Publish t (ImageMsg m)).

(** The publishing part of a streaming cycle. *)
Definition publish_all (head optical_head : std_msgs.Header) : SM RunState unit :=
  do st <- sget;
  let schema_mask := schema_mask_ (self_of st) in
  do_ publish_image conf_pub_ confidence_img optical_head;
  do_ when (mask_has schema_mask ifm3d.IMG_CART)
        (do m <- lift (ifm3d_to_ros_cloud (images (locals_of st) xyz_img) head
                                          (getName (self_of st)));
         semit (Publish cloud_pub_ (CloudMsg m)));
  do_ when (mask_has schema_mask ifm3d.IMG_RDIS)
        (publish_image distance_pub_ distance_img optical_head);
  do_ when (mask_has schema_mask ifm3d.IMG_DIS_NOISE)
        (publish_image distance_noise_pub_ distance_noise_img optical_head);
  do_ when (mask_has schema_mask ifm3d.IMG_AMP)
        (publish_image amplitude_pub_ amplitude_img optical_head);
  do_ when (mask_has schema_mask ifm3d.IMG_RAMP)
        (publish_image raw_amplitude_pub_ raw_amplitude_img optical_head);
  do_ when (mask_has schema_mask ifm3d.IMG_GRAY)
        (publish_image gray_image_pub_ gray_img optical_head);
  let rgb := images (locals_of st) rgb_img in
  do_ when (wrap32 (ifm3d.height rgb * ifm3d.width rgb) >? 0)
        (do m <- lift (ifm3d_to_ros_compressed_image rgb optical_head "jpeg"
                                                     (getName (self_of st)));
         semit (Publish rgb_image_pub_ (CompressedMsg m)));
  do extrinsics_msg <-
    with_local (ifm3d_ros_msgs.mkExtrinsics optical_head 0 0 0 0 0 0)
               (fill_extrinsics (extrinsics (locals_of st)));
  semit (Publish extrinsics_pub_ (ExtrinsicsMsg extrinsics_msg)).

(** One iteration of [while (ros::ok())]. *)
Definition cycle (c : cycle_input) : SM RunState unit :=
  do acquired <- with_self (AcquireFrame (wait c));
  if negb acquired then on_timeout c
  else
    do_ assign_last_frame (now_after_wait c);
    do heads <- prepare_header c;
    do st <- sget;
    if negb (got_uvec (locals_of st)) then bootstrap c (snd heads)
    else
      do_ pull_images;
      publish_all (fst heads) (snd heads).

(** The first loop of [Run]: [while (ros::ok() && !InitStructures(IMG_UVEC, ...))];
    one answer per attempt made while [ros::ok()] holds.  [true]: the
    session stands; [false]: [ros::ok()] ended the attempts. *)
Fixpoint startup (envs : list init_env) : SM RunState bool :=
  match envs with
  | [] => sret false
  | env :: rest =>
      do st <- sget;
      do ok <- with_self (InitStructures env ifm3d.IMG_UVEC (pcic_port_ (self_of st)));
      if ok then sret true
      else
        do_ semit (Log WARN "Could not initialize pixel stream!");
        do_ semit Sleep;
        startup rest
  end.

(** The iterations made while [ros::ok()] holds. *)
Fixpoint cycles (cs : list cycle_input) : SM RunState unit :=
  match cs with
  | [] => sret tt
  | c :: rest => do_ cycle c; cycles rest
  end.

Record run_input : Type := mkRunInput
  { startup_attempts : list init_env;
    start_time : Z;
    iterations : list cycle_input }.

Definition initial_locals : Locals :=
  {| images := fun _ => ifm3d.empty_image;
     extrinsics := [0; 0; 0; 0; 0; 0];
     last_frame := 0;
     got_uvec := false;
     info_once_done := false |}.

Definition Run_body (i : run_input) : SM RunState unit :=
  do started <- startup (startup_attempts i);
  do_ assign_last_frame (start_time i);
  do_ assign_got_uvec false;
  if started then cycles (iterations i) else sret tt.

Definition Run (self : CameraNodelet) (i : run_input)
  : list event * outcome unit * RunState :=
  Run_body i (self, initial_locals).

End Run.

(** * Vocabulary of the properties *)

(** The record a planar conversion returns when it copies nothing. *)
Definition empty_image_record (image : ifm3d.Image) (header : std_msgs.Header)
  : sensor_msgs.Image :=
  {| sensor_msgs.header := header;
     sensor_msgs.height := ifm3d.height image;
     sensor_msgs.width := ifm3d.width image;
     sensor_msgs.encoding := EmptyString;
     sensor_msgs.is_bigendian := 0;
     sensor_msgs.step := 0;
     sensor_msgs.data := [] |}.

(** The record a cloud conversion returns when it copies nothing. *)
Definition empty_cloud_record (image : ifm3d.Image) (header : std_msgs.Header)
  : sensor_msgs.PointCloud2 :=
  {| sensor_msgs.p_header := header;
     sensor_msgs.p_height := ifm3d.height image;
     sensor_msgs.p_width := ifm3d.width image;
     sensor_msgs.fields := [];
     sensor_msgs.p_is_bigendian := false;
     sensor_msgs.point_step := 0;
     sensor_msgs.row_step := 0;
     sensor_msgs.p_data := [];
     sensor_msgs.is_dense := false |}.

Definition format_error : event := Log ERROR "Pixel format out of range (%ld >= %ld)".

Definition cloud_format_error : event := Log ERROR "Unsupported pixel format %ld for point cloud".

Definition compressed_format_error : event := Log ERROR "Invalid data format for %s data (%ld)".

Definition fallback_warning : event :=
  Log WARN "Can't handle encoding %ld (32U == %ld, 64U == %ld)".

Definition sample_header : std_msgs.Header :=
  {| std_msgs.seq := 0; std_msgs.stamp := 1000; std_msgs.frame_id := "camera_optical_link" |}.

(** A 2x2 source of 3-channel 32-bit floats: 48 bytes. *)
Definition sample_32F3 : ifm3d.Image :=
  {| ifm3d.dataFormat := FORMAT_32F3; ifm3d.height := 2; ifm3d.width := 2;
     ifm3d.bytes := repeat x00 48 |}.

(** A 2x3 source of 16-bit unsigned pixels: 12 bytes. *)
Definition sample_16U : ifm3d.Image :=
  {| ifm3d.dataFormat := FORMAT_16U; ifm3d.height := 2; ifm3d.width := 3;
     ifm3d.bytes := repeat x00 12 |}.

(** A 1x1 source of one 32-bit unsigned pixel. *)
Definition sample_32U : ifm3d.Image :=
  {| ifm3d.dataFormat := FORMAT_32U; ifm3d.height := 1; ifm3d.width := 1;
     ifm3d.bytes := repeat x00 4 |}.

(** A source one pixel high and 2^30 pixels wide, with its 12 * 2^30
    bytes of 3-channel floats. *)
Definition wide_buffer : list byte := repeat x00 (Z.to_nat (12 * 2 ^ 30)).

Definition wide_32F3 : ifm3d.Image :=
  {| ifm3d.dataFormat := FORMAT_32F3; ifm3d.height := 1; ifm3d.width := 2 ^ 30;
     ifm3d.bytes := wide_buffer |}.

(** A default-constructed image relabelled as 64-bit float. *)
Definition empty_64F : ifm3d.Image :=
  {| ifm3d.dataFormat := FORMAT_64F; ifm3d.height := 0; ifm3d.width := 0; ifm3d.bytes := [] |}.

Definition triple_absent (self : CameraNodelet) : Prop :=
  cam_ self = None /\ fg_ self = None /\ im_ self = None.

(** The triple [InitStructures] builds for a mask: the handle for the
    configured address, the grabber bound to it, a fresh buffer. *)
Definition triple_built (mask : Z) (self : CameraNodelet) : Prop :=
  let c := {| session.ip := camera_ip_ self; session.xmlrpc_port := xmlrpc_port_ self |} in
  cam_ self = Some c
  /\ fg_ self = Some {| session.cam := c; session.mask := mask;
                        session.pcic_port := pcic_port_ self |}
  /\ im_ self = Some session.fresh_buffer.

Definition triple_present (self : CameraNodelet) : Prop :=
  cam_ self <> None /\ fg_ self <> None /\ im_ self <> None.

Definition triple_consistent (self : CameraNodelet) : Prop :=
  triple_present self \/ triple_absent self.

(** The failure a collaborator raises is an [ifm3d::error_t]. *)
Definition only_ifm3d (r : option exn) : Prop :=
  match r with
  | None => True
  | Some (ifm3d_error _ _) => True
  | Some (std_exception _) => False
  | Some unknown_exception => False
  end.

(** The members outside the session triple, all of them. *)
Definition same_settings (a b : CameraNodelet) : Prop :=
  getName a = getName b
  /\ camera_ip_ a = camera_ip_ b
  /\ xmlrpc_port_ a = xmlrpc_port_ b
  /\ pcic_port_ a = pcic_port_ b
  /\ schema_mask_ a = schema_mask_ b
  /\ timeout_millis_ a = timeout_millis_ b
  /\ timeout_tolerance_secs_ a = timeout_tolerance_secs_ b
  /\ assume_sw_triggered_ a = assume_sw_triggered_ b
  /\ soft_on_timeout_millis_ a = soft_on_timeout_millis_ b
  /\ soft_on_timeout_tolerance_secs_ a = soft_on_timeout_tolerance_secs_ b
  /\ soft_off_timeout_millis_ a = soft_off_timeout_millis_ b
  /\ soft_off_timeout_tolerance_secs_ a = soft_off_timeout_tolerance_secs_ b
  /\ frame_latency_thresh_ a = frame_latency_thresh_ b
  /\ frame_id_ a = frame_id_ b
  /\ optical_frame_id_ a = optical_frame_id_ b.

Definition sample_parameters : parameters :=
  {| param_ip := "192.168.0.69";
     param_xmlrpc_port := 80;
     param_pcic_port := 50010;
     param_schema_mask := 15;
     param_timeout_millis := None;
     param_timeout_tolerance_secs := None;
     param_assume_sw_triggered := None;
     param_soft_on_timeout_millis := None;
     param_soft_on_timeout_tolerance_secs := None;
     param_soft_off_timeout_millis := None;
     param_soft_off_timeout_tolerance_secs := None;
     param_frame_latency_thresh := None;
     param_frame_id_base := None |}.

Definition sample_nodelet : CameraNodelet := onInit "/camera" sample_parameters.

Definition init_ok : init_env :=
  {| MakeShared := None; make_FrameGrabber := None; make_StlImageBuffer := None |}.

Definition init_unplugged : init_env :=
  {| MakeShared := Some (ifm3d_error (-100001) "XMLRPC timeout");
     make_FrameGrabber := None; make_StlImageBuffer := None |}.

(** The status of the three-way catch of [Dump] and [Config]. *)
Definition status_of (e : exn) : Z :=
  match e with
  | ifm3d_error code _ => code
  | std_exception _ => -1
  | unknown_exception => -2
  end.

Definition status_of_answer {A} (a : access A) : Z :=
  match a with
  | inl _ => 0
  | inr e => status_of e
  end.

(** The nodelet once a session stands on the full schema. *)
Definition streaming_nodelet : CameraNodelet :=
  snd (InitStructures init_ok (schema_mask_ sample_nodelet) 50010 sample_nodelet).

Definition blank_response : srv.Response := {| srv.status := 0; srv.msg := EmptyString |}.

(** An event other than a publish. *)
Definition not_publish (e : event) : Prop :=
  match e with
  | Publish _ _ => False
  | _ => True
  end.

(** [triple Pre m Ev Inv Post]: started in [Pre], [m] emits events in
    [Ev] only, ends in [Inv] however it ends, and in [Post a] when it
    returns [a]. *)
Definition triple {S A} (Pre : S -> Prop) (m : SM S A) (Ev : event -> Prop)
           (Inv : S -> Prop) (Post : A -> S -> Prop) : Prop :=
  forall s, Pre s ->
    let '(tr, r, s') := m s in
    Forall Ev tr /\ Inv s' /\ (forall a, r = Returns a -> Post a s').

(** Two states of [Run] with the same settings and the same bootstrap
    flag; the session triple, the copied images, the extrinsics and the
    clocks may differ. *)
Definition steady (st st' : RunState) : Prop :=
  same_settings (self_of st) (self_of st')
  /\ got_uvec (locals_of st) = got_uvec (locals_of st').

Definition settled (Inv : RunState -> Prop) : Prop :=
  forall st st', steady st st' -> Inv st -> Inv st'.

Definition header_of (m : message) : std_msgs.Header :=
  match m with
  | ImageMsg m => sensor_msgs.header m
  | CompressedMsg m => sensor_msgs.c_header m
  | CloudMsg m => sensor_msgs.p_header m
  | ExtrinsicsMsg m => ifm3d_ros_msgs.e_header m
  end.




(** The header a streaming topic is published with. *)
Definition header_for (head optical_head : std_msgs.Header) (t : topic) : std_msgs.Header :=
  match t with
  | cloud_pub_ => head
  | _ => optical_head
  end.

(** The two headers of a cycle: the frame identifiers of the nodelet
    and one common stamp. *)
Definition heads_of (st : RunState) (heads : std_msgs.Header * std_msgs.Header) : Prop :=
  std_msgs.frame_id (fst heads) = frame_id_ (self_of st)
  /\ std_msgs.frame_id (snd heads) = optical_frame_id_ (self_of st)
  /\ std_msgs.stamp (snd heads) = std_msgs.stamp (fst heads).

(** The part of an iteration that follows the headers. *)
Definition cycle_rest (bitDepth : string -> option Z) (c : cycle_input)
           (heads : std_msgs.Header * std_msgs.Header) : SM RunState unit :=
  sbind sget (fun st =>
    if negb (got_uvec (locals_of st)) then bootstrap bitDepth c (snd heads)
    else sbind pull_images (fun _ => publish_all bitDepth (fst heads) (snd heads))).



Definition sync_notice : event := Log INFO "Camera's time and client's time are not synced".

(** What the header of a frame is made from: the device's time stamp
    as [ros::Time] builds it from double seconds, the time elapsed since
    then on the local clock, and the threshold as a [ros::Duration]. *)
Definition header_ready (c : cycle_input) (self : CameraNodelet)
           (frame : session.StlImageBuffer) (device_stamp elapsed thresh : Z) : Prop :=
  ros.Time_fromSec (to_double_seconds (session.TimeStamp frame)) = ret device_stamp
  /\ ros.Time_minus (now_latency c) device_stamp = inl elapsed
  /\ ros.Duration_fromSec (frame_latency_thresh_ self) = ret thresh.

Definition heads_with (self : CameraNodelet) (t : Z) : std_msgs.Header * std_msgs.Header :=
  ({| std_msgs.seq := 0; std_msgs.stamp := t; std_msgs.frame_id := frame_id_ self |},
   {| std_msgs.seq := 0; std_msgs.stamp := t; std_msgs.frame_id := optical_frame_id_ self |}).

Definition mark_info_once (l : Locals) : Locals :=
  mkLocals (images l) (extrinsics l) (last_frame l) (got_uvec l) true.

Definition sample_confidence : ifm3d.Image :=
  {| ifm3d.dataFormat := FORMAT_8U; ifm3d.height := 2; ifm3d.width := 2;
     ifm3d.bytes := repeat x01 4 |}.

Definition sample_uvec : ifm3d.Image :=
  {| ifm3d.dataFormat := FORMAT_32F; ifm3d.height := 1; ifm3d.width := 3;
     ifm3d.bytes := repeat x00 12 |}.

(** A frame captured at device time [t]: unit vectors, a 2x2 cloud, a
    2x2 confidence image and a 2x3 distance image; no RGB image. *)
Definition frame_at (t : Z) : session.StlImageBuffer :=
  {| session.TimeStamp := t;
     session.UnitVectors := sample_uvec;
     session.XYZImage := inl sample_32F3;
     session.ConfidenceImage := inl sample_confidence;
     session.DistanceImage := inl sample_16U;
     session.DistanceNoiseImage := inl ifm3d.empty_image;
     session.AmplitudeImage := inl ifm3d.empty_image;
     session.RawAmplitudeImage := inl ifm3d.empty_image;
     session.GrayImage := inl ifm3d.empty_image;
     session.Extrinsics := inl [1; 2; 3; 4; 5; 6];
     session.JPEGImage := inl ifm3d.empty_image |}.

(** A cycle in which the wait delivers a frame captured at [device] while
    the local clock reads [local]. *)
Definition frame_cycle (device local : Z) : cycle_input :=
  {| wait := inl (Some (frame_at device));
     now_after_wait := local;
     reinit := [init_ok];
     now_after_reinit := local;
     now_latency := local;
     now_substitute := local + 1 |}.

(** A cycle in which the wait times out at local time [local] and the
    environment answers the restarts with [answers]. *)
Definition timeout_cycle (local : Z) (answers : list init_env) : cycle_input :=
  {| wait := inl None;
     now_after_wait := local;
     reinit := answers;
     now_after_reinit := local + 2;
     now_latency := local;
     now_substitute := local |}.

Definition streaming_locals : Locals :=
  mkLocals (images initial_locals) (extrinsics initial_locals) 0 true false.

(** The stamps of the published messages, in order. *)
Definition stamps_of (tr : list event) : list Z :=
  flat_map (fun e => match e with
                     | Publish _ m => [std_msgs.stamp (header_of m)]
                     | _ => []
                     end) tr.

(** The topics published to, in order. *)
Definition topics_of (tr : list event) : list topic :=
  flat_map (fun e => match e with
                     | Publish t _ => [t]
                     | _ => []
                     end) tr.

(** An attempt that fails the way [InitStructures] handles: the first
    construction to fail raises an [ifm3d::error_t]. *)
Definition init_fails (env : init_env) : Prop :=
  match MakeShared env, make_FrameGrabber env, make_StlImageBuffer env with
  | Some (ifm3d_error _ _), _, _ => True
  | None, Some (ifm3d_error _ _), _ => True
  | None, None, Some (ifm3d_error _ _) => True
  | _, _, _ => False
  end.

Definition init_succeeds (env : init_env) : Prop :=
  MakeShared env = None /\ make_FrameGrabber env = None /\ make_StlImageBuffer env = None.

(** The first log line of every [InitStructures]. *)
Definition is_attempt (e : event) : bool :=
  match e with
  | Log INFO text => String.eqb text "Running dtors..."
  | _ => false
  end.

Definition count_attempts (tr : list event) : nat := List.length (filter is_attempt tr).

Definition restart_notice : event := Log WARN "Attempting to restart framegrabber...".

Definition timeout_notice (self : CameraNodelet) : event :=
  if negb (assume_sw_triggered_ self) then Log WARN "Timeout waiting for camera!" else Sleep.

(** [last_frame = t] *)
Definition with_last_frame (t : Z) (l : Locals) : Locals :=
  mkLocals (images l) (extrinsics l) t (got_uvec l) (info_once_done l).

(** A frame wait that fails: a timeout, or a device error (caught and
    logged by [AcquireFrame]). *)
Definition wait_fails (w : access (option session.StlImageBuffer)) : Prop :=
  match w with
  | inl None => True
  | inr (ifm3d_error _ _) => True
  | _ => False
  end.

Definition no_uvec (e : event) : Prop :=
  match e with
  | Publish uvec_pub_ _ => False
  | _ => True
  end.

Definition bootstrapped (st : RunState) : Prop := got_uvec (locals_of st) = true.

Definition waiting (st : RunState) : Prop := got_uvec (locals_of st) = false.

(** What follows the publish in the bootstrap branch. *)
Definition bootstrap_tail (c : cycle_input) : SM RunState unit :=
  sbind (semit (Log INFO "Got unit vectors, restarting framegrabber with mask: %d")) (fun _ =>
  sbind (retry_InitStructures (reinit c) (fun st => schema_mask_ (self_of st))
                              "Could not re-initialize pixel stream!") (fun _ =>
  semit (Log INFO "Start streaming data"))).

(** The publishes of a run, in order: none, or the unit vectors first
    and never again. *)
Definition uvec_first (ts : list topic) : Prop :=
  ts = [] \/ exists rest, ts = uvec_pub_ :: rest /\ ~ In uvec_pub_ rest.

(** The camera is plugged in after one failed attempt; the first wait
    times out, two frames follow, then the stream stalls past the
    tolerance, the session is rebuilt at the second attempt and a third
    frame follows. *)
Definition sample_run : run_input :=
  {| startup_attempts := [init_unplugged; init_ok];
     start_time := 0;
     iterations :=
       [ timeout_cycle (seconds 1) [];
         frame_cycle (seconds 2) (seconds 2);
         frame_cycle (seconds 3) (seconds 3);
         timeout_cycle (seconds 10) [init_unplugged; init_ok];
         frame_cycle (seconds 11) (seconds 11) ] |}.

Definition streaming_topics : list topic :=
  [conf_pub_; cloud_pub_; distance_pub_; amplitude_pub_; raw_amplitude_pub_; extrinsics_pub_].

(** The nodelet once the bootstrap session stands. *)
Definition bootstrap_nodelet : CameraNodelet :=
  snd (InitStructures init_ok ifm3d.IMG_UVEC 50010 sample_nodelet).


(** A 2x2 source of 8-bit pixels holding a 4-byte compressed stream. *)
Definition sample_jpeg : ifm3d.Image :=
  {| ifm3d.dataFormat := FORMAT_8U; ifm3d.height := 2; ifm3d.width := 2;
     ifm3d.bytes := [xff; xd8; xff; xd9] |}.

Definition extrinsics_warning : event := Log WARN "out-of-range error fetching extrinsics".

(** The images of a frame, by the local they are copied to. *)
Definition frame_images (xyz conf dis noise amp ramp gray jpeg : ifm3d.Image)
           (v : img_var) : ifm3d.Image :=
  match v with
  | xyz_img => xyz
  | confidence_img => conf
  | distance_img => dis
  | distance_noise_img => noise
  | amplitude_img => amp
  | raw_amplitude_img => ramp
  | gray_img => gray
  | rgb_img => jpeg
  end.

(** The topics of a streaming cycle, in the order of the source: the
    confidence image, the channels whose bit is set in the schema mask,
    the RGB image when it has pixels, the extrinsics. *)
Definition expected_topics (schema_mask : Z) (rgb : ifm3d.Image) : list topic :=
  [conf_pub_]
  ++ (if mask_has schema_mask ifm3d.IMG_CART then [cloud_pub_] else [])
  ++ (if mask_has schema_mask ifm3d.IMG_RDIS then [distance_pub_] else [])
  ++ (if mask_has schema_mask ifm3d.IMG_DIS_NOISE then [distance_noise_pub_] else [])
  ++ (if mask_has schema_mask ifm3d.IMG_AMP then [amplitude_pub_] else [])
  ++ (if mask_has schema_mask ifm3d.IMG_RAMP then [raw_amplitude_pub_] else [])
  ++ (if mask_has schema_mask ifm3d.IMG_GRAY then [gray_image_pub_] else [])
  ++ (if wrap32 (ifm3d.height rgb * ifm3d.width rgb) >? 0 then [rgb_image_pub_] else [])
  ++ [extrinsics_pub_].

(** [m], run from [st], leaves the state as it is and publishes to the
    topics [ts] in that order, or to a front part of them when it does
    not return. *)
Definition emits {S A} (ts : list topic) (m : SM S A) (st : S) : Prop :=
  let '(tr, r, st') := m st in
  st' = st
  /\ (exists rest, ts = topics_of tr ++ rest)
  /\ (forall a, r = Returns a -> topics_of tr = ts).

Definition trigger_message : string := "Software trigger is currently not implemented".

Definition blank_dump_response : srv.DumpResponse :=
  {| srv.d_status := 0; srv.d_config := EmptyString |}.

Definition is_sleep (e : event) : bool :=
  match e with
  | Sleep => true
  | _ => false
  end.

Definition count_sleeps (tr : list event) : nat := List.length (filter is_sleep tr).

(** The first frame, with the rebuild of the session failing once. *)
Definition first_frame_cycle : cycle_input :=
  {| wait := inl (Some (frame_at (seconds 2)));
     now_after_wait := seconds 2;
     reinit := [init_unplugged; init_ok];
     now_after_reinit := seconds 2;
     now_latency := seconds 2;
     now_substitute := seconds 2 |}.

(** The session of a state of [Run] stands. *)
Definition session_up (st : RunState) : Prop := triple_present (self_of st).

Definition any_event (e : event) : Prop := True.

Definition any_state (st : RunState) : Prop := True.

(** Whether the schema mask lets a topic be published: the mask-gated
    channels need their bit, the others are always let through. *)
Definition gated (schema_mask : Z) (t : topic) : bool :=
  match t with
  | cloud_pub_ => mask_has schema_mask ifm3d.IMG_CART
  | distance_pub_ => mask_has schema_mask ifm3d.IMG_RDIS
  | distance_noise_pub_ => mask_has schema_mask ifm3d.IMG_DIS_NOISE
  | amplitude_pub_ => mask_has schema_mask ifm3d.IMG_AMP
  | raw_amplitude_pub_ => mask_has schema_mask ifm3d.IMG_RAMP
  | gray_image_pub_ => mask_has schema_mask ifm3d.IMG_GRAY
  | conf_pub_ | rgb_image_pub_ | uvec_pub_ | extrinsics_pub_ => true
  end.

Definition let_through (schema_mask : Z) (e : event) : Prop :=
  match e with
  | Publish t _ => gated schema_mask t = true
  | _ => True
  end.

Definition masked_by (schema_mask : Z) (st : RunState) : Prop :=
  schema_mask_ (self_of st) = schema_mask.

(** An exception that [catch (const ifm3d::error_t&)] lets through. *)
Definition not_ifm3d (e : exn) : Prop :=
  match e with
  | ifm3d_error _ _ => False
  | _ => True
  end.

(** An attempt whose first failing construction raises [e], which is
    not an [ifm3d::error_t]. *)
Definition init_throws (env : init_env) (e : exn) : Prop :=
  not_ifm3d e
  /\ match MakeShared env, make_FrameGrabber env, make_StlImageBuffer env with
     | Some x, _, _ => x = e
     | None, Some x, _ => x = e
     | None, None, Some x => x = e
     | None, None, None => False
     end.

(** The allocation of the frame grabber fails. *)
Definition init_no_memory : init_env :=
  {| MakeShared := None;
     make_FrameGrabber := Some (std_exception "std::bad_alloc");
     make_StlImageBuffer := None |}.

(** A nodelet set up with a staleness tolerance of 2^24 seconds, its
    session standing on the full schema. *)
Definition patient_nodelet : CameraNodelet :=
  let p := mkParameters "192.168.0.69" 80 50010 15 None (Some (ieee.of_Z (2 ^ 24)))
                        None None None None None None None in
  snd (InitStructures init_ok 15 50010 (onInit "/camera" p)).

(** A cycle whose wait delivers no frame. *)
Definition no_frame (c : cycle_input) : Prop :=
  forall frame, wait c <> inl (Some frame).

(** The start of the sample run: the first loop and the timeout that
    comes before the first frame. *)
Definition sample_start : list event * outcome unit * RunState :=
  Run image_encodings_model.bitDepth sample_nodelet
      (mkRunInput [init_unplugged; init_ok] 0 [timeout_cycle (seconds 1) []]).

(** A frame with other unit vectors. *)
Definition with_unit_vectors (u : ifm3d.Image) (f : session.StlImageBuffer)
  : session.StlImageBuffer :=
  session.mkStlImageBuffer (session.TimeStamp f) u (session.XYZImage f)
    (session.ConfidenceImage f) (session.DistanceImage f) (session.DistanceNoiseImage f)
    (session.AmplitudeImage f) (session.RawAmplitudeImage f) (session.GrayImage f)
    (session.Extrinsics f) (session.JPEGImage f).

(** A cycle in which the wait delivers, at time [t], a frame captured at
    [t] whose unit vectors are [u]. *)
Definition uvec_cycle (u : ifm3d.Image) (t : Z) : cycle_input :=
  {| wait := inl (Some (with_unit_vectors u (frame_at t)));
     now_after_wait := t;
     reinit := [init_ok];
     now_after_reinit := t;
     now_latency := t;
     now_substitute := t + 1 |}.

(** * Properties of the conversion pipeline *)

Lemma image_format_info_eq :
  image_format_info =
  [TYPE_8UC1; TYPE_8SC1; TYPE_16UC1; TYPE_16SC1; "32UC1"; TYPE_32SC1;
   TYPE_32FC1; "64UC1"; TYPE_64FC1; TYPE_16UC2; TYPE_32FC3]%string.
Proof. reflexivity. Qed.

Lemma copy_bytes_in_range (buf : list byte) (n : Z) :
  0 <= n <= Z.of_nat (List.length buf) ->
  exists payload,
    copy_bytes buf n = ([], Returns payload)
    /\ Z.of_nat (List.length payload) = n
    /\ payload = firstn (Z.to_nat n) buf.
Proof.
  intros Hn. unfold copy_bytes.
  destruct (Z.leb_spec n (Z.of_nat (List.length buf))) as [_ | Hlt]; [ | lia ].
  eexists; split; [ reflexivity | split; [ | reflexivity ] ].
  rewrite length_firstn. lia.
Qed.

Lemma wrap32_small (z : Z) : 0 <= z < 2 ^ 32 -> wrap32 z = z.
Proof. intros H. unfold wrap32. apply Z.mod_small. exact H. Qed.

(** Planar conversion stops at the range check for every code from
    [FORMAT_32F3] upwards, whatever [bitDepth] does. *)
Lemma ifm3d_to_ros_image_out_of_range bitDepth image header logger :
  ifm3d.range_empty image = false ->
  max_pixel_format <= ifm3d.dataFormat image ->
  ifm3d_to_ros_image bitDepth image header logger
  = ([format_error], Returns (empty_image_record image header)).
Proof.
  intros Hne Hfmt. unfold ifm3d_to_ros_image. rewrite Hne.
  destruct (Z.geb_spec (ifm3d.dataFormat image) max_pixel_format) as [_ | Hlt]; [ | lia ].
  reflexivity.
Qed.

(** C1.  The 3-channel 32-bit float format is the last entry of the
    lookup table, which holds its encoding tag [32FC3]; yet planar
    conversion of a non-empty source of that format takes the
    out-of-range path: it logs the format error and returns the record
    with header and dimensions only, no encoding, stride 0, no payload. *)
Theorem ifm3d_to_ros_image_rejects_32F3 bitDepth image header logger :
  ifm3d.range_empty image = false ->
  ifm3d.dataFormat image = FORMAT_32F3 ->
  nth_error image_format_info (Z.to_nat FORMAT_32F3) = Some TYPE_32FC3
  /\ ifm3d_to_ros_image bitDepth image header logger
     = ([format_error], Returns (empty_image_record image header)).
Proof.
  intros Hne Hfmt. split; [ reflexivity | ].
  apply ifm3d_to_ros_image_out_of_range; [ exact Hne | ].
  rewrite Hfmt. unfold max_pixel_format. lia.
Qed.

Lemma ifm3d_to_ros_image_rejects_32F3_witness :
  nth_error image_format_info (Z.to_nat FORMAT_32F3) = Some TYPE_32FC3
  /\ ifm3d_to_ros_image image_encodings_model.bitDepth sample_32F3 sample_header "camera"
     = ([format_error], Returns (empty_image_record sample_32F3 sample_header)).
Proof.
  apply (ifm3d_to_ros_image_rejects_32F3 image_encodings_model.bitDepth
           sample_32F3 sample_header "camera"); reflexivity.
Defined.

(** X2.  Planar conversion of a non-empty source whose code lies below
    [FORMAT_32F3], whose tag in the table is not empty and has a bit
    depth: when width*bits and the payload size fit in 32 bits and the
    source buffer is long enough, the call logs nothing and returns the
    tag of the table as encoding, the stride width*bits/8 and a payload
    of stride*height bytes. *)
Lemma ifm3d_to_ros_image_in_table bitDepth image header logger enc bits :
  ifm3d.range_empty image = false ->
  0 <= ifm3d.dataFormat image < max_pixel_format ->
  nth_error image_format_info (Z.to_nat (ifm3d.dataFormat image)) = Some enc ->
  string_empty enc = false ->
  bitDepth enc = Some bits ->
  0 <= ifm3d.width image * bits < 2 ^ 32 ->
  0 <= ifm3d.width image * bits / 8 * ifm3d.height image < 2 ^ 32 ->
  ifm3d.width image * bits / 8 * ifm3d.height image <= Z.of_nat (List.length (ifm3d.bytes image)) ->
  exists payload,
    ifm3d_to_ros_image bitDepth image header logger
    = ([], Returns {| sensor_msgs.header := header;
                      sensor_msgs.height := ifm3d.height image;
                      sensor_msgs.width := ifm3d.width image;
                      sensor_msgs.encoding := enc;
                      sensor_msgs.is_bigendian := 0;
                      sensor_msgs.step := ifm3d.width image * bits / 8;
                      sensor_msgs.data := payload |})
    /\ Z.of_nat (List.length payload) = ifm3d.width image * bits / 8 * ifm3d.height image.
Proof.
  intros Hne Hfmt Henc Hnonempty Hbits Hw Hn Hbuf.
  unfold ifm3d_to_ros_image. rewrite Hne.
  destruct (Z.geb_spec (ifm3d.dataFormat image) max_pixel_format) as [Hge | _]; [ lia | ].
  unfold array_at. rewrite Henc. cbn [bind ret fst snd app].
  unfold bitDepth_call. rewrite Hbits. cbn [bind ret fst snd app sensor_msgs.width sensor_msgs.height].
  rewrite (wrap32_small (ifm3d.width image * bits)) by exact Hw.
  assert (Hstep : 0 <= ifm3d.width image * bits / 8 < 2 ^ 32).
  { split; [ apply Z.div_pos; lia | ].
    apply Z.le_lt_trans with (ifm3d.width image * bits); [ | lia ].
    apply Z.div_le_upper_bound; lia. }
  rewrite (wrap32_small _ Hstep).
  rewrite (wrap32_small _ Hn).
  destruct (copy_bytes_in_range (ifm3d.bytes image)
              (ifm3d.width image * bits / 8 * ifm3d.height image)) as (payload & Hcopy & Hlen & _);
    [ lia | ].
  rewrite Hcopy. cbn [bind ret fst snd app sensor_msgs.encoding].
  rewrite Hnonempty. exists payload. split; [ reflexivity | exact Hlen ].
Qed.

Example ifm3d_to_ros_image_16U :
  ifm3d_to_ros_image image_encodings_model.bitDepth sample_16U sample_header "camera"
  = ([], Returns {| sensor_msgs.header := sample_header;
                    sensor_msgs.height := 2;
                    sensor_msgs.width := 3;
                    sensor_msgs.encoding := "16UC1";
                    sensor_msgs.is_bigendian := 0;
                    sensor_msgs.step := 6;
                    sensor_msgs.data := repeat x00 12 |}).
Proof. reflexivity. Qed.

(** With the bit depths of the ROS encodings, the 16-bit dual-channel
    format gets the stride of one channel: 2 bytes a pixel. *)
Example ifm3d_to_ros_image_16U2_stride :
  ifm3d_to_ros_image image_encodings_model.bitDepth
    {| ifm3d.dataFormat := FORMAT_16U2; ifm3d.height := 1; ifm3d.width := 3;
       ifm3d.bytes := repeat x00 12 |} sample_header "camera"
  = ([], Returns {| sensor_msgs.header := sample_header;
                    sensor_msgs.height := 1;
                    sensor_msgs.width := 3;
                    sensor_msgs.encoding := "16UC2";
                    sensor_msgs.is_bigendian := 0;
                    sensor_msgs.step := 6;
                    sensor_msgs.data := repeat x00 6 |}).
Proof. reflexivity. Qed.

(** C6.  For a non-empty source in one of the two reserved formats
    (32-bit unsigned, 64-bit unsigned) planar conversion never reaches
    the fallback: the table holds the non-empty tags [32UC1] and [64UC1]
    for them, so no warning is logged and a returned record is never
    relabelled [8UC1]; with the bit depths of the ROS encodings the call
    ends in the exception [bitDepth] throws on these tags. *)
Theorem reserved_formats_never_fall_back bitDepth image header logger :
  ifm3d.range_empty image = false ->
  ifm3d.dataFormat image = FORMAT_32U \/ ifm3d.dataFormat image = FORMAT_64U ->
  ~ In fallback_warning (trace_of (ifm3d_to_ros_image bitDepth image header logger))
  /\ (forall r, result_of (ifm3d_to_ros_image bitDepth image header logger) = Returns r ->
                sensor_msgs.encoding r <> TYPE_8UC1
                /\ (sensor_msgs.encoding r = "32UC1" \/ sensor_msgs.encoding r = "64UC1"))
  /\ (ifm3d_to_ros_image image_encodings_model.bitDepth image header logger
      = ([], Throws (std_exception "Unknown encoding 32UC1"))
      \/ ifm3d_to_ros_image image_encodings_model.bitDepth image header logger
         = ([], Throws (std_exception "Unknown encoding 64UC1"))).
Proof.
  intros Hne Hfmt. unfold ifm3d_to_ros_image. rewrite Hne.
  destruct Hfmt as [Hfmt | Hfmt]; rewrite Hfmt.
  - change (FORMAT_32U >=? max_pixel_format) with false. cbv iota.
    change (array_at image_format_info FORMAT_32U) with (@ret string "32UC1").
    cbn [bind ret fst snd app]. unfold bitDepth_call.
    destruct (bitDepth "32UC1") as [bits | ]; cbn [bind ret throw fst snd app trace_of result_of].
    + unfold copy_bytes.
      match goal with |- context [if ?c then _ else _] => destruct c end;
        cbn [bind ret fst snd app string_empty sensor_msgs.encoding trace_of result_of].
      * split; [ intros [] | ]. split; [ | left; reflexivity ].
        intros r Hr. injection Hr as <-. cbn. split; [ discriminate | left; reflexivity ].
      * split; [ intros [] | ]. split; [ discriminate | left; reflexivity ].
    + split; [ intros [] | ]. split; [ discriminate | left; reflexivity ].
  - change (FORMAT_64U >=? max_pixel_format) with false. cbv iota.
    change (array_at image_format_info FORMAT_64U) with (@ret string "64UC1").
    cbn [bind ret fst snd app]. unfold bitDepth_call.
    destruct (bitDepth "64UC1") as [bits | ]; cbn [bind ret throw fst snd app trace_of result_of].
    + unfold copy_bytes.
      match goal with |- context [if ?c then _ else _] => destruct c end;
        cbn [bind ret fst snd app string_empty sensor_msgs.encoding trace_of result_of].
      * split; [ intros [] | ]. split; [ | right; reflexivity ].
        intros r Hr. injection Hr as <-. cbn. split; [ discriminate | right; reflexivity ].
      * split; [ intros [] | ]. split; [ discriminate | right; reflexivity ].
    + split; [ intros [] | ]. split; [ discriminate | right; reflexivity ].
Qed.

Lemma reserved_formats_never_fall_back_witness :
  ~ In fallback_warning
       (trace_of (ifm3d_to_ros_image (fun _ => Some 32) sample_32U sample_header "camera"))
  /\ (forall r, result_of (ifm3d_to_ros_image (fun _ => Some 32) sample_32U sample_header "camera")
                = Returns r ->
                sensor_msgs.encoding r <> TYPE_8UC1
                /\ (sensor_msgs.encoding r = "32UC1" \/ sensor_msgs.encoding r = "64UC1"))
  /\ (ifm3d_to_ros_image image_encodings_model.bitDepth sample_32U sample_header "camera"
      = ([], Throws (std_exception "Unknown encoding 32UC1"))
      \/ ifm3d_to_ros_image image_encodings_model.bitDepth sample_32U sample_header "camera"
         = ([], Throws (std_exception "Unknown encoding 64UC1"))).
Proof.
  apply (reserved_formats_never_fall_back (fun _ => Some 32) sample_32U sample_header "camera").
  - reflexivity.
  - left. reflexivity.
Defined.

(** ** Point clouds *)

Lemma xyz_fields_layout :
  xyz_fields =
  [ sensor_msgs.mkPointField "x" 0 sensor_msgs.PointField.FLOAT32 1;
    sensor_msgs.mkPointField "y" 4 sensor_msgs.PointField.FLOAT32 1;
    sensor_msgs.mkPointField "z" 8 sensor_msgs.PointField.FLOAT32 1 ]
  /\ List.length xyz_fields = 3%nat.
Proof. split; reflexivity. Qed.

Lemma point_step_12 : wrap32 (Z.of_nat (List.length xyz_fields) * sizeof_float) = 12.
Proof. reflexivity. Qed.

(** C3 (as amended).  For a non-empty source of 3-channel or plain
    32-bit float format with width W and height H, when 12*W and 12*W*H
    fit in 32 bits and the source buffer holds at least 12*W*H bytes,
    cloud conversion logs nothing and returns a record with the three
    FLOAT32 fields x, y, z at offsets 0, 4, 8, point step 12, row step
    12*W, a payload of 12*W*H bytes and the dense flag set.  For a
    non-empty source of any other format it logs the format error and
    returns the record with header and dimensions only. *)
Theorem ifm3d_to_ros_cloud_layout image header logger :
  ifm3d.range_empty image = false ->
  (ifm3d.dataFormat image = FORMAT_32F3 \/ ifm3d.dataFormat image = FORMAT_32F ->
   0 <= ifm3d.width image -> 0 <= ifm3d.height image ->
   12 * ifm3d.width image < 2 ^ 32 ->
   12 * ifm3d.width image * ifm3d.height image < 2 ^ 32 ->
   12 * ifm3d.width image * ifm3d.height image <= Z.of_nat (List.length (ifm3d.bytes image)) ->
   exists payload,
     ifm3d_to_ros_cloud image header logger
     = ([], Returns {| sensor_msgs.p_header := header;
                       sensor_msgs.p_height := ifm3d.height image;
                       sensor_msgs.p_width := ifm3d.width image;
                       sensor_msgs.fields :=
                         [ sensor_msgs.mkPointField "x" 0 sensor_msgs.PointField.FLOAT32 1;
                           sensor_msgs.mkPointField "y" 4 sensor_msgs.PointField.FLOAT32 1;
                           sensor_msgs.mkPointField "z" 8 sensor_msgs.PointField.FLOAT32 1 ];
                       sensor_msgs.p_is_bigendian := false;
                       sensor_msgs.point_step := 12;
                       sensor_msgs.row_step := 12 * ifm3d.width image;
                       sensor_msgs.p_data := payload;
                       sensor_msgs.is_dense := true |})
     /\ Z.of_nat (List.length payload) = 12 * ifm3d.width image * ifm3d.height image)
  /\ (ifm3d.dataFormat image <> FORMAT_32F3 -> ifm3d.dataFormat image <> FORMAT_32F ->
      ifm3d_to_ros_cloud image header logger
      = ([cloud_format_error], Returns (empty_cloud_record image header))).
Proof.
  intros Hne. split.
  - intros Hfmt Hw Hh Hrow Hall Hbuf.
    unfold ifm3d_to_ros_cloud. rewrite Hne.
    assert (Hcheck : negb (ifm3d.dataFormat image =? FORMAT_32F3)
                     && negb (ifm3d.dataFormat image =? FORMAT_32F) = false).
    { destruct Hfmt as [-> | ->]; reflexivity. }
    rewrite Hcheck. rewrite point_step_12.
    cbn [sensor_msgs.p_width sensor_msgs.p_height].
    rewrite (wrap32_small (12 * ifm3d.width image)) by lia.
    rewrite (wrap32_small (12 * ifm3d.width image * ifm3d.height image)) by nia.
    destruct (copy_bytes_in_range (ifm3d.bytes image)
                (12 * ifm3d.width image * ifm3d.height image)) as (payload & Hcopy & Hlen & _);
      [ nia | ].
    rewrite Hcopy. exists payload. split; [ reflexivity | exact Hlen ].
  - intros H3 H1. unfold ifm3d_to_ros_cloud. rewrite Hne.
    destruct (Z.eqb_spec (ifm3d.dataFormat image) FORMAT_32F3) as [E | _]; [ contradiction | ].
    destruct (Z.eqb_spec (ifm3d.dataFormat image) FORMAT_32F) as [E | _]; [ contradiction | ].
    reflexivity.
Qed.

Lemma ifm3d_to_ros_cloud_layout_witness :
  ifm3d.range_empty sample_32F3 = false
  /\ exists payload,
       ifm3d_to_ros_cloud sample_32F3 sample_header "camera"
       = ([], Returns {| sensor_msgs.p_header := sample_header;
                         sensor_msgs.p_height := 2;
                         sensor_msgs.p_width := 2;
                         sensor_msgs.fields :=
                           [ sensor_msgs.mkPointField "x" 0 sensor_msgs.PointField.FLOAT32 1;
                             sensor_msgs.mkPointField "y" 4 sensor_msgs.PointField.FLOAT32 1;
                             sensor_msgs.mkPointField "z" 8 sensor_msgs.PointField.FLOAT32 1 ];
                         sensor_msgs.p_is_bigendian := false;
                         sensor_msgs.point_step := 12;
                         sensor_msgs.row_step := 24;
                         sensor_msgs.p_data := payload;
                         sensor_msgs.is_dense := true |})
       /\ Z.of_nat (List.length payload) = 48.
Proof.
  split; [ reflexivity | ].
  apply (proj1 (ifm3d_to_ros_cloud_layout sample_32F3 sample_header "camera" eq_refl));
    cbn; solve [ left; reflexivity | lia ].
Defined.

Lemma wide_buffer_length : Z.of_nat (List.length wide_buffer) = 12 * 2 ^ 30.
Proof. unfold wide_buffer. rewrite repeat_length. apply Z2Nat.id. lia. Qed.

Lemma wide_buffer_nonempty : ifm3d.range_empty wide_32F3 = false.
Proof.
  unfold ifm3d.range_empty. cbn [ifm3d.bytes wide_32F3].
  pose proof wide_buffer_length as Hlen.
  destruct wide_buffer as [ | b rest ]; [ cbn in Hlen; lia | reflexivity ].
Qed.

Lemma ifm3d_to_ros_cloud_wraps image header logger :
  ifm3d.range_empty image = false ->
  ifm3d.dataFormat image = FORMAT_32F3 ->
  ifm3d.width image = 2 ^ 30 ->
  ifm3d.height image = 1 ->
  exists r,
    ifm3d_to_ros_cloud image header logger = ([], Returns r)
    /\ sensor_msgs.row_step r = 0
    /\ sensor_msgs.p_data r = [].
Proof.
  intros Hne Hfmt Hw Hh. unfold ifm3d_to_ros_cloud.
  rewrite Hne, Hfmt, Hw, Hh. rewrite point_step_12.
  change (negb (FORMAT_32F3 =? FORMAT_32F3) && negb (FORMAT_32F3 =? FORMAT_32F)) with false.
  cbv iota. cbn [sensor_msgs.p_width sensor_msgs.p_height].
  change (wrap32 (12 * 2 ^ 30)) with 0.
  change (wrap32 (0 * 1)) with 0.
  unfold copy_bytes.
  destruct (Z.leb_spec 0 (Z.of_nat (List.length (ifm3d.bytes image)))) as [_ | Hneg]; [ | lia ].
  eexists. split; [ reflexivity | ]. split; reflexivity.
Qed.

(** C3 fails as stated: on a well-formed non-empty 3-channel float
    source of width 2^30 and height 1 the 32-bit row step is 0, not
    12 * 2^30, and the payload is empty. *)
Lemma ifm3d_to_ros_cloud_row_step_counterexample :
  ifm3d.range_empty wide_32F3 = false
  /\ Z.of_nat (List.length (ifm3d.bytes wide_32F3))
     = 12 * ifm3d.width wide_32F3 * ifm3d.height wide_32F3
  /\ exists r,
       ifm3d_to_ros_cloud wide_32F3 sample_header "camera" = ([], Returns r)
       /\ sensor_msgs.row_step r <> 12 * ifm3d.width wide_32F3
       /\ Z.of_nat (List.length (sensor_msgs.p_data r))
          <> 12 * ifm3d.width wide_32F3 * ifm3d.height wide_32F3.
Proof.
  split; [ exact wide_buffer_nonempty | ].
  split; [ exact wide_buffer_length | ].
  destruct (ifm3d_to_ros_cloud_wraps wide_32F3 sample_header "camera"
              wide_buffer_nonempty eq_refl eq_refl eq_refl) as (r & Hr & Hrow & Hdata).
  exists r. split; [ exact Hr | ].
  rewrite Hrow, Hdata. split; discriminate.
Qed.

(** ** Empty sources *)

(** C7 (as amended).  For a source with a zero-length data range, planar
    conversion and cloud conversion log nothing and return the record
    with the given header, the source's dimensions and an empty payload,
    whatever the pixel-format tag and whatever [bitDepth] does.  The
    compressed conversion has no test for an empty source and its record
    has no dimensions: for a source of one of the two 8-bit formats whose
    width times height is zero it logs nothing and returns the header,
    the container format and an empty payload. *)
Theorem empty_source_conversions bitDepth image header format logger :
  ifm3d.range_empty image = true ->
  ifm3d_to_ros_image bitDepth image header logger
  = ([], Returns (empty_image_record image header))
  /\ ifm3d_to_ros_cloud image header logger
     = ([], Returns (empty_cloud_record image header))
  /\ (ifm3d.dataFormat image = FORMAT_8U \/ ifm3d.dataFormat image = FORMAT_8S ->
      wrap32 (ifm3d.width image * ifm3d.height image) = 0 ->
      ifm3d_to_ros_compressed_image image header format logger
      = ([], Returns {| sensor_msgs.c_header := header;
                        sensor_msgs.c_format := format;
                        sensor_msgs.c_data := [] |})).
Proof.
  intros Hempty. split; [ | split ].
  - unfold ifm3d_to_ros_image. rewrite Hempty. reflexivity.
  - unfold ifm3d_to_ros_cloud. rewrite Hempty. reflexivity.
  - intros Hfmt Hzero. unfold ifm3d_to_ros_compressed_image.
    assert (Hcheck : negb (ifm3d.dataFormat image =? FORMAT_8S)
                     && negb (ifm3d.dataFormat image =? FORMAT_8U) = false).
    { destruct Hfmt as [-> | ->]; reflexivity. }
    rewrite Hcheck, Hzero. unfold copy_bytes.
    destruct (Z.leb_spec 0 (Z.of_nat (List.length (ifm3d.bytes image)))) as [_ | Hneg]; [ | lia ].
    reflexivity.
Qed.

Lemma empty_source_conversions_witness :
  ifm3d_to_ros_image image_encodings_model.bitDepth ifm3d.empty_image sample_header "camera"
  = ([], Returns (empty_image_record ifm3d.empty_image sample_header))
  /\ ifm3d_to_ros_cloud ifm3d.empty_image sample_header "camera"
     = ([], Returns (empty_cloud_record ifm3d.empty_image sample_header))
  /\ (ifm3d.dataFormat ifm3d.empty_image = FORMAT_8U
      \/ ifm3d.dataFormat ifm3d.empty_image = FORMAT_8S ->
      wrap32 (ifm3d.width ifm3d.empty_image * ifm3d.height ifm3d.empty_image) = 0 ->
      ifm3d_to_ros_compressed_image ifm3d.empty_image sample_header "jpeg" "camera"
      = ([], Returns {| sensor_msgs.c_header := sample_header;
                        sensor_msgs.c_format := "jpeg";
                        sensor_msgs.c_data := [] |})).
Proof.
  apply (empty_source_conversions image_encodings_model.bitDepth ifm3d.empty_image
           sample_header "jpeg" "camera").
  reflexivity.
Defined.

(** C7 fails as stated: the compressed conversion of a zero-length
    source tagged 64-bit float takes the format-error path. *)
Lemma compressed_empty_source_counterexample :
  ifm3d.range_empty empty_64F = true
  /\ ifm3d_to_ros_compressed_image empty_64F sample_header "jpeg" "camera"
     = ([compressed_format_error],
        Returns {| sensor_msgs.c_header := sample_header;
                   sensor_msgs.c_format := "jpeg";
                   sensor_msgs.c_data := [] |}).
Proof. split; reflexivity. Qed.

(** * Properties of the session lifecycle *)

Lemma same_settings_refl a : same_settings a a.
Proof. repeat split. Qed.

Lemma same_settings_trans a b c :
  same_settings a b -> same_settings b c -> same_settings a c.
Proof.
  unfold same_settings. intros H1 H2.
  repeat match goal with H : _ /\ _ |- _ => destruct H end.
  repeat split; congruence.
Qed.

Lemma triple_built_present mask self : triple_built mask self -> triple_present self.
Proof. intros (Hc & Hf & Hi). unfold triple_present. rewrite Hc, Hf, Hi. repeat split; discriminate. Qed.

(** [InitStructures] in closed form, by the first construction that fails. *)
Lemma InitStructures_cases env mask port self :
  let '(tr, r, self') := InitStructures env mask port self in
  same_settings self self'
  /\ Forall (fun e => match e with Publish _ _ => False | _ => True end) tr
  /\ match MakeShared env, make_FrameGrabber env, make_StlImageBuffer env with
     | None, None, None => r = Returns true /\ triple_built mask self'
     | Some (ifm3d_error _ _), _, _
     | None, Some (ifm3d_error _ _), _
     | None, None, Some (ifm3d_error _ _) => r = Returns false /\ triple_absent self'
     | Some e, _, _ => r = Throws e /\ triple_absent self'
     | None, Some e, _ => r = Throws e /\ cam_ self' <> None /\ fg_ self' = None /\ im_ self' = None
     | None, None, Some e => r = Throws e /\ cam_ self' <> None /\ fg_ self' <> None /\ im_ self' = None
     end.
Proof.
  destruct env as [[[c1 w1 | w1 | ] | ] [[c2 w2 | w2 | ] | ] [[c3 w3 | w3 | ] | ]];
    cbn; (split; [ repeat split | split; [ repeat constructor | ] ]);
    repeat split; try reflexivity; try discriminate.
Qed.

(** C4 (as amended).  The nodelet starts with the triple all absent.
    Every call to [InitStructures] in which the collaborators fail, if
    at all, with an [ifm3d::error_t] returns: either [true] with session
    handle, frame grabber (bound to that handle and to the mask) and
    frame buffer all freshly built, or [false] with all three reset to
    null.  The call runs under the lock from its first step to its last,
    so these are the only states another thread can see: all present or
    all absent. *)
Theorem InitStructures_all_or_nothing env mask port self :
  only_ifm3d (MakeShared env) ->
  only_ifm3d (make_FrameGrabber env) ->
  only_ifm3d (make_StlImageBuffer env) ->
  (forall nn p, triple_absent (onInit nn p))
  /\ let '(tr, r, self') := InitStructures env mask port self in
     ((r = Returns true /\ triple_built mask self')
      \/ (r = Returns false /\ triple_absent self'))
     /\ triple_consistent self'.
Proof.
  intros H1 H2 H3. split; [ intros nn p; repeat split | ].
  pose proof (InitStructures_cases env mask port self) as Hc.
  destruct (InitStructures env mask port self) as [[tr r] self'].
  destruct Hc as (_ & _ & Hc).
  destruct (MakeShared env) as [[c1 w1 | w1 | ] | ]; try contradiction;
    destruct (make_FrameGrabber env) as [[c2 w2 | w2 | ] | ]; try contradiction;
    destruct (make_StlImageBuffer env) as [[c3 w3 | w3 | ] | ]; try contradiction;
    destruct Hc as (Hr & Ht);
    (split; [ (left; split; assumption) || (right; split; assumption) | ]);
    unfold triple_consistent;
    solve [ right; exact Ht | left; apply (triple_built_present mask); exact Ht ].
Qed.

Lemma InitStructures_all_or_nothing_witness :
  (forall nn p, triple_absent (onInit nn p))
  /\ let '(tr, r, self') := InitStructures init_unplugged ifm3d.IMG_UVEC 50010 sample_nodelet in
     ((r = Returns true /\ triple_built ifm3d.IMG_UVEC self')
      \/ (r = Returns false /\ triple_absent self'))
     /\ triple_consistent self'.
Proof.
  apply (InitStructures_all_or_nothing init_unplugged ifm3d.IMG_UVEC 50010 sample_nodelet);
    exact I.
Defined.

(** C4 fails as stated: when the frame grabber's construction throws
    something that is not an [ifm3d::error_t], [InitStructures] lets it
    through, with the session handle set and grabber and buffer null. *)
Lemma InitStructures_partial_counterexample :
  let env := {| MakeShared := None;
                make_FrameGrabber := Some (std_exception "std::bad_alloc");
                make_StlImageBuffer := None |} in
  let '(tr, r, self') := InitStructures env ifm3d.IMG_UVEC 50010 sample_nodelet in
  r = Throws (std_exception "std::bad_alloc")
  /\ cam_ self' <> None /\ fg_ self' = None /\ im_ self' = None
  /\ ~ triple_consistent self'.
Proof.
  cbn. repeat split; try discriminate.
  intros [(_ & H & _) | (H & _)]; [ apply H; reflexivity | discriminate H ].
Qed.

(** * Properties of the command handlers *)

(** C5 (as amended).  With the session standing, [Dump] and [Config]
    catch every failure and complete the call (return [true]) with
    status 0 on success, the device's code on a device error, -1 on a
    generic runtime error and -2 on an unknown failure; [Config] also
    reports the failure's message.  [Trigger] catches device errors only:
    it completes the call with the device's code as status, and any other
    exception leaves the handler.  [SoftOff] and [SoftOn] catch device
    errors only: on success they complete the call with status 0 and the
    applied JSON fragment, on a device error they put code and message in
    the response and return [false], and any other exception leaves the
    handler. *)
Theorem handlers_failure_policy self :
  cam_ self <> None -> fg_ self <> None ->
  (forall ToJSON res0,
      let '(tr, r, st) := Dump ToJSON (self, res0) in
      r = Returns true /\ srv.d_status (snd st) = status_of_answer ToJSON)
  /\ (forall FromJSON req res0,
         let '(tr, r, st) := Config FromJSON req (self, res0) in
         r = Returns true
         /\ srv.status (snd st) = status_of_answer (FromJSON req)
         /\ match FromJSON req with
            | inl _ => srv.msg (snd st) = "OK"
            | inr (ifm3d_error _ what) | inr (std_exception what) => srv.msg (snd st) = what
            | inr unknown_exception => srv.msg (snd st) = "Unknown error in `Config'"
            end)
  /\ (forall SWTrigger res0,
         let '(tr, r, st) := Trigger SWTrigger (self, res0) in
         match SWTrigger with
         | inl _ => r = Returns true /\ srv.status (snd st) = 0
         | inr (ifm3d_error code _) => r = Returns true /\ srv.status (snd st) = code
         | inr e => r = Throws e
         end)
  /\ (forall state FromJSONStr res0,
         let json := port_state_json (Z.rem (pcic_port_ self) 50010) state in
         let '(tr, r, st) := soft_switch state FromJSONStr (self, res0) in
         match FromJSONStr json with
         | inl _ => r = Returns true /\ srv.status (snd st) = 0 /\ srv.msg (snd st) = json
         | inr (ifm3d_error code what) =>
             r = Returns false /\ srv.status (snd st) = code /\ srv.msg (snd st) = what
         | inr e => r = Throws e
         end).
Proof.
  intros Hcam Hfg.
  destruct (cam_ self) as [c | ] eqn:Ec; [ clear Hcam | contradiction ].
  destruct (fg_ self) as [g | ] eqn:Eg; [ clear Hfg | contradiction ].
  split; [ | split; [ | split ] ].
  - intros ToJSON res0.
    unfold Dump, try_catch, sbind, deref, set_d_status, smodify, sget; cbn [fst snd].
    rewrite Ec. destruct ToJSON as [j | [code what | what | ]]; cbn; try (split; reflexivity).
    destruct (Z.eqb_spec code 0); cbn; split; reflexivity.
  - intros FromJSON req res0.
    unfold Config, try_catch, sbind, deref, set_status, set_msg, smodify, sget; cbn [fst snd].
    rewrite Ec. destruct (FromJSON req) as [j | [code what | what | ]]; cbn;
      try (repeat split; reflexivity).
    destruct (Z.eqb_spec code 0); cbn; repeat split; reflexivity.
  - intros SWTrigger res0.
    unfold Trigger, try_catch, sbind, deref, set_status, set_msg, smodify, sget; cbn [fst snd].
    rewrite Eg. destruct SWTrigger as [j | [code what | what | ]]; cbn; repeat split.
  - intros state FromJSONStr res0.
    unfold soft_switch, try_catch, sbind, deref, set_status, set_msg, on_self, smodify, sget;
      cbn [fst snd].
    rewrite Ec.
    destruct (FromJSONStr (port_state_json (Z.rem (pcic_port_ self) 50010) state))
      as [j | [code what | what | ]]; cbn; repeat split.
Qed.

Lemma handlers_failure_policy_witness :
  let '(tr, r, st) :=
    Config (fun _ => inr (std_exception "parse error")) "{" (streaming_nodelet, blank_response) in
  r = Returns true /\ srv.status (snd st) = -1 /\ srv.msg (snd st) = "parse error".
Proof.
  assert (Hcam : cam_ streaming_nodelet <> None) by (cbn; discriminate).
  assert (Hfg : fg_ streaming_nodelet <> None) by (cbn; discriminate).
  exact (proj1 (proj2 (handlers_failure_policy streaming_nodelet Hcam Hfg))
           (fun _ => inr (std_exception "parse error")) "{" blank_response).
Defined.

(** C5 fails as stated: on a device error [SoftOff] returns [false],
    which fails the service call, and a generic runtime error raised
    under [Trigger] is not caught at all. *)
Lemma handlers_counterexample :
  (let '(tr, r, st) :=
     SoftOff (fun _ => inr (ifm3d_error 100004 "device busy")) (streaming_nodelet, blank_response) in
   r = Returns false /\ srv.status (snd st) = 100004)
  /\ (let '(tr, r, st) :=
        Trigger (inr (std_exception "broken pipe")) (streaming_nodelet, blank_response) in
      r = Throws (std_exception "broken pipe")).
Proof. split; cbn; repeat split. Qed.

(** * Reasoning about stateful code: the rules of [triple] *)

Section TripleRules.

Context {S : Type}.
Variable Ev : event -> Prop.
Variable Inv : S -> Prop.

Lemma triple_weaken {A} (Pre Pre' : S -> Prop) (m : SM S A) (Post Post' : A -> S -> Prop) :
  triple Pre m Ev Inv Post ->
  (forall s, Pre' s -> Pre s) ->
  (forall a s, Post a s -> Post' a s) ->
  triple Pre' m Ev Inv Post'.
Proof.
  intros H Hpre Hpost s Hs. specialize (H s (Hpre s Hs)).
  destruct (m s) as [[tr r] s']. destruct H as (He & Hi & Hp).
  repeat split; auto.
Qed.

Lemma triple_ret {A} (Pre : S -> Prop) (a : A) (Post : A -> S -> Prop) :
  (forall s, Pre s -> Inv s /\ Post a s) ->
  triple Pre (sret a) Ev Inv Post.
Proof.
  intros H s Hs. cbn. destruct (H s Hs). repeat split; auto.
  intros b Hb. injection Hb as <-. assumption.
Qed.

Lemma triple_throw {A} (Pre : S -> Prop) (e : exn) (Post : A -> S -> Prop) :
  (forall s, Pre s -> Inv s) ->
  triple Pre (sthrow e) Ev Inv Post.
Proof. intros H s Hs. cbn. repeat split; auto. discriminate. Qed.

Lemma triple_undefined {A} (Pre : S -> Prop) (Post : A -> S -> Prop) :
  (forall s, Pre s -> Inv s) ->
  triple Pre sundefined Ev Inv Post.
Proof. intros H s Hs. cbn. repeat split; auto. discriminate. Qed.

Lemma triple_blocked {A} (Pre : S -> Prop) (Post : A -> S -> Prop) :
  (forall s, Pre s -> Inv s) ->
  triple Pre sblocked Ev Inv Post.
Proof. intros H s Hs. cbn. repeat split; auto. discriminate. Qed.

Lemma triple_emit (Pre : S -> Prop) (e : event) (Post : unit -> S -> Prop) :
  Ev e ->
  (forall s, Pre s -> Inv s /\ Post tt s) ->
  triple Pre (semit e) Ev Inv Post.
Proof.
  intros He H s Hs. cbn. destruct (H s Hs). repeat split; auto.
  intros [] _. assumption.
Qed.

Lemma triple_emit_from (Pre : S -> Prop) (e : event) (Post : unit -> S -> Prop) :
  (forall s, Pre s -> Ev e /\ Inv s /\ Post tt s) ->
  triple Pre (semit e) Ev Inv Post.
Proof.
  intros H s Hs. cbn. destruct (H s Hs) as (He & Hi & Hp). repeat split; auto.
  intros [] _. assumption.
Qed.

Lemma triple_with_local {L A} (init : L) (m : SM L A) (P : L -> Prop) :
  (forall e, not_publish e -> Ev e) ->
  (let '(tr, r, l) := m init in Forall not_publish tr /\ P l) ->
  triple Inv (with_local init m) Ev Inv (fun l s => Inv s /\ P l).
Proof.
  intros Hq H s Hs. unfold with_local.
  destruct (m init) as [[tr r] l]. destruct H as (Ht & Hp).
  assert (Forall Ev tr) by (eapply Forall_impl; [ exact Hq | exact Ht ]).
  destruct r; (split; [ assumption | split; [ assumption | ] ]); try discriminate.
  intros b Hb. injection Hb as <-. split; assumption.
Qed.

Lemma triple_get (Pre : S -> Prop) (Post : S -> S -> Prop) :
  (forall s, Pre s -> Inv s /\ Post s s) ->
  triple Pre sget Ev Inv Post.
Proof.
  intros H s Hs. cbn. destruct (H s Hs). repeat split; auto.
  intros b Hb. injection Hb as <-. assumption.
Qed.

Lemma triple_modify (Pre : S -> Prop) (f : S -> S) (Post : unit -> S -> Prop) :
  (forall s, Pre s -> Inv (f s) /\ Post tt (f s)) ->
  triple Pre (smodify f) Ev Inv Post.
Proof.
  intros H s Hs. cbn. destruct (H s Hs). repeat split; auto.
  intros [] _. assumption.
Qed.

Lemma triple_bind {A B} (Pre : S -> Prop) (m : SM S A) (k : A -> SM S B)
      (Mid : A -> S -> Prop) (Post : B -> S -> Prop) :
  triple Pre m Ev Inv Mid ->
  (forall a, triple (Mid a) (k a) Ev Inv Post) ->
  triple Pre (sbind m k) Ev Inv Post.
Proof.
  intros Hm Hk s Hs. unfold sbind. specialize (Hm s Hs).
  destruct (m s) as [[tr r] s']. destruct Hm as (He & Hi & Hp).
  destruct r as [a | e | | ]; try (repeat split; auto; discriminate).
  specialize (Hk a s' (Hp a eq_refl)).
  destruct (k a s') as [[tr' r'] s'']. destruct Hk as (He' & Hi' & Hp').
  repeat split; auto. apply Forall_app. split; assumption.
Qed.

Lemma triple_try_catch {A} (Pre : S -> Prop) (body : SM S A)
      (handler : exn -> option (SM S A)) (Post : A -> S -> Prop) :
  triple Pre body Ev Inv Post ->
  (forall e h, handler e = Some h -> triple Inv h Ev Inv Post) ->
  triple Pre (try_catch body handler) Ev Inv Post.
Proof.
  intros Hb Hh s Hs. unfold try_catch. specialize (Hb s Hs).
  destruct (body s) as [[tr r] s']. destruct Hb as (He & Hi & Hp).
  destruct r as [a | e | | ]; try (repeat split; auto; discriminate).
  destruct (handler e) as [h | ] eqn:Eh; [ | repeat split; auto; discriminate ].
  specialize (Hh e h Eh s' Hi).
  destruct (h s') as [[tr' r'] s'']. destruct Hh as (He' & Hi' & Hp').
  repeat split; auto. apply Forall_app. split; assumption.
Qed.

Lemma triple_lift {A} (Pre : S -> Prop) (m : M A) (Post : A -> S -> Prop) :
  Forall Ev (fst m) ->
  (forall s, Pre s -> Inv s /\ forall a, snd m = Returns a -> Post a s) ->
  triple Pre (lift m) Ev Inv Post.
Proof.
  intros He H s Hs. unfold lift. destruct (H s Hs). repeat split; auto.
Qed.

Lemma triple_call {A} (Pre : S -> Prop) (r : access A) (Post : A -> S -> Prop) :
  (forall s, Pre s -> Inv s /\ forall a, r = inl a -> Post a s) ->
  triple Pre (call r) Ev Inv Post.
Proof.
  intros H. destruct r as [a | e]; cbn.
  - apply triple_ret. intros s Hs. destruct (H s Hs). split; auto.
  - apply triple_throw. intros s Hs. destruct (H s Hs). assumption.
Qed.

Lemma triple_deref {A B} (Pre : S -> Prop) (p : option A) (k : A -> SM S B)
      (Post : B -> S -> Prop) :
  (forall s, Pre s -> Inv s) ->
  (forall a, p = Some a -> triple Pre (k a) Ev Inv Post) ->
  triple Pre (deref p k) Ev Inv Post.
Proof.
  intros Hi Hk. destruct p as [a | ]; cbn.
  - apply Hk. reflexivity.
  - apply triple_undefined. assumption.
Qed.

Lemma triple_when (Pre : S -> Prop) (b : bool) (m : SM S unit) (Post : unit -> S -> Prop) :
  (b = true -> triple Pre m Ev Inv Post) ->
  (forall s, Pre s -> Inv s /\ Post tt s) ->
  triple Pre (when b m) Ev Inv Post.
Proof.
  intros Hm Hskip. destruct b; cbn.
  - apply Hm. reflexivity.
  - apply triple_ret. assumption.
Qed.

(** Reading the state, then going on knowing it was in [Inv]. *)
Lemma triple_sget_then {B} (k : S -> SM S B) (Post : B -> S -> Prop) :
  (forall s0, Inv s0 -> triple (eq s0) (k s0) Ev Inv Post) ->
  triple Inv (sbind sget k) Ev Inv Post.
Proof.
  intros H s Hs. unfold sbind, sget. specialize (H s Hs s eq_refl).
  destruct (k s s) as [[tr r] s']. exact H.
Qed.

Lemma triple_from {A} (s0 : S) (m : SM S A) (Post : A -> S -> Prop) :
  Inv s0 ->
  triple Inv m Ev Inv Post ->
  triple (eq s0) m Ev Inv Post.
Proof. intros H0 H s <-. apply H. exact H0. Qed.

End TripleRules.

(** * Properties of the acquisition loop *)

Lemma steady_refl st : steady st st.
Proof. split; [ apply same_settings_refl | reflexivity ]. Qed.

Lemma AcquireFrame_cases wait self :
  let '(tr, r, self') := AcquireFrame wait self in
  same_settings self self' /\ Forall not_publish tr.
Proof.
  unfold AcquireFrame, try_catch, sbind, sget. cbn.
  destruct (fg_ self) as [g | ]; [ | cbn; split; [ apply same_settings_refl | constructor ] ].
  destruct (im_ self) as [b | ]; [ | cbn; split; [ apply same_settings_refl | constructor ] ].
  destruct wait as [[frame | ] | [code what | what | ]]; cbn;
    (split; [ repeat split | repeat constructor ]).
Qed.

Lemma InitStructures_quiet env mask port self :
  let '(tr, r, self') := InitStructures env mask port self in
  same_settings self self' /\ Forall not_publish tr.
Proof.
  pose proof (InitStructures_cases env mask port self) as H.
  destruct (InitStructures env mask port self) as [[tr r] self'].
  destruct H as (Hs & Hq & _). split; assumption.
Qed.

(** The threshold is a [float]: one of 0.1 s on the parameter server is
    a duration of 100000001 ns, where the double itself gives
    100000000 ns. *)
Example latency_threshold_is_a_float :
  let tenth := ieee.div (ieee.of_Z 1) (ieee.of_Z 10) in
  ros.Duration_fromSec (ieee.to_float tenth) = ret 100000001
  /\ ros.Duration_fromSec tenth = ret 100000000
  /\ ieee.to_float (ieee.of_Z 60) = ieee.of_Z 60.
Proof. vm_compute. repeat split. Qed.

Lemma Time_fromSec_quiet t : fst (ros.Time_fromSec t) = [].
Proof.
  unfold ros.Time_fromSec.
  repeat match goal with
         | |- context [match ?x with _ => _ end] => destruct x
         end; reflexivity.
Qed.

Lemma Duration_fromSec_quiet t : fst (ros.Duration_fromSec t) = [].
Proof.
  unfold ros.Duration_fromSec.
  repeat match goal with
         | |- context [match ?x with _ => _ end] => destruct x
         end; reflexivity.
Qed.

Section Quiet.

Variable bitDepth : string -> option Z.
Variable Ev : event -> Prop.
Variable Inv : RunState -> Prop.
Hypothesis Ev_quiet : forall e, not_publish e -> Ev e.
Hypothesis Inv_settled : settled Inv.

Lemma triple_with_self {A} (m : SM CameraNodelet A) :
  (forall self, let '(tr, r, self') := m self in
                same_settings self self' /\ Forall not_publish tr) ->
  triple Inv (with_self m) Ev Inv (fun _ st => Inv st).
Proof.
  intros Hm [self l] Hinv. unfold with_self. cbn [fst snd].
  specialize (Hm self). destruct (m self) as [[tr r] self']. destruct Hm as (Hs & Hq).
  assert (Hinv' : Inv (self', l)).
  { apply (Inv_settled (self, l)); [ split; [ exact Hs | reflexivity ] | exact Hinv ]. }
  repeat split; auto.
  eapply Forall_impl; [ | exact Hq ]. exact Ev_quiet.
Qed.

Lemma triple_on_locals (f : Locals -> Locals) :
  (forall l, got_uvec (f l) = got_uvec l) ->
  triple Inv (on_locals f) Ev Inv (fun _ st => Inv st).
Proof.
  intros Hf. apply triple_modify. intros [self l] Hinv. cbn [fst snd].
  assert (Inv (self, f l)); [ | split; assumption ].
  apply (Inv_settled (self, l)); [ | exact Hinv ].
  split; [ apply same_settings_refl | cbn; symmetry; apply Hf ].
Qed.

Lemma triple_log (s : severity) (text : string) :
  triple Inv (semit (Log s text)) Ev Inv (fun _ st => Inv st).
Proof. apply triple_emit; [ apply Ev_quiet; exact I | auto ]. Qed.

Lemma triple_sleep : triple Inv (semit Sleep) Ev Inv (fun _ st => Inv st).
Proof. apply triple_emit; [ apply Ev_quiet; exact I | auto ]. Qed.

Lemma retry_InitStructures_quiet envs mask warning :
  triple Inv (retry_InitStructures envs mask warning) Ev Inv (fun _ st => Inv st).
Proof.
  induction envs as [ | env rest IH ]; cbn [retry_InitStructures].
  - apply triple_blocked. auto.
  - eapply triple_bind; [ apply triple_get with (Post := fun _ st => Inv st); auto | ].
    intros st0.
    eapply triple_bind; [ apply triple_with_self; intros self; apply InitStructures_quiet | ].
    intros [ | ].
    + apply triple_ret. auto.
    + eapply triple_bind; [ apply triple_log | intros ? ].
      eapply triple_bind; [ apply triple_sleep | intros ? ].
      exact IH.
Qed.

Lemma startup_quiet envs :
  triple Inv (startup envs) Ev Inv (fun _ st => Inv st).
Proof.
  induction envs as [ | env rest IH ]; cbn [startup].
  - apply triple_ret. auto.
  - eapply triple_bind; [ apply triple_get with (Post := fun _ st => Inv st); auto | ].
    intros st0.
    eapply triple_bind; [ apply triple_with_self; intros self; apply InitStructures_quiet | ].
    intros [ | ].
    + apply triple_ret. auto.
    + eapply triple_bind; [ apply triple_log | intros ? ].
      eapply triple_bind; [ apply triple_sleep | intros ? ].
      exact IH.
Qed.

Lemma on_timeout_quiet c :
  triple Inv (on_timeout c) Ev Inv (fun _ st => Inv st).
Proof.
  unfold on_timeout.
  eapply triple_bind; [ apply triple_get with (Post := fun _ st => Inv st); auto | ].
  intros st0.
  eapply triple_bind.
  { destruct (negb (assume_sw_triggered_ (self_of st0))); [ apply triple_log | apply triple_sleep ]. }
  intros ?.
  eapply triple_bind;
    [ apply triple_call with (Post := fun _ st => Inv st); auto | intros elapsed ].
  destruct (ieee.gt _ _).
  - eapply triple_bind; [ apply triple_log | intros ? ].
    eapply triple_bind; [ apply retry_InitStructures_quiet | intros ? ].
    apply triple_on_locals. reflexivity.
  - apply triple_ret. auto.
Qed.

Lemma pull_images_quiet :
  triple Inv pull_images Ev Inv (fun _ st => Inv st).
Proof.
  unfold pull_images.
  apply triple_try_catch.
  - eapply triple_bind; [ apply triple_get with (Post := fun _ st => Inv st); auto | ].
    intros st0. apply triple_deref; [ auto | intros im _ ].
    repeat (eapply triple_bind;
            [ apply triple_call with (Post := fun _ st => Inv st); auto | intros ? ];
            try (eapply triple_bind; [ apply triple_on_locals; reflexivity | intros ? ])).
    apply triple_on_locals. reflexivity.
  - intros e h Hh.
    destruct e as [code what | what | ]; try discriminate;
      injection Hh as <-; apply triple_log.
Qed.

End Quiet.

(** ** Headers of the published messages *)

Lemma ifm3d_to_ros_image_header bitDepth image header logger :
  Forall not_publish (fst (ifm3d_to_ros_image bitDepth image header logger))
  /\ forall r, snd (ifm3d_to_ros_image bitDepth image header logger) = Returns r ->
               sensor_msgs.header r = header.
Proof.
  unfold ifm3d_to_ros_image.
  destruct (ifm3d.range_empty image);
    [ cbn; split; [ constructor | intros r H; injection H as <-; reflexivity ] | ].
  destruct (_ >=? _);
    [ cbn; split; [ repeat constructor | intros r H; injection H as <-; reflexivity ] | ].
  unfold array_at.
  destruct (nth_error _ _) as [enc | ]; [ | cbn; split; [ constructor | discriminate ] ].
  cbn [bind ret fst snd app]. unfold bitDepth_call.
  destruct (bitDepth enc) as [bits | ]; [ | cbn; split; [ constructor | discriminate ] ].
  cbn [bind ret fst snd app]. unfold copy_bytes.
  match goal with |- context [if ?c then _ else _] => destruct c end;
    [ | cbn; split; [ constructor | discriminate ] ].
  cbn [bind ret fst snd app sensor_msgs.encoding].
  destruct (string_empty enc); cbn;
    (split; [ repeat constructor | intros r H; injection H as <-; reflexivity ]).
Qed.

Lemma ifm3d_to_ros_cloud_header image header logger :
  Forall not_publish (fst (ifm3d_to_ros_cloud image header logger))
  /\ forall r, snd (ifm3d_to_ros_cloud image header logger) = Returns r ->
               sensor_msgs.p_header r = header.
Proof.
  unfold ifm3d_to_ros_cloud.
  destruct (ifm3d.range_empty image);
    [ cbn; split; [ constructor | intros r H; injection H as <-; reflexivity ] | ].
  destruct (_ && _);
    [ cbn; split; [ repeat constructor | intros r H; injection H as <-; reflexivity ] | ].
  unfold copy_bytes.
  match goal with |- context [if ?c then _ else _] => destruct c end;
    cbn; (split; [ repeat constructor | ]);
    [ intros r H; injection H as <-; reflexivity | discriminate ].
Qed.

Lemma ifm3d_to_ros_compressed_image_header image header format logger :
  Forall not_publish (fst (ifm3d_to_ros_compressed_image image header format logger))
  /\ forall r, snd (ifm3d_to_ros_compressed_image image header format logger) = Returns r ->
               sensor_msgs.c_header r = header.
Proof.
  unfold ifm3d_to_ros_compressed_image.
  destruct (_ && _);
    [ cbn; split; [ repeat constructor | intros r H; injection H as <-; reflexivity ] | ].
  unfold copy_bytes.
  match goal with |- context [if ?c then _ else _] => destruct c end;
    cbn; (split; [ repeat constructor | ]);
    [ intros r H; injection H as <-; reflexivity | discriminate ].
Qed.

Lemma fill_extrinsics_header v m0 :
  let '(tr, r, m) := fill_extrinsics v m0 in
  ifm3d_ros_msgs.e_header m = ifm3d_ros_msgs.e_header m0 /\ Forall not_publish tr.
Proof.
  destruct v as [ | a [ | b [ | c [ | d [ | e [ | f rest ] ] ] ] ] ]; cbn;
    (split; [ reflexivity | repeat constructor ]).
Qed.

Section Publishing.

Variable bitDepth : string -> option Z.
Variable Ev : event -> Prop.
Variable Inv : RunState -> Prop.
Variables head optical_head : std_msgs.Header.
Hypothesis Ev_quiet : forall e, not_publish e -> Ev e.
Hypothesis Inv_settled : settled Inv.

Hypothesis Ev_streaming :
  forall t m, t <> uvec_pub_ -> header_of m = header_for head optical_head t -> Ev (Publish t m).

Lemma publish_image_allowed t v :
  t <> uvec_pub_ -> t <> cloud_pub_ ->
  triple Inv (publish_image bitDepth t v optical_head) Ev Inv (fun _ st => Inv st).
Proof.
  intros Hu Hc. unfold publish_image.
  eapply triple_bind; [ apply triple_get with (Post := fun _ st => Inv st); auto | ].
  intros st0.
  destruct (ifm3d_to_ros_image_header bitDepth (images (locals_of st0) v) optical_head
              (getName (self_of st0))) as (Hq & Hh).
  eapply triple_bind.
  { apply triple_lift
      with (Post := fun m st => Inv st /\ sensor_msgs.header m = optical_head).
    - eapply Forall_impl; [ exact Ev_quiet | exact Hq ].
    - intros s Hs. split; [ exact Hs | ]. intros r0 Hr0. split; [ exact Hs | apply Hh; exact Hr0 ]. }
  intros m. apply triple_emit_from. intros s [Hs Hm].
  split; [ | split; assumption ].
  apply Ev_streaming; [ exact Hu | ].
  cbn [header_of]. rewrite Hm. destruct t; try reflexivity. contradiction.
Qed.

Lemma publish_all_allowed :
  triple Inv (publish_all bitDepth head optical_head) Ev Inv (fun _ st => Inv st).
Proof.
  unfold publish_all.
  eapply triple_bind; [ apply triple_get with (Post := fun _ st => Inv st); auto | ].
  intros st0.
  eapply triple_bind; [ apply publish_image_allowed; discriminate | intros ? ].
  apply triple_bind with (Mid := fun _ st => Inv st).
  { apply triple_when; [ intros _ | auto ].
    destruct (ifm3d_to_ros_cloud_header (images (locals_of st0) xyz_img) head
                (getName (self_of st0))) as (Hq & Hh).
    eapply triple_bind.
    { apply triple_lift
        with (Post := fun m st => Inv st /\ sensor_msgs.p_header m = head).
      - eapply Forall_impl; [ exact Ev_quiet | exact Hq ].
      - intros s Hs. split; [ exact Hs | ]. intros r0 Hr0. split; [ exact Hs | apply Hh; exact Hr0 ]. }
    intros m. apply triple_emit_from. intros s [Hs Hm].
    split; [ | split; assumption ].
    apply Ev_streaming; [ discriminate | exact Hm ]. }
  intros ?.
  do 5 (eapply triple_bind;
        [ apply triple_when; [ intros _; apply publish_image_allowed; discriminate | auto ]
        | intros ? ]).
  apply triple_bind with (Mid := fun _ st => Inv st).
  { apply triple_when; [ intros _ | auto ].
    destruct (ifm3d_to_ros_compressed_image_header (images (locals_of st0) rgb_img)
                optical_head "jpeg" (getName (self_of st0))) as (Hq & Hh).
    eapply triple_bind.
    { apply triple_lift
        with (Post := fun m st => Inv st /\ sensor_msgs.c_header m = optical_head).
      - eapply Forall_impl; [ exact Ev_quiet | exact Hq ].
      - intros s Hs. split; [ exact Hs | ]. intros r0 Hr0. split; [ exact Hs | apply Hh; exact Hr0 ]. }
    intros m. apply triple_emit_from. intros s [Hs Hm].
    split; [ | split; assumption ].
    apply Ev_streaming; [ discriminate | exact Hm ]. }
  intros ?.
  eapply triple_bind.
  { apply triple_with_local
      with (P := fun m => ifm3d_ros_msgs.e_header m = optical_head).
    - exact Ev_quiet.
    - pose proof (fill_extrinsics_header (extrinsics (locals_of st0))
                    (ifm3d_ros_msgs.mkExtrinsics optical_head 0 0 0 0 0 0)) as H.
      destruct (fill_extrinsics _ _) as [[tr r] m]. destruct H as (Hh & Hq).
      split; [ exact Hq | exact Hh ]. }
  intros m. apply triple_emit_from. intros s [Hs Hm].
  split; [ | split; assumption ].
  apply Ev_streaming; [ discriminate | exact Hm ].
Qed.

End Publishing.

Section Headers.

Variable bitDepth : string -> option Z.
Variable Ev : event -> Prop.
Variable Inv : RunState -> Prop.
Hypothesis Ev_quiet : forall e, not_publish e -> Ev e.
Hypothesis Inv_settled : settled Inv.

Lemma prepare_header_spec c :
  triple Inv (prepare_header c) Ev Inv
         (fun heads st => Inv st /\ exists st0, Inv st0 /\ heads_of st0 heads).
Proof.
  unfold prepare_header. apply triple_sget_then. intros st0 Hst0.
  apply triple_from; [ exact Hst0 | ].
  apply triple_deref; [ auto | intros im _ ].
  eapply triple_bind with (Mid := fun _ st => Inv st).
  { apply triple_lift; [ rewrite Time_fromSec_quiet; constructor | auto ]. }
  intros device_stamp.
  eapply triple_bind;
    [ apply triple_call with (Post := fun _ st => Inv st); auto | intros elapsed ].
  eapply triple_bind with (Mid := fun _ st => Inv st).
  { apply triple_lift; [ rewrite Duration_fromSec_quiet; constructor | auto ]. }
  intros thresh.
  eapply triple_bind with (Mid := fun _ st => Inv st).
  - destruct (_ >? _).
    + eapply triple_bind with (Mid := fun _ st => Inv st).
      * apply triple_when; [ intros _ | auto ].
        eapply triple_bind; [ apply triple_log; assumption | intros ? ].
        apply triple_on_locals; [ assumption | reflexivity ].
      * intros ?. apply triple_ret. auto.
    + apply triple_ret. auto.
  - intros stamp. apply triple_ret. intros s Hs.
    split; [ exact Hs | split; [ exact Hs | ] ].
    exists st0. split; [ exact Hst0 | repeat split ].
Qed.

End Headers.

Lemma cycle_unfold bitDepth c :
  cycle bitDepth c
  = sbind (with_self (AcquireFrame (wait c))) (fun acquired =>
      if negb acquired then on_timeout c
      else sbind (assign_last_frame (now_after_wait c)) (fun _ =>
             sbind (prepare_header c) (fun heads => cycle_rest bitDepth c heads))).
Proof. reflexivity. Qed.

Section Framing.

Variable bitDepth : string -> option Z.
Variables fid ofid : string.








End Framing.






(** ** The stamp of a cycle *)

Lemma prepare_header_eq c self l im device_stamp elapsed thresh :
  im_ self = Some im ->
  header_ready c self im device_stamp elapsed thresh ->
  prepare_header c (self, l)
  = if elapsed >? thresh
    then (if info_once_done l then [] else [sync_notice],
          Returns (heads_with self (now_substitute c)),
          (self, if info_once_done l then l else mark_info_once l))
    else ([], Returns (heads_with self device_stamp), (self, l)).
Proof.
  intros Him (H1 & H2 & H3).
  unfold prepare_header, sbind, sget, deref, lift, call. cbn [self_of locals_of fst snd].
  rewrite Him, H1. cbn [ret fst snd]. rewrite H2. cbn [sret]. rewrite H3. cbn [ret fst snd].
  destruct (_ >? _); [ | reflexivity ].
  destruct (info_once_done l); reflexivity.
Qed.


Lemma AcquireFrame_frame self l g b frame :
  fg_ self = Some g -> im_ self = Some b ->
  with_self (AcquireFrame (inl (Some frame))) (self, l)
  = ([], Returns true, (set_im_ (Some frame) self, l)).
Proof.
  intros Hg Hb. unfold with_self, AcquireFrame, try_catch, sbind, sget. cbn [fst snd].
  rewrite Hg, Hb. reflexivity.
Qed.


(** ** The stamp on a sample cycle *)



(** ** Recovery after a stale timeout *)

Lemma count_attempts_app a b : count_attempts (a ++ b) = (count_attempts a + count_attempts b)%nat.
Proof. unfold count_attempts. rewrite filter_app, length_app. reflexivity. Qed.

Lemma topics_of_app a b : topics_of (a ++ b) = topics_of a ++ topics_of b.
Proof. unfold topics_of. apply flat_map_app. Qed.

Lemma topics_of_quiet tr : Forall not_publish tr -> topics_of tr = [].
Proof.
  induction 1 as [ | e tr He _ IH ]; [ reflexivity | ].
  destruct e; cbn in *; try contradiction; exact IH.
Qed.

Lemma InitStructures_fails env mask port self :
  init_fails env ->
  exists tr self',
    InitStructures env mask port self = (tr, Returns false, self')
    /\ same_settings self self' /\ triple_absent self'
    /\ Forall not_publish tr /\ count_attempts tr = 1%nat.
Proof.
  destruct env as [[[c1 w1 | w1 | ] | ] [[c2 w2 | w2 | ] | ] [[c3 w3 | w3 | ] | ]];
    cbn; intros H; try contradiction;
    (eexists; eexists; split; [ reflexivity | ]);
    (split; [ repeat split | split; [ repeat split | split; [ repeat constructor | reflexivity ] ] ]).
Qed.

Lemma InitStructures_succeeds env mask port self :
  init_succeeds env ->
  exists tr self',
    InitStructures env mask port self = (tr, Returns true, self')
    /\ same_settings self self' /\ triple_built mask self'
    /\ Forall not_publish tr /\ count_attempts tr = 1%nat.
Proof.
  destruct env as [m f b]. intros (H1 & H2 & H3). cbn in H1, H2, H3. subst.
  eexists; eexists; split; [ reflexivity | ].
  split; [ repeat split | split; [ repeat split | split; [ repeat constructor | reflexivity ] ] ].
Qed.

(** The retry loop ends right after the first attempt that succeeds. *)
Lemma retry_InitStructures_until_success fails ok rest mask warning l :
  Forall init_fails fails -> init_succeeds ok ->
  forall self m,
    (forall self', same_settings self self' -> mask (self', l) = m) ->
    exists tr self',
      retry_InitStructures (fails ++ ok :: rest) mask warning (self, l)
      = (tr, Returns tt, (self', l))
      /\ same_settings self self' /\ triple_built m self'
      /\ Forall not_publish tr
      /\ count_attempts tr = S (List.length fails).
Proof.
  intros Hfails Hok. induction Hfails as [ | env fails Hf _ IH ]; intros self m Hmask.
  - cbn [app retry_InitStructures]. unfold sbind at 1. cbn [sget].
    unfold sbind at 1. unfold with_self. cbn [fst snd self_of].
    destruct (InitStructures_succeeds ok (mask (self, l)) (pcic_port_ self) self Hok)
      as (tr & self' & Hrun & Hs & Hb & Hq & Hc).
    rewrite Hrun. cbn [sret fst snd]. exists tr, self'. rewrite app_nil_r.
    rewrite (Hmask self (same_settings_refl self)) in Hb.
    split; [ reflexivity | ]. split; [ exact Hs | ]. split; [ exact Hb | ].
    split; [ exact Hq | exact Hc ].
  - cbn [app retry_InitStructures]. unfold sbind at 1. cbn [sget].
    unfold sbind at 1. unfold with_self. cbn [fst snd self_of].
    destruct (InitStructures_fails env (mask (self, l)) (pcic_port_ self) self Hf)
      as (tr & self1 & Hrun & Hs & _ & Hq & Hc).
    rewrite Hrun. cbn [fst snd].
    destruct (IH self1 m) as (tr' & self' & Hrun' & Hs' & Hb' & Hq' & Hc').
    { intros self' Hs2. apply Hmask. eapply same_settings_trans; eassumption. }
    unfold sbind. cbn [semit]. rewrite Hrun'.
    exists (tr ++ [Log WARN warning] ++ [Sleep] ++ tr'), self'.
    split; [ rewrite app_nil_l; reflexivity | ].
    split; [ eapply same_settings_trans; eassumption | ].
    split; [ exact Hb' | ].
    split.
    + apply Forall_app. split; [ exact Hq | ].
      constructor; [ exact I | ]. constructor; [ exact I | exact Hq' ].
    + rewrite count_attempts_app, Hc. cbn [app]. unfold count_attempts in *.
      cbn [filter is_attempt List.length]. rewrite Hc'. reflexivity.
Qed.

Lemma AcquireFrame_fails w self l g b :
  fg_ self = Some g -> im_ self = Some b -> wait_fails w ->
  exists tr,
    with_self (AcquireFrame w) (self, l) = (tr, Returns false, (self, l))
    /\ Forall not_publish tr /\ count_attempts tr = 0%nat.
Proof.
  intros Hg Hb Hw. unfold with_self, AcquireFrame, try_catch, sbind, sget. cbn [fst snd].
  rewrite Hg, Hb.
  destruct w as [[frame | ] | [code what | what | ]]; try contradiction; cbn;
    eexists; (split; [ reflexivity | split; [ repeat constructor | reflexivity ] ]).
Qed.

(** [AcquireFrame] answers [false] on a timeout and on a device error,
    with a grabber and a buffer in place, and in no other case; it then
    leaves the nodelet as it was. *)
Lemma AcquireFrame_false w self :
  snd (fst (AcquireFrame w self)) = Returns false ->
  fg_ self <> None /\ im_ self <> None /\ wait_fails w
  /\ forall l, exists tr,
       with_self (AcquireFrame w) (self, l) = (tr, Returns false, (self, l))
       /\ Forall not_publish tr /\ count_attempts tr = 0%nat.
Proof.
  intros H.
  assert (Hparts : exists g b, fg_ self = Some g /\ im_ self = Some b /\ wait_fails w).
  { revert H. unfold AcquireFrame, try_catch, sbind, sget. cbn [fst snd].
    destruct (fg_ self) as [g | ]; [ | discriminate ].
    destruct (im_ self) as [b | ]; [ | discriminate ].
    destruct w as [[frame | ] | [code what | what | ]]; cbn; try discriminate;
      intros _; exists g, b; repeat split. }
  destruct Hparts as (g & b & Hg & Hb & Hw).
  split; [ rewrite Hg; discriminate | ]. split; [ rewrite Hb; discriminate | ].
  split; [ exact Hw | ].
  intros l. exact (AcquireFrame_fails w self l g b Hg Hb Hw).
Qed.

Lemma InitStructures_throws env mask port self e :
  init_throws env e ->
  exists tr self',
    InitStructures env mask port self = (tr, Throws e, self')
    /\ same_settings self self'
    /\ Forall not_publish tr /\ count_attempts tr = 1%nat.
Proof.
  destruct env as [[x1 | ] [x2 | ] [x3 | ]]; intros [He Hx]; cbn in Hx;
    try contradiction; subst;
    destruct e as [code what | what | ]; try contradiction; cbn;
    (eexists; eexists; split; [ reflexivity | ]);
    (split; [ repeat split | split; [ repeat constructor | reflexivity ] ]).
Qed.

(** The retry loop has no handler of its own: an attempt that throws
    ends it. *)
Lemma retry_InitStructures_throws fails bad rest mask warning l e :
  Forall init_fails fails -> init_throws bad e ->
  forall self,
    exists tr self',
      retry_InitStructures (fails ++ bad :: rest) mask warning (self, l)
      = (tr, Throws e, (self', l))
      /\ same_settings self self'
      /\ Forall not_publish tr
      /\ count_attempts tr = S (List.length fails).
Proof.
  intros Hfails Hbad. induction Hfails as [ | env fails Hf _ IH ]; intros self.
  - cbn [app retry_InitStructures]. unfold sbind at 1. cbn [sget].
    unfold sbind at 1. unfold with_self. cbn [fst snd self_of].
    destruct (InitStructures_throws bad (mask (self, l)) (pcic_port_ self) self e Hbad)
      as (tr & self' & Hrun & Hs & Hq & Hc).
    rewrite Hrun. exists tr, self'.
    split; [ reflexivity | ]. split; [ exact Hs | ]. split; [ exact Hq | exact Hc ].
  - cbn [app retry_InitStructures]. unfold sbind at 1. cbn [sget].
    unfold sbind at 1. unfold with_self. cbn [fst snd self_of].
    destruct (InitStructures_fails env (mask (self, l)) (pcic_port_ self) self Hf)
      as (tr & self1 & Hrun & Hs & _ & Hq & Hc).
    rewrite Hrun. cbn [fst snd].
    destruct (IH self1) as (tr' & self' & Hrun' & Hs' & Hq' & Hc').
    unfold sbind. cbn [semit]. rewrite Hrun'.
    exists (tr ++ [Log WARN warning] ++ [Sleep] ++ tr'), self'.
    split; [ rewrite app_nil_l; reflexivity | ].
    split; [ eapply same_settings_trans; eassumption | ].
    split.
    + apply Forall_app. split; [ exact Hq | ].
      constructor; [ exact I | ]. constructor; [ exact I | exact Hq' ].
    + rewrite count_attempts_app, Hc. cbn [app]. unfold count_attempts in *.
      cbn [filter is_attempt List.length]. rewrite Hc'. reflexivity.
Qed.

(** C8 (as amended).  When [AcquireFrame] answers [false] (the wait
    timed out or failed on a device error) and the time elapsed on the
    last-success clock, taken as the double [sec + 1e-9 * nsec],
    compares greater than the active staleness tolerance, the cycle does
    nothing before the restart but report the timeout, and then calls
    [InitStructures], with the unit-vector mask if the unit vectors have
    not been fetched and with the user's schema mask otherwise, again
    after every attempt that fails on a device error.  When an attempt
    succeeds, the cycle ends with the session triple built for that
    mask, the last-success clock reset to the current time, the bootstrap
    flag and the settings unchanged, and nothing published.  When an
    attempt throws anything else than a device error, the exception
    leaves the cycle: no further attempt is made, the clock is not reset,
    nothing is published. *)
Theorem stale_timeout_recovers bitDepth c self l elapsed :
  snd (fst (AcquireFrame (wait c) self)) = Returns false ->
  ros.Time_minus (now_after_wait c) (last_frame l) = inl elapsed ->
  ieee.gt (ros.Duration_toSec elapsed) (timeout_tolerance_secs_ self) = true ->
  (forall fails ok rest,
      reinit c = fails ++ ok :: rest ->
      Forall init_fails fails ->
      init_succeeds ok ->
      exists pre tr_retry self',
        cycle bitDepth c (self, l)
        = (pre ++ restart_notice :: tr_retry, Returns tt,
           (self', with_last_frame (now_after_reinit c) l))
        /\ count_attempts pre = 0%nat
        /\ count_attempts tr_retry = S (List.length fails)
        /\ triple_built (if got_uvec l then schema_mask_ self else ifm3d.IMG_UVEC) self'
        /\ same_settings self self'
        /\ topics_of (pre ++ restart_notice :: tr_retry) = [])
  /\ (forall fails bad rest e,
         reinit c = fails ++ bad :: rest ->
         Forall init_fails fails ->
         init_throws bad e ->
         exists pre tr_retry self',
           cycle bitDepth c (self, l)
           = (pre ++ restart_notice :: tr_retry, Throws e, (self', l))
           /\ count_attempts pre = 0%nat
           /\ count_attempts tr_retry = S (List.length fails)
           /\ same_settings self self'
           /\ topics_of (pre ++ restart_notice :: tr_retry) = []).
Proof.
  intros Hfalse Helapsed Hstale.
  destruct (AcquireFrame_false (wait c) self Hfalse) as (_ & _ & _ & Hacq).
  destruct (Hacq l) as (tr1 & Hrun1 & Hq1 & Hc1).
  assert (Hpre : count_attempts (tr1 ++ [timeout_notice self]) = 0%nat
                 /\ Forall not_publish (tr1 ++ [timeout_notice self])).
  { split.
    - rewrite count_attempts_app, Hc1. unfold timeout_notice.
      destruct (negb (assume_sw_triggered_ self)); reflexivity.
    - apply Forall_app. split; [ exact Hq1 | ].
      unfold timeout_notice. destruct (negb (assume_sw_triggered_ self)); repeat constructor. }
  destruct Hpre as (Hpre_c & Hpre_q).
  split.
  - intros fails ok rest Hre Hfails Hok.
    rewrite cycle_unfold. unfold sbind at 1. rewrite Hrun1. cbn [negb].
    unfold on_timeout. unfold sbind at 1. cbn [sget fst snd self_of locals_of].
    destruct (retry_InitStructures_until_success fails ok rest recovery_mask
                "Could not re-initialize pixel stream!" l Hfails Hok self
                (if got_uvec l then schema_mask_ self else ifm3d.IMG_UVEC))
      as (tr_retry & self' & Hrun & Hs & Hbuilt & Hq & Hc).
    { intros self1 Hs1. unfold recovery_mask. cbn [locals_of self_of fst snd].
      destruct (got_uvec l); [ | reflexivity ].
      symmetry. apply Hs1. }
    exists (tr1 ++ [timeout_notice self]), tr_retry, self'.
    split.
    + unfold sbind, call. rewrite Helapsed. cbn [sret]. rewrite Hstale, Hre.
      unfold timeout_notice.
      destruct (negb (assume_sw_triggered_ self)); cbn [semit];
        rewrite Hrun; cbn [assign_last_frame on_locals smodify fst snd];
        unfold with_last_frame, restart_notice; rewrite ?app_nil_r, <- ?app_assoc; reflexivity.
    + split; [ exact Hpre_c | ].
      split; [ exact Hc | ]. split; [ exact Hbuilt | ]. split; [ exact Hs | ].
      apply topics_of_quiet. apply Forall_app. split; [ exact Hpre_q | ].
      constructor; [ exact I | exact Hq ].
  - intros fails bad rest e Hre Hfails Hbad.
    rewrite cycle_unfold. unfold sbind at 1. rewrite Hrun1. cbn [negb].
    unfold on_timeout. unfold sbind at 1. cbn [sget fst snd self_of locals_of].
    destruct (retry_InitStructures_throws fails bad rest recovery_mask
                "Could not re-initialize pixel stream!" l e Hfails Hbad self)
      as (tr_retry & self' & Hrun & Hs & Hq & Hc).
    exists (tr1 ++ [timeout_notice self]), tr_retry, self'.
    split.
    + unfold sbind, call. rewrite Helapsed. cbn [sret]. rewrite Hstale, Hre.
      unfold timeout_notice.
      destruct (negb (assume_sw_triggered_ self)); cbn [semit];
        rewrite Hrun; unfold restart_notice; rewrite ?app_nil_r, <- ?app_assoc; reflexivity.
    + split; [ exact Hpre_c | ].
      split; [ exact Hc | ]. split; [ exact Hs | ].
      apply topics_of_quiet. apply Forall_app. split; [ exact Hpre_q | ].
      constructor; [ exact I | exact Hq ].
Qed.

Lemma stale_timeout_recovers_witness :
  exists pre tr_retry self',
    cycle image_encodings_model.bitDepth (timeout_cycle (seconds 6) [init_unplugged; init_ok])
          (streaming_nodelet, streaming_locals)
    = (pre ++ restart_notice :: tr_retry, Returns tt,
       (self', with_last_frame (seconds 6 + 2) streaming_locals))
    /\ count_attempts pre = 0%nat
    /\ count_attempts tr_retry = 2%nat
    /\ triple_built (schema_mask_ streaming_nodelet) self'
    /\ same_settings streaming_nodelet self'
    /\ topics_of (pre ++ restart_notice :: tr_retry) = [].
Proof.
  refine (proj1 (stale_timeout_recovers image_encodings_model.bitDepth
                   (timeout_cycle (seconds 6) [init_unplugged; init_ok])
                   streaming_nodelet streaming_locals (seconds 6) _ _ _)
            [init_unplugged] init_ok [] _ _ _).
  - reflexivity.
  - reflexivity.
  - vm_compute. reflexivity.
  - reflexivity.
  - constructor; [ exact I | constructor ].
  - repeat split.
Defined.

(** C8 fails as stated, in two ways.  The staleness test is made on
    doubles: with a tolerance of 2^24 s and a last frame 2^24 s and one
    nanosecond ago, the elapsed time exceeds the tolerance, but as a
    double it equals it, and the cycle only reports the timeout.  And the
    retries do not go on until success: when the frame grabber cannot be
    allocated during the restart, the exception leaves the cycle after
    that one attempt, with the clock not reset and the session half
    built. *)
Lemma stale_timeout_counterexample :
  (let c := timeout_cycle (seconds (2 ^ 24) + 1) [init_ok] in
   ieee.exceeds (now_after_wait c - last_frame streaming_locals)
                (timeout_tolerance_secs_ patient_nodelet) = true
   /\ cycle image_encodings_model.bitDepth c (patient_nodelet, streaming_locals)
      = ([Log WARN "Timeout waiting for camera!"], Returns tt,
         (patient_nodelet, streaming_locals)))
  /\ (let c := timeout_cycle (seconds 6) [init_no_memory; init_ok] in
      let '(tr, r, st') :=
        cycle image_encodings_model.bitDepth c (streaming_nodelet, streaming_locals) in
      ieee.exceeds (now_after_wait c - last_frame streaming_locals)
                   (timeout_tolerance_secs_ streaming_nodelet) = true
      /\ r = Throws (std_exception "std::bad_alloc")
      /\ count_attempts tr = 1%nat
      /\ last_frame (locals_of st') = last_frame streaming_locals
      /\ cam_ (self_of st') <> None /\ fg_ (self_of st') = None).
Proof.
  split.
  - split; vm_compute; reflexivity.
  - vm_compute. repeat split; discriminate.
Qed.

(** ** The unit vectors are published once *)

Lemma bootstrapped_settled : settled bootstrapped.
Proof. intros st st' [_ Hg] H. unfold bootstrapped in *. congruence. Qed.

Lemma quiet_no_uvec e : not_publish e -> no_uvec e.
Proof. destruct e; cbn; intros H; try contradiction; exact I. Qed.

Lemma no_uvec_topics tr : Forall no_uvec tr -> ~ In uvec_pub_ (topics_of tr).
Proof.
  induction 1 as [ | e tr He _ IH ]; [ intros [] | ].
  destruct e as [s text | t m | ]; cbn; try exact IH.
  intros [Heq | Hin]; [ subst t; exact He | exact (IH Hin) ].
Qed.

(** Once the unit vectors are fetched, a cycle never publishes them. *)
Lemma cycle_streaming bitDepth c :
  triple bootstrapped (cycle bitDepth c) no_uvec bootstrapped (fun _ st => bootstrapped st).
Proof.
  rewrite cycle_unfold.
  pose proof quiet_no_uvec as Hq. pose proof bootstrapped_settled as Hsettled.
  eapply triple_bind;
    [ apply triple_with_self; [ assumption | assumption | apply AcquireFrame_cases ] | ].
  intros acquired. destruct acquired; cbn [negb]; [ | apply on_timeout_quiet; assumption ].
  eapply triple_bind; [ apply triple_on_locals; [ assumption | reflexivity ] | intros ? ].
  eapply triple_bind.
  { eapply triple_weaken;
      [ apply prepare_header_spec; assumption | auto | intros heads s [H _]; exact H ]. }
  intros heads. unfold cycle_rest.
  apply triple_sget_then. intros st0 Hst0. apply triple_from; [ exact Hst0 | ].
  unfold bootstrapped in Hst0. rewrite Hst0. cbn [negb].
  eapply triple_bind; [ apply pull_images_quiet; assumption | intros ? ].
  apply publish_all_allowed; [ assumption | ].
  intros t m Ht _. destruct t; try exact I. contradiction.
Qed.

Lemma cycles_streaming bitDepth cs :
  triple bootstrapped (cycles bitDepth cs) no_uvec bootstrapped (fun _ st => bootstrapped st).
Proof.
  induction cs as [ | c rest IH ]; cbn [cycles].
  - apply triple_ret. auto.
  - eapply triple_bind; [ apply cycle_streaming | intros ? ]. exact IH.
Qed.

Lemma waiting_settled : settled waiting.
Proof. intros st st' [_ Hg] H. unfold waiting in *. congruence. Qed.

Lemma bootstrap_tail_quiet c :
  triple bootstrapped (bootstrap_tail c) not_publish bootstrapped (fun _ st => bootstrapped st).
Proof.
  unfold bootstrap_tail. pose proof bootstrapped_settled as Hsettled.
  eapply triple_bind; [ apply triple_log; auto | intros ? ].
  eapply triple_bind; [ apply retry_InitStructures_quiet; auto | intros ? ].
  apply triple_log; auto.
Qed.

Lemma bootstrap_unfold bitDepth c optical_head :
  bootstrap bitDepth c optical_head
  = sbind sget (fun st =>
    sbind (deref (im_ (self_of st)) (fun im =>
             lift (ifm3d_to_ros_image bitDepth (session.UnitVectors im) optical_head
                                      (getName (self_of st))))) (fun uvec_msg =>
    sbind (semit (Log INFO ("uvec image size: "
                            ++ to_string (wrap32 (sensor_msgs.height uvec_msg
                                                  * sensor_msgs.width uvec_msg))))) (fun _ =>
    sbind (semit (Publish uvec_pub_ (ImageMsg uvec_msg))) (fun _ =>
    sbind (assign_got_uvec true) (fun _ => bootstrap_tail c))))).
Proof. reflexivity. Qed.

(** The bootstrap branch publishes the unit vectors once and raises the
    flag, unless the conversion of the unit vectors does not return; it
    publishes nothing else. *)
Lemma bootstrap_once bitDepth c optical_head st :
  let '(tr, r, st') := bootstrap bitDepth c optical_head st in
  (topics_of tr = [] /\ st' = st
   /\ forall im m, im_ (self_of st) = Some im ->
                   snd (ifm3d_to_ros_image bitDepth (session.UnitVectors im) optical_head
                                           (getName (self_of st))) <> Returns m)
  \/ (topics_of tr = [uvec_pub_] /\ bootstrapped st').
Proof.
  rewrite bootstrap_unfold. unfold sbind at 1. cbn [sget].
  unfold sbind at 1.
  destruct (im_ (self_of st)) as [im | ]; cbn [deref];
    [ | left; repeat split; discriminate ].
  destruct (ifm3d_to_ros_image_header bitDepth (session.UnitVectors im) optical_head
              (getName (self_of st))) as (Hq & _).
  unfold lift.
  destruct (ifm3d_to_ros_image bitDepth (session.UnitVectors im) optical_head
              (getName (self_of st))) as [trc rc] eqn:Hconv.
  cbn [fst snd] in *.
  destruct rc as [uvec_msg | e | | ];
    [ | left; (split; [ apply topics_of_quiet; exact Hq | split; [ reflexivity | ] ]);
        intros im' m' Him'; injection Him' as Heq; subst im'; rewrite Hconv; cbn [snd];
        discriminate .. ].
  unfold sbind at 1. cbn [semit]. unfold sbind at 1. cbn [semit].
  unfold sbind at 1. cbn [assign_got_uvec on_locals smodify fst snd].
  match goal with
  | |- context [bootstrap_tail c ?s] =>
      pose proof (bootstrap_tail_quiet c s eq_refl) as Htail;
      destruct (bootstrap_tail c s) as [[trt rt] stt]
  end.
  destruct Htail as (Hqt & Hit & _).
  right. split; [ | exact Hit ].
  rewrite !topics_of_app, (topics_of_quiet trc Hq), (topics_of_quiet trt Hqt).
  reflexivity.
Qed.

(** A cycle that starts before the unit vectors are fetched publishes
    nothing and leaves the flag down, or publishes the unit vectors, and
    nothing else, and raises the flag. *)
Lemma cycle_waiting bitDepth c st :
  waiting st ->
  let '(tr, r, st') := cycle bitDepth c st in
  (topics_of tr = [] /\ waiting st')
  \/ (topics_of tr = [uvec_pub_] /\ bootstrapped st').
Proof.
  intros Hw. rewrite cycle_unfold.
  pose proof waiting_settled as Hsettled.
  pose proof (triple_with_self not_publish waiting (fun e H => H) Hsettled
                (AcquireFrame (wait c)) (AcquireFrame_cases (wait c)) st Hw) as H1.
  unfold sbind at 1.
  destruct (with_self (AcquireFrame (wait c)) st) as [[tr1 r1] st1].
  destruct H1 as (Hq1 & Hi1 & _).
  destruct r1 as [acquired | e | | ];
    try (left; split; [ apply topics_of_quiet; exact Hq1 | exact Hi1 ]).
  destruct acquired; cbn [negb].
  - unfold sbind at 1.
    pose proof (triple_on_locals not_publish waiting Hsettled
                  (fun l => mkLocals (images l) (extrinsics l) (now_after_wait c)
                                     (got_uvec l) (info_once_done l))
                  (fun l => eq_refl) st1 Hi1) as H2.
    change (on_locals _) with (assign_last_frame (now_after_wait c)) in H2.
    destruct (assign_last_frame (now_after_wait c) st1) as [[tr2 r2] st2].
    destruct H2 as (Hq2 & Hi2 & _).
    destruct r2 as [ [] | e | | ];
      try (left; split;
           [ rewrite topics_of_app, (topics_of_quiet _ Hq1), (topics_of_quiet _ Hq2); reflexivity
           | exact Hi2 ]).
    unfold sbind at 1.
    pose proof (prepare_header_spec not_publish waiting (fun e H => H) Hsettled c st2 Hi2) as H3.
    destruct (prepare_header c st2) as [[tr3 r3] st3].
    destruct H3 as (Hq3 & Hi3 & _).
    destruct r3 as [ heads | e | | ];
      try (left; split;
           [ rewrite !topics_of_app, (topics_of_quiet _ Hq1), (topics_of_quiet _ Hq2),
               (topics_of_quiet _ Hq3); reflexivity
           | exact Hi3 ]).
    unfold cycle_rest. unfold sbind at 1. cbn [sget].
    unfold waiting in Hi3. rewrite Hi3. cbn [negb].
    pose proof (bootstrap_once bitDepth c (snd heads) st3) as H4.
    destruct (bootstrap bitDepth c (snd heads) st3) as [[tr4 r4] st4].
    rewrite !topics_of_app, (topics_of_quiet _ Hq1), (topics_of_quiet _ Hq2),
      (topics_of_quiet _ Hq3). cbn [app].
    destruct H4 as [(Ht & -> & _) | (Ht & Hb)]; rewrite Ht.
    + left. split; [ reflexivity | exact Hi3 ].
    + right. split; [ reflexivity | exact Hb ].
  - pose proof (on_timeout_quiet not_publish waiting (fun e H => H) Hsettled c st1 Hi1) as H2.
    destruct (on_timeout c st1) as [[tr2 r2] st2].
    destruct H2 as (Hq2 & Hi2 & _).
    left. split; [ | exact Hi2 ].
    rewrite topics_of_app, (topics_of_quiet _ Hq1), (topics_of_quiet _ Hq2). reflexivity.
Qed.

Lemma cycles_waiting bitDepth cs :
  forall st, waiting st ->
    let '(tr, r, st') := cycles bitDepth cs st in uvec_first (topics_of tr).
Proof.
  induction cs as [ | c rest IH ]; intros st Hw; cbn [cycles].
  - left. reflexivity.
  - unfold sbind.
    pose proof (cycle_waiting bitDepth c st Hw) as H1.
    destruct (cycle bitDepth c st) as [[tr1 r1] st1].
    destruct H1 as [(Ht & Hw1) | (Ht & Hb1)].
    + destruct r1 as [ [] | e | | ]; try (left; exact Ht).
      specialize (IH st1 Hw1). destruct (cycles bitDepth rest st1) as [[tr2 r2] st2].
      rewrite topics_of_app, Ht. exact IH.
    + destruct r1 as [ [] | e | | ];
        try (right; exists []; split; [ exact Ht | intros [] ]).
      pose proof (cycles_streaming bitDepth rest st1 Hb1) as H2.
      destruct (cycles bitDepth rest st1) as [[tr2 r2] st2].
      destruct H2 as (Hn & _).
      right. exists (topics_of tr2). split.
      * rewrite topics_of_app, Ht. reflexivity.
      * apply no_uvec_topics. exact Hn.
Qed.

Lemma Run_uvec_first bitDepth self i :
  uvec_first (topics_of (fst (fst (Run bitDepth self i)))).
Proof.
  unfold Run, Run_body.
  pose proof waiting_settled as Hsettled.
  pose proof (startup_quiet not_publish waiting (fun e H => H) Hsettled
                (startup_attempts i) (self, initial_locals) eq_refl) as H1.
  unfold sbind at 1.
  destruct (startup (startup_attempts i) (self, initial_locals)) as [[tr1 r1] st1].
  destruct H1 as (Hq1 & Hw1 & _).
  destruct r1 as [ started | e | | ];
    try (left; apply topics_of_quiet; exact Hq1).
  unfold sbind at 1. cbn [assign_last_frame on_locals smodify fst snd].
  unfold sbind at 1. cbn [assign_got_uvec on_locals smodify fst snd app].
  destruct started.
  - match goal with
    | |- context [cycles bitDepth (iterations i) ?s] =>
        pose proof (cycles_waiting bitDepth (iterations i) s eq_refl) as H2;
        destruct (cycles bitDepth (iterations i) s) as [[tr2 r2] st2]
    end.
    cbn [fst]. rewrite topics_of_app, (topics_of_quiet _ Hq1). exact H2.
  - cbn [sret fst]. left. rewrite app_nil_r. apply topics_of_quiet. exact Hq1.
Qed.

(** The bootstrap branch publishes the message the conversion of the
    unit vectors returns. *)
Lemma bootstrap_publishes bitDepth c optical_head st im m :
  im_ (self_of st) = Some im ->
  snd (ifm3d_to_ros_image bitDepth (session.UnitVectors im) optical_head
                          (getName (self_of st))) = Returns m ->
  let '(tr, r, st') := bootstrap bitDepth c optical_head st in
  topics_of tr = [uvec_pub_]
  /\ In (Publish uvec_pub_ (ImageMsg m)) tr
  /\ bootstrapped st'.
Proof.
  intros Him Hm.
  rewrite bootstrap_unfold. unfold sbind at 1. cbn [sget].
  unfold sbind at 1. rewrite Him. cbn [deref].
  destruct (ifm3d_to_ros_image_header bitDepth (session.UnitVectors im) optical_head
              (getName (self_of st))) as (Hq & _).
  unfold lift.
  destruct (ifm3d_to_ros_image bitDepth (session.UnitVectors im) optical_head
              (getName (self_of st))) as [trc rc].
  cbn [fst snd] in *. subst rc.
  unfold sbind at 1. cbn [semit]. unfold sbind at 1. cbn [semit].
  unfold sbind at 1. cbn [assign_got_uvec on_locals smodify fst snd].
  match goal with
  | |- context [bootstrap_tail c ?s] =>
      pose proof (bootstrap_tail_quiet c s eq_refl) as Htail;
      destruct (bootstrap_tail c s) as [[trt rt] stt]
  end.
  destruct Htail as (Hqt & Hit & _).
  split; [ | split; [ | exact Hit ] ].
  - rewrite !topics_of_app, (topics_of_quiet trc Hq), (topics_of_quiet trt Hqt).
    reflexivity.
  - apply in_or_app. right. apply in_or_app. right. cbn [app]. right. left. reflexivity.
Qed.

(** On the first frame the unit vectors of that frame are published
    under the optical header of the cycle, and nothing else is. *)
Lemma first_frame_publishes bitDepth c self l g b frame device_stamp elapsed thresh :
  got_uvec l = false ->
  fg_ self = Some g -> im_ self = Some b ->
  wait c = inl (Some frame) ->
  header_ready c self frame device_stamp elapsed thresh ->
  (forall h, exists m, snd (ifm3d_to_ros_image bitDepth (session.UnitVectors frame) h
                                                (getName self)) = Returns m) ->
  let stamp := if elapsed >? thresh then now_substitute c else device_stamp in
  exists m,
    snd (ifm3d_to_ros_image bitDepth (session.UnitVectors frame)
                            (snd (heads_with self stamp)) (getName self)) = Returns m
    /\ let '(tr, r, st') := cycle bitDepth c (self, l) in
       topics_of tr = [uvec_pub_]
       /\ In (Publish uvec_pub_ (ImageMsg m)) tr
       /\ bootstrapped st'.
Proof.
  intros Hl Hg Hb Hwait Hready Hconv stamp.
  destruct (Hconv (snd (heads_with self stamp))) as [m Hm]. exists m.
  split; [ exact Hm | ].
  rewrite cycle_unfold. unfold sbind at 1.
  rewrite Hwait, (AcquireFrame_frame self l g b frame Hg Hb). cbn [negb].
  unfold sbind at 1. cbn [assign_last_frame on_locals smodify fst snd].
  unfold sbind at 1.
  rewrite (prepare_header_eq c (set_im_ (Some frame) self) _ frame
             device_stamp elapsed thresh eq_refl Hready).
  assert (Hrest : forall tr0 st3,
             Forall not_publish tr0 ->
             im_ (self_of st3) = Some frame -> getName (self_of st3) = getName self ->
             waiting st3 ->
             forall tr4 r4 st4,
               cycle_rest bitDepth c (heads_with self stamp) st3 = (tr4, r4, st4) ->
               topics_of (tr0 ++ tr4) = [uvec_pub_]
               /\ In (Publish uvec_pub_ (ImageMsg m)) (tr0 ++ tr4)
               /\ bootstrapped st4).
  { intros tr0 st3 Hq0 Him Hname Hw3 tr4 r4 st4.
    unfold cycle_rest. unfold sbind at 1. cbn [sget].
    unfold waiting in Hw3. rewrite Hw3. cbn [negb].
    pose proof (bootstrap_publishes bitDepth c (snd (heads_with self stamp)) st3 frame m Him)
      as H4.
    rewrite Hname in H4. specialize (H4 Hm).
    destruct (bootstrap bitDepth c (snd (heads_with self stamp)) st3) as [[tr5 r5] st5].
    cbn [app]. intros Heq. injection Heq as <- <- <-.
    rewrite topics_of_app, (topics_of_quiet _ Hq0). cbn [app].
    destruct H4 as (H41 & H42 & H43).
    split; [ exact H41 | split; [ apply in_or_app; right; exact H42 | exact H43 ] ]. }
  subst stamp. destruct (elapsed >? thresh).
  - cbn [info_once_done]. destruct (info_once_done l);
      match goal with
      | |- context [cycle_rest bitDepth c ?h ?s] =>
          destruct (cycle_rest bitDepth c h s) as [[tr4 r4] st4] eqn:Hrun
      end; cbn [fst snd app].
    + eapply (Hrest []); [ | | | | exact Hrun ];
        [ constructor | reflexivity | reflexivity | exact Hl ].
    + change (sync_notice :: tr4) with ([sync_notice] ++ tr4).
      eapply (Hrest [sync_notice]); [ | | | | exact Hrun ];
        [ repeat constructor | reflexivity | reflexivity | exact Hl ].
  - match goal with
    | |- context [cycle_rest bitDepth c ?h ?s] =>
        destruct (cycle_rest bitDepth c h s) as [[tr4 r4] st4] eqn:Hrun
    end; cbn [fst snd app].
    eapply (Hrest []); [ | | | | exact Hrun ];
      [ constructor | reflexivity | reflexivity | exact Hl ].
Qed.

(** A cycle whose wait delivers no frame publishes nothing and leaves
    the bootstrap flag as it is. *)
Lemma cycle_without_frame bitDepth c st :
  no_frame c ->
  let '(tr, r, st') := cycle bitDepth c st in
  topics_of tr = [] /\ got_uvec (locals_of st') = got_uvec (locals_of st).
Proof.
  intros Hno.
  set (Inv := fun s : RunState => got_uvec (locals_of s) = got_uvec (locals_of st)).
  assert (Hsettled : settled Inv).
  { intros s s' [_ Hg] H. unfold Inv in *. congruence. }
  assert (Hacq : triple Inv (with_self (AcquireFrame (wait c))) not_publish Inv
                        (fun acquired s => Inv s /\ acquired = false)).
  { intros [self l] Hi. unfold with_self, AcquireFrame, try_catch, sbind, sget.
    cbn [fst snd].
    destruct (fg_ self) as [g | ];
      [ | cbn; split; [ constructor | split; [ exact Hi | discriminate ] ] ].
    destruct (im_ self) as [b | ];
      [ | cbn; split; [ constructor | split; [ exact Hi | discriminate ] ] ].
    destruct (wait c) as [[frame | ] | [code what | what | ]] eqn:Hw; cbn.
    - exfalso. exact (Hno frame Hw).
    - split; [ constructor | split; [ exact Hi | ] ].
      intros a Ha. injection Ha as <-. split; [ exact Hi | reflexivity ].
    - split; [ repeat constructor | split; [ exact Hi | ] ].
      intros a Ha. injection Ha as <-. split; [ exact Hi | reflexivity ].
    - split; [ constructor | split; [ exact Hi | discriminate ] ].
    - split; [ constructor | split; [ exact Hi | discriminate ] ]. }
  assert (H : triple Inv (cycle bitDepth c) not_publish Inv (fun _ s => Inv s)).
  { rewrite cycle_unfold. eapply triple_bind; [ exact Hacq | ].
    intros acquired s [Hi ->]. cbn [negb].
    exact (on_timeout_quiet not_publish Inv (fun e H => H) Hsettled c s Hi). }
  specialize (H st eq_refl).
  destruct (cycle bitDepth c st) as [[tr r] st'].
  destruct H as (Hq & Hi & _). split; [ apply topics_of_quiet; exact Hq | exact Hi ].
Qed.

Lemma cycles_without_frame bitDepth cs :
  Forall no_frame cs ->
  forall st,
    let '(tr, r, st') := cycles bitDepth cs st in
    topics_of tr = [] /\ got_uvec (locals_of st') = got_uvec (locals_of st).
Proof.
  induction 1 as [ | c rest Hc _ IH ]; intros st; cbn [cycles].
  - split; reflexivity.
  - unfold sbind. pose proof (cycle_without_frame bitDepth c st Hc) as H1.
    destruct (cycle bitDepth c st) as [[tr1 r1] st1]. destruct H1 as (Ht1 & Hg1).
    destruct r1 as [ [] | e | | ]; try (split; assumption).
    specialize (IH st1). destruct (cycles bitDepth rest st1) as [[tr2 r2] st2].
    destruct IH as (Ht2 & Hg2).
    split; [ rewrite topics_of_app, Ht1, Ht2; reflexivity | congruence ].
Qed.

(** The cycles of a list are run one after the other, as long as they
    return. *)
Lemma cycles_app bitDepth a b st :
  cycles bitDepth (a ++ b) st
  = match cycles bitDepth a st with
    | (tr, Returns _, st') =>
        let '(tr', r', st'') := cycles bitDepth b st' in (tr ++ tr', r', st'')
    | other => other
    end.
Proof.
  revert st. induction a as [ | c rest IH ]; intros st; cbn [app cycles].
  - cbn [sret]. destruct (cycles bitDepth b st) as [[tr' r'] st'']. reflexivity.
  - unfold sbind. destruct (cycle bitDepth c st) as [[tr1 r1] st1].
    destruct r1 as [ [] | e | | ]; try reflexivity.
    rewrite IH. destruct (cycles bitDepth rest st1) as [[tr2 r2] st2].
    destruct r2 as [ [] | e | | ]; try reflexivity.
    destruct (cycles bitDepth b st2) as [[tr3 r3] st3].
    rewrite app_assoc. reflexivity.
Qed.

(** ** A sample run *)

Example sample_run_topics :
  let '(tr, r, st) := Run image_encodings_model.bitDepth sample_nodelet sample_run in
  r = Returns tt
  /\ topics_of tr = uvec_pub_ :: streaming_topics ++ streaming_topics
  /\ stamps_of tr = seconds 2 :: repeat (seconds 3) 6 ++ repeat (seconds 11) 6
  /\ count_attempts tr = 5%nat
  /\ option_map session.mask (fg_ (self_of st)) = Some 15.
Proof. vm_compute. repeat split. Qed.



(** * Further properties of the conversion pipeline *)

Lemma wrap32_range z : 0 <= wrap32 z < 2 ^ 32.
Proof. unfold wrap32. apply Z.mod_pos_bound. lia. Qed.

Lemma copy_bytes_returns buf n payload :
  snd (copy_bytes buf (wrap32 n)) = Returns payload ->
  payload = firstn (Z.to_nat (wrap32 n)) buf
  /\ Z.of_nat (List.length payload) = wrap32 n.
Proof.
  unfold copy_bytes. pose proof (wrap32_range n) as Hr.
  destruct (Z.leb_spec (wrap32 n) (Z.of_nat (List.length buf))) as [Hle | Hgt]; cbn.
  - intros H. injection H as <-. split; [ reflexivity | ].
    rewrite length_firstn. lia.
  - discriminate.
Qed.

(** X1.  Whenever a conversion returns a record, the record carries the
    header it was given (and, for images and clouds, the source's
    dimensions), and its payload is copied from the front of the source
    buffer: for an image the first step*height bytes, for a cloud the
    first row_step*height bytes (both products taken in 32 bits), for a
    compressed image some prefix; the payload length of images and clouds
    is exactly that product. *)
Theorem conversions_copy_the_source bitDepth image header format logger :
  (forall r, snd (ifm3d_to_ros_image bitDepth image header logger) = Returns r ->
             sensor_msgs.header r = header
             /\ sensor_msgs.height r = ifm3d.height image
             /\ sensor_msgs.width r = ifm3d.width image
             /\ sensor_msgs.is_bigendian r = 0
             /\ sensor_msgs.data r
                = firstn (Z.to_nat (wrap32 (sensor_msgs.step r * sensor_msgs.height r)))
                         (ifm3d.bytes image)
             /\ Z.of_nat (List.length (sensor_msgs.data r))
                = wrap32 (sensor_msgs.step r * sensor_msgs.height r))
  /\ (forall r, snd (ifm3d_to_ros_cloud image header logger) = Returns r ->
                sensor_msgs.p_header r = header
                /\ sensor_msgs.p_height r = ifm3d.height image
                /\ sensor_msgs.p_width r = ifm3d.width image
                /\ sensor_msgs.row_step r
                   = wrap32 (sensor_msgs.point_step r * sensor_msgs.p_width r)
                /\ sensor_msgs.p_data r
                   = firstn (Z.to_nat (wrap32 (sensor_msgs.row_step r * sensor_msgs.p_height r)))
                            (ifm3d.bytes image)
                /\ Z.of_nat (List.length (sensor_msgs.p_data r))
                   = wrap32 (sensor_msgs.row_step r * sensor_msgs.p_height r))
  /\ (forall r, snd (ifm3d_to_ros_compressed_image image header format logger) = Returns r ->
                sensor_msgs.c_header r = header
                /\ sensor_msgs.c_format r = format
                /\ exists n, sensor_msgs.c_data r = firstn n (ifm3d.bytes image)).
Proof.
  split; [ | split ].
  - unfold ifm3d_to_ros_image.
    destruct (ifm3d.range_empty image);
      [ cbn; intros r H; injection H as <-; cbn; repeat split | ].
    destruct (_ >=? _);
      [ cbn; intros r H; injection H as <-; cbn; repeat split | ].
    unfold array_at.
    destruct (nth_error _ _) as [enc | ]; [ | cbn; discriminate ].
    cbn [bind ret fst snd app]. unfold bitDepth_call.
    destruct (bitDepth enc) as [bits | ]; [ | cbn; discriminate ].
    cbn [bind ret fst snd app sensor_msgs.width sensor_msgs.height].
    pose proof (copy_bytes_returns (ifm3d.bytes image)
                  (wrap32 (wrap32 (ifm3d.width image * bits) / 8) * ifm3d.height image)) as Hc.
    destruct (copy_bytes _ _) as [trc [payload | e | | ]]; cbn [bind fst snd];
      try discriminate.
    destruct (Hc payload eq_refl) as (Hp & Hl).
    cbn [sensor_msgs.encoding].
    destruct (string_empty enc); cbn; intros r H; injection H as <-; cbn;
      repeat split; assumption.
  - unfold ifm3d_to_ros_cloud.
    destruct (ifm3d.range_empty image);
      [ cbn; intros r H; injection H as <-; cbn; repeat split | ].
    destruct (_ && _);
      [ cbn; intros r H; injection H as <-; cbn; repeat split | ].
    cbn [sensor_msgs.p_width sensor_msgs.p_height].
    pose proof (copy_bytes_returns (ifm3d.bytes image)
                  (wrap32 (wrap32 (Z.of_nat (List.length xyz_fields) * sizeof_float)
                           * ifm3d.width image) * ifm3d.height image)) as Hc.
    destruct (copy_bytes _ _) as [trc [payload | e | | ]]; cbn [bind fst snd];
      try discriminate.
    destruct (Hc payload eq_refl) as (Hp & Hl).
    cbn. intros r H; injection H as <-; cbn. repeat split; assumption.
  - unfold ifm3d_to_ros_compressed_image.
    destruct (_ && _);
      [ cbn; intros r H; injection H as <-; cbn; repeat split; exists 0%nat; reflexivity | ].
    pose proof (copy_bytes_returns (ifm3d.bytes image)
                  (ifm3d.width image * ifm3d.height image)) as Hc.
    destruct (copy_bytes _ _) as [trc [payload | e | | ]]; cbn [bind fst snd];
      try discriminate.
    destruct (Hc payload eq_refl) as (Hp & Hl).
    cbn. intros r H; injection H as <-; cbn. repeat split.
    eexists. exact Hp.
Qed.

Lemma ifm3d_to_ros_image_in_table_witness :
  exists payload,
    ifm3d_to_ros_image image_encodings_model.bitDepth sample_16U sample_header "camera"
    = ([], Returns {| sensor_msgs.header := sample_header;
                      sensor_msgs.height := 2;
                      sensor_msgs.width := 3;
                      sensor_msgs.encoding := "16UC1";
                      sensor_msgs.is_bigendian := 0;
                      sensor_msgs.step := 6;
                      sensor_msgs.data := payload |})
    /\ Z.of_nat (List.length payload) = 12.
Proof.
  apply (ifm3d_to_ros_image_in_table image_encodings_model.bitDepth sample_16U sample_header
           "camera" "16UC1" 16);
    vm_compute; repeat split; (reflexivity || discriminate).
Defined.

(** X3.  The compressed conversion accepts the two 8-bit formats only.
    For one of them, when the source buffer holds width*height bytes
    (the product taken in 32 bits), it logs nothing and returns the
    header, the caller's container format and the first width*height
    bytes of the source, unchanged.  For any other format it logs the
    format error and returns header and container format with an empty
    payload.  It never looks at whether the source is empty. *)
Theorem compressed_image_conversion image header format logger :
  (ifm3d.dataFormat image = FORMAT_8U \/ ifm3d.dataFormat image = FORMAT_8S ->
   wrap32 (ifm3d.width image * ifm3d.height image)
   <= Z.of_nat (List.length (ifm3d.bytes image)) ->
   ifm3d_to_ros_compressed_image image header format logger
   = ([], Returns {| sensor_msgs.c_header := header;
                     sensor_msgs.c_format := format;
                     sensor_msgs.c_data :=
                       firstn (Z.to_nat (wrap32 (ifm3d.width image * ifm3d.height image)))
                              (ifm3d.bytes image) |}))
  /\ (ifm3d.dataFormat image <> FORMAT_8U -> ifm3d.dataFormat image <> FORMAT_8S ->
      ifm3d_to_ros_compressed_image image header format logger
      = ([compressed_format_error],
         Returns {| sensor_msgs.c_header := header;
                    sensor_msgs.c_format := format;
                    sensor_msgs.c_data := [] |})).
Proof.
  split.
  - intros Hfmt Hbuf. unfold ifm3d_to_ros_compressed_image.
    assert (Hcheck : negb (ifm3d.dataFormat image =? FORMAT_8S)
                     && negb (ifm3d.dataFormat image =? FORMAT_8U) = false).
    { destruct Hfmt as [-> | ->]; reflexivity. }
    rewrite Hcheck. unfold copy_bytes.
    destruct (Z.leb_spec (wrap32 (ifm3d.width image * ifm3d.height image))
                         (Z.of_nat (List.length (ifm3d.bytes image)))) as [_ | Hgt]; [ | lia ].
    reflexivity.
  - intros H8U H8S. unfold ifm3d_to_ros_compressed_image.
    destruct (Z.eqb_spec (ifm3d.dataFormat image) FORMAT_8S) as [E | _]; [ contradiction | ].
    destruct (Z.eqb_spec (ifm3d.dataFormat image) FORMAT_8U) as [E | _]; [ contradiction | ].
    reflexivity.
Qed.

Lemma compressed_image_conversion_witness :
  ifm3d_to_ros_compressed_image sample_jpeg sample_header "jpeg" "camera"
  = ([], Returns {| sensor_msgs.c_header := sample_header;
                    sensor_msgs.c_format := "jpeg";
                    sensor_msgs.c_data := [xff; xd8; xff; xd9] |}).
Proof.
  apply (proj1 (compressed_image_conversion sample_jpeg sample_header "jpeg" "camera")).
  - left. reflexivity.
  - cbn. lia.
Defined.

(** * Further properties of the acquisition loop *)

(** X4.  The extrinsics message never fails to be built: the guarded
    copy returns for every vector, each of the six fields holds the
    vector's element at its index when there is one and stays 0
    otherwise, the header is kept, and the out-of-range warning is logged
    exactly when the vector has fewer than six elements. *)
Theorem extrinsics_defaulted v header :
  fill_extrinsics v (ifm3d_ros_msgs.mkExtrinsics header 0 0 0 0 0 0)
  = (if (6 <=? List.length v)%nat then [] else [extrinsics_warning],
     Returns tt,
     ifm3d_ros_msgs.mkExtrinsics header (nth 0 v 0) (nth 1 v 0) (nth 2 v 0)
                                 (nth 3 v 0) (nth 4 v 0) (nth 5 v 0)).
Proof.
  destruct v as [ | a [ | b [ | c [ | d [ | e [ | f rest ] ] ] ] ] ]; reflexivity.
Qed.

(** X5.  The locked copy of a frame out of the buffer.  When every
    accessor returns, each local image and the extrinsics hold the
    frame's values and nothing is logged.  When the first accessor
    throws a device or runtime error, the error is logged and the locals
    are left as they were, so the cycle goes on with the previous frame's
    images; an unknown exception is not caught.  When the first accessor
    returns and the second throws, the cloud image is the new one and
    every other local is the old one. *)
Theorem pull_images_copies self l im :
  im_ self = Some im ->
  (forall xyz conf dis noise amp ramp gray ext jpeg,
      session.XYZImage im = inl xyz ->
      session.ConfidenceImage im = inl conf ->
      session.DistanceImage im = inl dis ->
      session.DistanceNoiseImage im = inl noise ->
      session.AmplitudeImage im = inl amp ->
      session.RawAmplitudeImage im = inl ramp ->
      session.GrayImage im = inl gray ->
      session.Extrinsics im = inl ext ->
      session.JPEGImage im = inl jpeg ->
      exists l',
        pull_images (self, l) = ([], Returns tt, (self, l'))
        /\ (forall v, images l' v = frame_images xyz conf dis noise amp ramp gray jpeg v)
        /\ extrinsics l' = ext
        /\ last_frame l' = last_frame l
        /\ got_uvec l' = got_uvec l
        /\ info_once_done l' = info_once_done l)
  /\ (forall e, session.XYZImage im = inr e ->
                pull_images (self, l)
                = match e with
                  | ifm3d_error _ what => ([Log WARN what], Returns tt, (self, l))
                  | std_exception what => ([Log WARN what], Returns tt, (self, l))
                  | unknown_exception => ([], Throws unknown_exception, (self, l))
                  end)
  /\ (forall xyz what,
         session.XYZImage im = inl xyz ->
         session.ConfidenceImage im = inr (std_exception what) ->
         exists l',
           pull_images (self, l) = ([Log WARN what], Returns tt, (self, l'))
           /\ images l' xyz_img = xyz
           /\ (forall v, v <> xyz_img -> images l' v = images l v)
           /\ extrinsics l' = extrinsics l).
Proof.
  intros Him. split; [ | split ].
  - intros xyz conf dis noise amp ramp gray ext jpeg H1 H2 H3 H4 H5 H6 H7 H8 H9.
    unfold pull_images, try_catch, sbind, sget, deref. cbn [self_of fst snd].
    rewrite Him, H1, H2, H3, H4, H5, H6, H7, H8, H9. cbn.
    eexists. split; [ reflexivity | ].
    split; [ intros v; destruct v; reflexivity | repeat split ].
  - intros e H1.
    unfold pull_images, try_catch, sbind, sget, deref. cbn [self_of fst snd].
    rewrite Him, H1. destruct e as [code what | what | ]; reflexivity.
  - intros xyz what H1 H2.
    unfold pull_images, try_catch, sbind, sget, deref. cbn [self_of fst snd].
    rewrite Him, H1, H2. cbn.
    eexists. split; [ reflexivity | ].
    split; [ reflexivity | split; [ | reflexivity ] ].
    intros v Hv. destruct v; try reflexivity. contradiction.
Qed.

Lemma pull_images_copies_witness :
  exists l',
    pull_images (set_im_ (Some (frame_at (seconds 2))) streaming_nodelet, streaming_locals)
    = ([], Returns tt, (set_im_ (Some (frame_at (seconds 2))) streaming_nodelet, l'))
    /\ (forall v, images l' v
                  = frame_images sample_32F3 sample_confidence sample_16U ifm3d.empty_image
                                 ifm3d.empty_image ifm3d.empty_image ifm3d.empty_image
                                 ifm3d.empty_image v)
    /\ extrinsics l' = [1; 2; 3; 4; 5; 6]
    /\ last_frame l' = last_frame streaming_locals
    /\ got_uvec l' = got_uvec streaming_locals
    /\ info_once_done l' = info_once_done streaming_locals.
Proof.
  apply (proj1 (pull_images_copies (set_im_ (Some (frame_at (seconds 2))) streaming_nodelet)
                  streaming_locals (frame_at (seconds 2)) eq_refl));
    reflexivity.
Defined.

Section Emits.

Context {S : Type}.

Lemma emits_bind {A B} ts1 ts2 (m : SM S A) (k : A -> SM S B) (st : S) :
  emits ts1 m st -> (forall a, emits ts2 (k a) st) ->
  emits (ts1 ++ ts2) (sbind m k) st.
Proof.
  unfold emits, sbind. intros Hm Hk.
  destruct (m st) as [[tr r] st1]. destruct Hm as (-> & (rest & Hpre) & Hret).
  destruct r as [a | e | | ];
    try (split; [ reflexivity | split; [ | discriminate ] ];
         exists (rest ++ ts2); rewrite Hpre at 1; rewrite app_assoc; reflexivity).
  specialize (Hk a). destruct (k a st) as [[tr2 r2] st2].
  destruct Hk as (-> & (rest2 & Hpre2) & Hret2).
  rewrite topics_of_app, (Hret a eq_refl).
  split; [ reflexivity | split ].
  - exists rest2. rewrite Hpre2 at 1. rewrite app_assoc. reflexivity.
  - intros b Hb. rewrite (Hret2 b Hb). reflexivity.
Qed.

Lemma emits_sget {B} ts (k : S -> SM S B) (st : S) :
  emits ts (k st) st -> emits ts (sbind sget k) st.
Proof.
  unfold emits, sbind, sget. destruct (k st st) as [[tr r] st']. cbn. auto.
Qed.

Lemma emits_when ts (b : bool) (m : SM S unit) (st : S) :
  (b = true -> emits ts m st) -> emits (if b then ts else []) (when b m) st.
Proof.
  destruct b; cbn; intros H; [ apply H; reflexivity | ].
  repeat split. exists []. reflexivity.
Qed.

(** A conversion followed by the publish of its result. *)
Lemma emits_convert_publish {A} (conv : M A) (t : topic) (wrap : A -> message) (st : S) :
  Forall not_publish (fst conv) ->
  emits [t] (sbind (lift conv) (fun m => semit (Publish t (wrap m)))) st.
Proof.
  intros Hq. unfold emits, sbind, lift, semit.
  destruct conv as [trc [a | e | | ]]; cbn [fst snd] in *;
    rewrite ?topics_of_app, (topics_of_quiet _ Hq); cbn.
  - repeat split. exists []. reflexivity.
  - split; [ reflexivity | split; [ exists [t]; reflexivity | discriminate ] ].
  - split; [ reflexivity | split; [ exists [t]; reflexivity | discriminate ] ].
  - split; [ reflexivity | split; [ exists [t]; reflexivity | discriminate ] ].
Qed.

End Emits.

Lemma emits_publish_image bitDepth t v header st :
  emits [t] (publish_image bitDepth t v header) st.
Proof.
  unfold publish_image. apply emits_sget.
  apply (emits_convert_publish _ t ImageMsg).
  apply ifm3d_to_ros_image_header.
Qed.

(** X6.  The publishing part of a streaming cycle leaves the state as it
    is and publishes in one fixed order: confidence always; cloud,
    distance, distance noise, amplitude, raw amplitude and gray each
    exactly when its bit is set in the schema mask; the RGB image exactly
    when its height times width (in 32 bits) is positive; the extrinsics
    last.  When a conversion does not return, the topics published so far
    are a front part of that list. *)
Theorem publish_order bitDepth head optical_head st :
  let expected :=
    expected_topics (schema_mask_ (self_of st)) (images (locals_of st) rgb_img) in
  let '(tr, r, st') := publish_all bitDepth head optical_head st in
  st' = st
  /\ (exists rest, expected = topics_of tr ++ rest)
  /\ (forall a, r = Returns a -> topics_of tr = expected).
Proof.
  intros expected. subst expected.
  change (emits (expected_topics (schema_mask_ (self_of st)) (images (locals_of st) rgb_img))
                (publish_all bitDepth head optical_head) st).
  unfold publish_all, expected_topics. apply emits_sget.
  apply emits_bind; [ apply emits_publish_image | intros ? ].
  apply emits_bind.
  { apply emits_when. intros _.
    apply (emits_convert_publish _ cloud_pub_ CloudMsg). apply ifm3d_to_ros_cloud_header. }
  intros ?.
  do 5 (apply emits_bind; [ apply emits_when; intros _; apply emits_publish_image | intros ? ]).
  apply emits_bind.
  { apply emits_when. intros _.
    apply (emits_convert_publish _ rgb_image_pub_ CompressedMsg).
    apply ifm3d_to_ros_compressed_image_header. }
  intros ?.
  change [extrinsics_pub_] with ([] ++ [extrinsics_pub_]).
  apply emits_bind.
  - unfold emits, with_local.
    pose proof (fill_extrinsics_header (extrinsics (locals_of st))
                  (ifm3d_ros_msgs.mkExtrinsics optical_head 0 0 0 0 0 0)) as H.
    destruct (fill_extrinsics _ _) as [[tr r] m]. destruct H as (_ & Hq).
    destruct r; cbn iota beta; rewrite (topics_of_quiet _ Hq);
      (split; [ reflexivity | split; [ exists []; reflexivity | ] ]);
      intros; reflexivity.
  - intros m. unfold emits, semit. cbn. repeat split. exists []. reflexivity.
Qed.

(** * Further properties of the command handlers *)

(** X7.  [SoftOff] and [SoftOn] alike: when the device accepts the
    request, the active timeout and staleness tolerance become the
    soft-on values, software triggering is no longer assumed, and
    nothing else in the nodelet changes (the session triple included);
    when the request throws, whatever it throws, the nodelet is left as
    it was.  The port named in the request is [pcic_port_] modulo 50010:
    the port itself below 50010, its offset from 50010 from there on. *)
Theorem soft_switch_regime state FromJSONStr self res0 :
  cam_ self <> None ->
  let port_arg := Z.rem (pcic_port_ self) 50010 in
  let '(tr, r, st) := soft_switch state FromJSONStr (self, res0) in
  match FromJSONStr (port_state_json port_arg state) with
  | inl _ =>
      fst st = set_soft_on_regime self
      /\ timeout_millis_ (fst st) = soft_on_timeout_millis_ self
      /\ timeout_tolerance_secs_ (fst st) = soft_on_timeout_tolerance_secs_ self
      /\ assume_sw_triggered_ (fst st) = false
      /\ pcic_port_ (fst st) = pcic_port_ self
      /\ schema_mask_ (fst st) = schema_mask_ self
      /\ frame_latency_thresh_ (fst st) = frame_latency_thresh_ self
      /\ cam_ (fst st) = cam_ self /\ fg_ (fst st) = fg_ self /\ im_ (fst st) = im_ self
  | inr _ => fst st = self
  end
  /\ (0 <= pcic_port_ self < 50010 -> port_arg = pcic_port_ self)
  /\ (50010 <= pcic_port_ self < 65536 -> port_arg = pcic_port_ self - 50010).
Proof.
  intros Hcam port_arg.
  destruct (cam_ self) as [c | ] eqn:Ec; [ clear Hcam | contradiction ].
  unfold soft_switch, try_catch, sbind, deref, set_status, set_msg, on_self, smodify, sget;
    cbn [fst snd].
  rewrite Ec. fold port_arg.
  assert (Hrem1 : 0 <= pcic_port_ self < 50010 -> port_arg = pcic_port_ self).
  { intros H. unfold port_arg. apply Z.rem_small. exact H. }
  assert (Hrem2 : 50010 <= pcic_port_ self < 65536 -> port_arg = pcic_port_ self - 50010).
  { intros H. unfold port_arg. rewrite Z.rem_mod_nonneg by lia.
    symmetry. apply (Z.mod_unique_pos _ _ 1). - lia. - lia. }
  destruct (FromJSONStr (port_state_json port_arg state)) as [j | [code what | what | ]];
    cbn; repeat split; try assumption; try (symmetry; assumption).
Qed.

Lemma soft_switch_regime_witness :
  let '(tr, r, st) := SoftOff (fun _ => inl tt) (streaming_nodelet, blank_response) in
  (fst st = set_soft_on_regime streaming_nodelet
   /\ timeout_millis_ (fst st) = 500
   /\ timeout_tolerance_secs_ (fst st) = ieee.of_Z 5
   /\ assume_sw_triggered_ (fst st) = false)
  /\ r = Returns true.
Proof.
  assert (Hcam : cam_ streaming_nodelet <> None) by (cbn; discriminate).
  pose proof (soft_switch_regime "IDLE" (fun _ => inl tt) streaming_nodelet blank_response Hcam)
    as H.
  cbv zeta in H. unfold SoftOff.
  destruct (soft_switch "IDLE" (fun _ => inl tt) (streaming_nodelet, blank_response))
    as [[tr r] st] eqn:E.
  destruct H as ((H1 & H2 & H3 & H4 & _) & _).
  split; [ repeat split; assumption | ].
  vm_compute in E. injection E as _ <- _. reflexivity.
Defined.

(** X8.  [Dump], [Config] and [Trigger] never change the nodelet,
    whatever the device answers and whether or not a session stands.
    [Dump] stores the configuration document only when it was read; on
    any failure the response keeps the document it came with.  [Trigger]
    answers with the fixed not-implemented message whenever it returns,
    also when the trigger succeeded. *)
Theorem handlers_leave_the_nodelet self :
  (forall ToJSON res0,
      let '(tr, r, st) := Dump ToJSON (self, res0) in
      fst st = self
      /\ match ToJSON with
         | inl j => cam_ self <> None -> srv.d_config (snd st) = j
         | inr _ => srv.d_config (snd st) = srv.d_config res0
         end)
  /\ (forall FromJSON req res0,
         let '(tr, r, st) := Config FromJSON req (self, res0) in fst st = self)
  /\ (forall SWTrigger res0,
         let '(tr, r, st) := Trigger SWTrigger (self, res0) in
         fst st = self
         /\ (forall b, r = Returns b -> srv.msg (snd st) = trigger_message)).
Proof.
  split; [ | split ].
  - intros ToJSON res0.
    unfold Dump, try_catch, sbind, deref, set_d_status, set_d_config, smodify, sget;
      cbn [fst snd].
    destruct (cam_ self) as [c | ]; cbn.
    + destruct ToJSON as [j | [code what | what | ]]; cbn; try (split; reflexivity).
      destruct (Z.eqb_spec code 0); cbn; split; reflexivity.
    + destruct ToJSON as [j | e]; split; try reflexivity. intros H. contradiction.
  - intros FromJSON req res0.
    unfold Config, try_catch, sbind, deref, set_status, set_msg, smodify, sget; cbn [fst snd].
    destruct (cam_ self) as [c | ]; cbn; [ | reflexivity ].
    destruct (FromJSON req) as [j | [code what | what | ]]; cbn; try reflexivity.
    destruct (Z.eqb_spec code 0); reflexivity.
  - intros SWTrigger res0.
    unfold Trigger, try_catch, sbind, deref, set_status, set_msg, smodify, sget; cbn [fst snd].
    destruct (fg_ self) as [g | ]; cbn; [ | split; [ reflexivity | discriminate ] ].
    destruct SWTrigger as [j | [code what | what | ]]; cbn;
      (split; [ reflexivity | intros b Hb; try discriminate; reflexivity ]).
Qed.

(** X9.  The handlers do not test the session pointers.  After an
    [InitStructures] that failed on a device error the triple is null,
    and a command arriving then calls through a null session handle
    ([Dump], [Config], [SoftOff], [SoftOn]) or a null frame grabber
    ([Trigger]): none of them produces a response. *)
Theorem handlers_after_failed_init env mask port self :
  init_fails env ->
  let self' := snd (InitStructures env mask port self) in
  (forall ToJSON res0, snd (fst (Dump ToJSON (self', res0))) = Undefined)
  /\ (forall FromJSON req res0, snd (fst (Config FromJSON req (self', res0))) = Undefined)
  /\ (forall SWTrigger res0, snd (fst (Trigger SWTrigger (self', res0))) = Undefined)
  /\ (forall state FromJSONStr res0,
         snd (fst (soft_switch state FromJSONStr (self', res0))) = Undefined).
Proof.
  intros Hf self'.
  destruct (InitStructures_fails env mask port self Hf)
    as (tr & self1 & Hrun & _ & (Hc & Hg & _) & _).
  subst self'. rewrite Hrun. cbn [snd].
  repeat split; intros.
  - unfold Dump, try_catch, sbind, deref, set_d_status, smodify, sget; cbn [fst snd].
    rewrite Hc. reflexivity.
  - unfold Config, try_catch, sbind, deref, set_status, set_msg, smodify, sget; cbn [fst snd].
    rewrite Hc. reflexivity.
  - unfold Trigger, try_catch, sbind, deref, set_status, set_msg, smodify, sget; cbn [fst snd].
    rewrite Hg. reflexivity.
  - unfold soft_switch, try_catch, sbind, deref, set_status, set_msg, smodify, sget;
      cbn [fst snd].
    rewrite Hc. reflexivity.
Qed.

Lemma handlers_after_failed_init_witness :
  snd (fst (Dump (inl "{}")
                 (snd (InitStructures init_unplugged ifm3d.IMG_UVEC 50010 sample_nodelet),
                  blank_dump_response)))
  = Undefined.
Proof.
  exact (proj1 (handlers_after_failed_init init_unplugged ifm3d.IMG_UVEC 50010 sample_nodelet I)
           (inl "{}") blank_dump_response).
Defined.

(** * Further properties of the session lifecycle *)

(** X10.  [InitStructures] starts from scratch: its outcome and the
    state it leaves do not depend on the triple it finds, nor on its
    [pcic_port] argument (the grabber is bound to the member
    [pcic_port_]).  Whatever the collaborators answer, it makes one
    attempt, never publishes, never changes a setting, and sleeps the
    settle delay exactly when the session handle was constructed. *)
Theorem InitStructures_from_scratch env mask port self :
  (forall c g b port',
      InitStructures env mask port' (set_cam_ c (set_fg_ g (set_im_ b self)))
      = InitStructures env mask port self)
  /\ let '(tr, r, self') := InitStructures env mask port self in
     same_settings self self'
     /\ topics_of tr = []
     /\ count_attempts tr = 1%nat
     /\ count_sleeps tr = match MakeShared env with None => 1%nat | Some _ => 0%nat end.
Proof.
  split.
  - intros c g b port'.
    destruct env as [[[c1 w1 | w1 | ] | ] [[c2 w2 | w2 | ] | ] [[c3 w3 | w3 | ] | ]];
      reflexivity.
  - destruct env as [[[c1 w1 | w1 | ] | ] [[c2 w2 | w2 | ] | ] [[c3 w3 | w3 | ] | ]];
      cbn; repeat split.
Qed.

(** X11.  With a session standing, [AcquireFrame] answers [true] exactly
    when the wait delivered a frame, and the buffer then holds that
    frame; a timeout and a device error both answer [false], the error
    being logged as its code, a colon and its message; any other
    exception leaves the function.  Whenever the answer is not [true] the
    nodelet is unchanged, and in every case the session handle, the
    grabber and every setting are. *)
Theorem AcquireFrame_outcomes w self g b :
  fg_ self = Some g -> im_ self = Some b ->
  let '(tr, r, self') := AcquireFrame w self in
  (r = Returns true <-> exists frame, w = inl (Some frame))
  /\ (forall frame, w = inl (Some frame) -> im_ self' = Some frame)
  /\ (r <> Returns true -> self' = self)
  /\ (r = Returns false <-> w = inl None \/ exists code what, w = inr (ifm3d_error code what))
  /\ (forall code what, w = inr (ifm3d_error code what) ->
      tr = [Log WARN (to_string code ++ ": " ++ what)])
  /\ cam_ self' = cam_ self /\ fg_ self' = fg_ self /\ same_settings self self'.
Proof.
  intros Hg Hb. unfold AcquireFrame, try_catch, sbind, sget. cbn [fst snd].
  rewrite Hg, Hb.
  destruct w as [[frame | ] | [code what | what | ]]; cbn;
    repeat match goal with
           | |- _ /\ _ => split
           | |- _ <-> _ => split
           end;
    try reflexivity; try discriminate; try (intros; exfalso; congruence);
    try (intros; congruence); try (repeat split; fail).
  all: try (intros _; eauto; fail).
  all: try (intros [H | (c & w & H)]; discriminate H).
  all: try (intros (f & H); discriminate H).
  all: try (intros [H | (c & w & H)]; congruence).
  all: try (intros; left; reflexivity).
  all: try (intros; right; eauto).
  all: try (intros H; exfalso; apply H; reflexivity).
Qed.

Lemma AcquireFrame_outcomes_witness :
  let w : access (option session.StlImageBuffer) := inr (ifm3d_error 100032 "PCIC timeout") in
  let '(tr, r, self') := AcquireFrame w streaming_nodelet in
  (r = Returns true <-> exists frame, w = inl (Some frame))
  /\ (forall frame, w = inl (Some frame) -> im_ self' = Some frame)
  /\ (r <> Returns true -> self' = streaming_nodelet)
  /\ (r = Returns false <-> w = inl None \/ exists code what, w = inr (ifm3d_error code what))
  /\ (forall code what, w = inr (ifm3d_error code what) ->
      tr = [Log WARN (to_string code ++ ": " ++ what)])
  /\ cam_ self' = cam_ streaming_nodelet /\ fg_ self' = fg_ streaming_nodelet
  /\ same_settings streaming_nodelet self'.
Proof.
  exact (AcquireFrame_outcomes (inr (ifm3d_error 100032 "PCIC timeout")) streaming_nodelet
           _ _ eq_refl eq_refl).
Defined.

(** X12.  A failed wait that is not stale changes nothing: when
    [AcquireFrame] answers [false] and the time elapsed on the
    last-success clock, taken as the double [sec + 1e-9 * nsec], does
    not compare greater than the tolerance, the cycle makes no
    [InitStructures] call, publishes nothing and leaves the nodelet, the
    clock and the bootstrap flag as they were.  It reports the timeout
    with a warning, or, when software triggering is assumed, with a short
    sleep and no warning. *)
Theorem fresh_timeout_waits bitDepth c self l elapsed :
  snd (fst (AcquireFrame (wait c) self)) = Returns false ->
  ros.Time_minus (now_after_wait c) (last_frame l) = inl elapsed ->
  ieee.gt (ros.Duration_toSec elapsed) (timeout_tolerance_secs_ self) = false ->
  exists pre,
    cycle bitDepth c (self, l)
    = (pre ++ [if assume_sw_triggered_ self then Sleep
               else Log WARN "Timeout waiting for camera!"],
       Returns tt, (self, l))
    /\ (pre = []
        \/ exists code what, wait c = inr (ifm3d_error code what)
                             /\ pre = [Log WARN (to_string code ++ ": " ++ what)])
    /\ count_attempts (pre ++ [timeout_notice self]) = 0%nat.
Proof.
  intros Hfalse Helapsed Hfresh.
  destruct (AcquireFrame_false (wait c) self Hfalse) as (Hg & Hb & Hw & Hacq).
  destruct (Hacq l) as (tr1 & Hrun1 & Hq1 & Hc1).
  rewrite cycle_unfold. unfold sbind at 1. rewrite Hrun1. cbn [negb].
  unfold on_timeout. unfold sbind at 1. cbn [sget fst snd self_of locals_of].
  exists tr1. split; [ | split ].
  - unfold sbind, call. rewrite Helapsed. cbn [sret]. rewrite Hfresh.
    destruct (assume_sw_triggered_ self); cbn; rewrite ?app_nil_r; reflexivity.
  - revert Hrun1. unfold with_self, AcquireFrame, try_catch, sbind, sget. cbn [fst snd].
    destruct (fg_ self) as [g | ]; [ | contradiction ].
    destruct (im_ self) as [b | ]; [ | contradiction ].
    destruct (wait c) as [[frame | ] | [code what | what | ]]; try contradiction; cbn;
      intros H; injection H as <-;
      [ left; reflexivity | right; exists code, what; split; reflexivity ].
  - rewrite count_attempts_app, Hc1. unfold timeout_notice.
    destruct (assume_sw_triggered_ self); reflexivity.
Qed.

Lemma fresh_timeout_waits_witness :
  exists pre,
    cycle image_encodings_model.bitDepth (timeout_cycle (seconds 5) [])
          (streaming_nodelet, streaming_locals)
    = (pre ++ [Log WARN "Timeout waiting for camera!"], Returns tt,
       (streaming_nodelet, streaming_locals))
    /\ (pre = []
        \/ exists code what,
             wait (timeout_cycle (seconds 5) []) = inr (ifm3d_error code what)
             /\ pre = [Log WARN (to_string code ++ ": " ++ what)])
    /\ count_attempts (pre ++ [timeout_notice streaming_nodelet]) = 0%nat.
Proof.
  apply (fresh_timeout_waits image_encodings_model.bitDepth (timeout_cycle (seconds 5) [])
           streaming_nodelet streaming_locals (seconds 5)).
  - reflexivity.
  - reflexivity.
  - vm_compute. reflexivity.
Defined.

(** * Start-up and the switch to the full schema *)

Lemma startup_until_success fails ok rest l :
  Forall init_fails fails -> init_succeeds ok ->
  forall self,
    exists tr self',
      startup (fails ++ ok :: rest) (self, l) = (tr, Returns true, (self', l))
      /\ same_settings self self' /\ triple_built ifm3d.IMG_UVEC self'
      /\ Forall not_publish tr
      /\ count_attempts tr = S (List.length fails).
Proof.
  intros Hfails Hok. induction Hfails as [ | env fails Hf _ IH ]; intros self.
  - cbn [app startup]. unfold sbind at 1. cbn [sget].
    unfold sbind at 1. unfold with_self. cbn [fst snd self_of].
    destruct (InitStructures_succeeds ok ifm3d.IMG_UVEC (pcic_port_ self) self Hok)
      as (tr & self' & Hrun & Hs & Hb & Hq & Hc).
    rewrite Hrun. cbn [sret fst snd]. exists tr, self'. rewrite app_nil_r.
    split; [ reflexivity | ]. split; [ exact Hs | ]. split; [ exact Hb | ].
    split; [ exact Hq | exact Hc ].
  - cbn [app startup]. unfold sbind at 1. cbn [sget].
    unfold sbind at 1. unfold with_self. cbn [fst snd self_of].
    destruct (InitStructures_fails env ifm3d.IMG_UVEC (pcic_port_ self) self Hf)
      as (tr & self1 & Hrun & Hs & _ & Hq & Hc).
    rewrite Hrun. cbn [fst snd].
    destruct (IH self1) as (tr' & self' & Hrun' & Hs' & Hb' & Hq' & Hc').
    unfold sbind. cbn [semit]. rewrite Hrun'.
    exists (tr ++ [Log WARN "Could not initialize pixel stream!"] ++ [Sleep] ++ tr'), self'.
    split; [ rewrite app_nil_l; reflexivity | ].
    split; [ eapply same_settings_trans; eassumption | ].
    split; [ exact Hb' | ].
    split.
    + apply Forall_app. split; [ exact Hq | ].
      constructor; [ exact I | ]. constructor; [ exact I | exact Hq' ].
    + rewrite count_attempts_app, Hc. cbn [app]. unfold count_attempts in *.
      cbn [filter is_attempt List.length]. rewrite Hc'. reflexivity.
Qed.

Lemma startup_never_succeeds attempts l :
  Forall init_fails attempts ->
  forall self, triple_absent self ->
    exists tr self',
      startup attempts (self, l) = (tr, Returns false, (self', l))
      /\ same_settings self self' /\ triple_absent self'
      /\ Forall not_publish tr
      /\ count_attempts tr = List.length attempts.
Proof.
  intros Hfails. induction Hfails as [ | env fails Hf _ IH ]; intros self Habs.
  - cbn [startup]. exists [], self.
    split; [ reflexivity | ]. split; [ apply same_settings_refl | ].
    split; [ exact Habs | ]. split; [ constructor | reflexivity ].
  - cbn [startup]. unfold sbind at 1. cbn [sget].
    unfold sbind at 1. unfold with_self. cbn [fst snd self_of].
    destruct (InitStructures_fails env ifm3d.IMG_UVEC (pcic_port_ self) self Hf)
      as (tr & self1 & Hrun & Hs & Habs1 & Hq & Hc).
    rewrite Hrun. cbn [fst snd].
    destruct (IH self1 Habs1) as (tr' & self' & Hrun' & Hs' & Habs' & Hq' & Hc').
    unfold sbind. cbn [semit]. rewrite Hrun'.
    exists (tr ++ [Log WARN "Could not initialize pixel stream!"] ++ [Sleep] ++ tr'), self'.
    split; [ rewrite app_nil_l; reflexivity | ].
    split; [ eapply same_settings_trans; eassumption | ].
    split; [ exact Habs' | ].
    split.
    + apply Forall_app. split; [ exact Hq | ].
      constructor; [ exact I | ]. constructor; [ exact I | exact Hq' ].
    + rewrite count_attempts_app, Hc. cbn [app]. unfold count_attempts in *.
      cbn [filter is_attempt List.length]. rewrite Hc'. reflexivity.
Qed.

(** X13.  [Run] brings the session up before anything else: with the
    environment failing some attempts on device errors and then letting
    one succeed, [Run] makes exactly that many [InitStructures] calls
    plus one, all with the unit-vector mask, publishes nothing meanwhile,
    and then runs its cycles from a state with the session built for the
    unit-vector mask, the settings untouched, the last-success clock at
    the current time and the bootstrap flag down. *)
Theorem Run_after_startup bitDepth self fails ok rest t0 its :
  Forall init_fails fails -> init_succeeds ok ->
  exists tr self',
    triple_built ifm3d.IMG_UVEC self'
    /\ same_settings self self'
    /\ count_attempts tr = S (List.length fails)
    /\ topics_of tr = []
    /\ Run bitDepth self {| startup_attempts := fails ++ ok :: rest;
                            start_time := t0; iterations := its |}
       = let '(tr2, r, st) :=
           cycles bitDepth its (self', with_last_frame t0 initial_locals) in
         (tr ++ tr2, r, st).
Proof.
  intros Hfails Hok.
  destruct (startup_until_success fails ok rest initial_locals Hfails Hok self)
    as (tr & self' & Hrun & Hs & Hb & Hq & Hc).
  exists tr, self'.
  split; [ exact Hb | ]. split; [ exact Hs | ]. split; [ exact Hc | ].
  split; [ apply topics_of_quiet; exact Hq | ].
  unfold Run, Run_body. cbn [startup_attempts start_time iterations].
  unfold sbind at 1. rewrite Hrun.
  unfold sbind at 1. cbn [assign_last_frame on_locals smodify fst snd].
  unfold sbind at 1. cbn [assign_got_uvec on_locals smodify fst snd app].
  change (mkLocals _ _ _ _ _) with (with_last_frame t0 initial_locals).
  destruct (cycles bitDepth its (self', with_last_frame t0 initial_locals)) as [[tr2 r2] st2].
  reflexivity.
Qed.

Lemma Run_after_startup_witness :
  exists tr self',
    triple_built ifm3d.IMG_UVEC self'
    /\ same_settings sample_nodelet self'
    /\ count_attempts tr = 2%nat
    /\ topics_of tr = []
    /\ Run image_encodings_model.bitDepth sample_nodelet sample_run
       = let '(tr2, r, st) :=
           cycles image_encodings_model.bitDepth (iterations sample_run)
                  (self', with_last_frame 0 initial_locals) in
         (tr ++ tr2, r, st).
Proof.
  apply (Run_after_startup image_encodings_model.bitDepth sample_nodelet
           [init_unplugged] init_ok [] 0 (iterations sample_run)).
  - constructor; [ exact I | constructor ].
  - repeat split.
Defined.

(** X14.  When no attempt to bring the session up succeeds before the
    process shuts down, [Run] returns without running a single cycle: it
    has called [InitStructures] once per attempt, published nothing, and
    the session triple is still absent. *)
Theorem Run_without_session bitDepth self attempts t0 its :
  Forall init_fails attempts -> triple_absent self ->
  exists tr self',
    Run bitDepth self {| startup_attempts := attempts; start_time := t0; iterations := its |}
    = (tr, Returns tt, (self', with_last_frame t0 initial_locals))
    /\ triple_absent self'
    /\ same_settings self self'
    /\ topics_of tr = []
    /\ count_attempts tr = List.length attempts.
Proof.
  intros Hfails Habs.
  destruct (startup_never_succeeds attempts initial_locals Hfails self Habs)
    as (tr & self' & Hrun & Hs & Habs' & Hq & Hc).
  exists tr, self'.
  split; [ | split; [ exact Habs' | split; [ exact Hs | split; [ | exact Hc ] ] ] ].
  - unfold Run, Run_body. cbn [startup_attempts start_time iterations].
    unfold sbind at 1. rewrite Hrun.
    unfold sbind at 1. cbn [assign_last_frame on_locals smodify fst snd].
    unfold sbind at 1. cbn [assign_got_uvec on_locals smodify fst snd app sret].
    rewrite !app_nil_r. reflexivity.
  - apply topics_of_quiet. exact Hq.
Qed.

Lemma Run_without_session_witness :
  exists tr self',
    Run image_encodings_model.bitDepth sample_nodelet
        {| startup_attempts := [init_unplugged; init_unplugged]; start_time := 7;
           iterations := iterations sample_run |}
    = (tr, Returns tt, (self', with_last_frame 7 initial_locals))
    /\ triple_absent self'
    /\ same_settings sample_nodelet self'
    /\ topics_of tr = []
    /\ count_attempts tr = 2%nat.
Proof.
  apply (Run_without_session image_encodings_model.bitDepth sample_nodelet
           [init_unplugged; init_unplugged] 7 (iterations sample_run)).
  - repeat constructor.
  - repeat split.
Defined.

Lemma count_attempts_cons e tr :
  count_attempts (e :: tr) = ((if is_attempt e then 1 else 0) + count_attempts tr)%nat.
Proof. unfold count_attempts. cbn [filter]. destruct (is_attempt e); reflexivity. Qed.

Lemma ifm3d_to_ros_image_no_attempt bitDepth image header logger :
  count_attempts (fst (ifm3d_to_ros_image bitDepth image header logger)) = 0%nat.
Proof.
  unfold ifm3d_to_ros_image.
  destruct (ifm3d.range_empty image); [ reflexivity | ].
  destruct (_ >=? _); [ reflexivity | ].
  unfold array_at.
  destruct (nth_error _ _) as [enc | ]; [ | reflexivity ].
  cbn [bind ret fst snd app]. unfold bitDepth_call.
  destruct (bitDepth enc) as [bits | ]; [ | reflexivity ].
  cbn [bind ret fst snd app]. unfold copy_bytes.
  match goal with |- context [if ?c then _ else _] => destruct c end; [ | reflexivity ].
  cbn [bind ret fst snd app sensor_msgs.encoding].
  destruct (string_empty enc); reflexivity.
Qed.

Lemma bootstrap_returns bitDepth c optical_head self l frame fails ok rest :
  im_ self = Some frame ->
  (exists m, snd (ifm3d_to_ros_image bitDepth (session.UnitVectors frame) optical_head
                                     (getName self)) = Returns m) ->
  reinit c = fails ++ ok :: rest ->
  Forall init_fails fails -> init_succeeds ok ->
  exists tr self',
    bootstrap bitDepth c optical_head (self, l)
    = (tr, Returns tt,
       (self', mkLocals (images l) (extrinsics l) (last_frame l) true (info_once_done l)))
    /\ triple_built (schema_mask_ self) self'
    /\ same_settings self self'
    /\ topics_of tr = [uvec_pub_]
    /\ count_attempts tr = S (List.length fails).
Proof.
  intros Him (m & Hm) Hre Hfails Hok.
  rewrite bootstrap_unfold. unfold sbind at 1. cbn [sget].
  unfold sbind at 1. cbn [self_of fst snd]. rewrite Him. cbn [deref]. unfold lift.
  destruct (ifm3d_to_ros_image_header bitDepth (session.UnitVectors frame) optical_head
              (getName self)) as (Hq & _).
  pose proof (ifm3d_to_ros_image_no_attempt bitDepth (session.UnitVectors frame) optical_head
                (getName self)) as Hn.
  destruct (ifm3d_to_ros_image bitDepth (session.UnitVectors frame) optical_head
              (getName self)) as [trc rc].
  cbn [fst snd] in *. subst rc.
  unfold sbind at 1. cbn [semit]. unfold sbind at 1. cbn [semit].
  unfold sbind at 1. cbn [assign_got_uvec on_locals smodify fst snd].
  unfold bootstrap_tail. unfold sbind at 1. cbn [semit]. unfold sbind at 1.
  rewrite Hre.
  destruct (retry_InitStructures_until_success fails ok rest
              (fun st : RunState => schema_mask_ (self_of st))
              "Could not re-initialize pixel stream!"
              (mkLocals (images l) (extrinsics l) (last_frame l) true (info_once_done l))
              Hfails Hok self (schema_mask_ self))
    as (trr & self' & Hrun & Hs & Hb & Hqr & Hcr).
  { intros self1 Hs1. cbn [self_of fst]. symmetry. apply Hs1. }
  rewrite Hrun. cbn [semit].
  eexists. exists self'. split; [ reflexivity | ].
  split; [ exact Hb | ]. split; [ exact Hs | ].
  cbn [app]. split.
  - rewrite !topics_of_app, (topics_of_quiet _ Hq). cbn.
    rewrite topics_of_app, (topics_of_quiet _ Hqr). reflexivity.
  - repeat (rewrite count_attempts_app || rewrite count_attempts_cons).
    rewrite Hn, Hcr. cbn. lia.
Qed.

(** X15.  The switch to the full schema.  On the first frame, with the
    header of the frame built (its time stamp is one [ros::Time] can
    hold, and so on), the unit vectors converted and the environment
    letting the session be rebuilt after some attempts that fail on
    device errors, the cycle publishes the unit vectors and nothing else,
    raises the bootstrap flag, calls [InitStructures] once per failed
    attempt and once more with the user's schema mask, and returns with
    the session built for that mask, every setting untouched and the
    last-success clock at the time of the frame. *)
Theorem bootstrap_switches_schema bitDepth c self l g b frame fails ok rest
        device_stamp elapsed thresh :
  got_uvec l = false ->
  fg_ self = Some g -> im_ self = Some b ->
  wait c = inl (Some frame) ->
  header_ready c self frame device_stamp elapsed thresh ->
  (forall h, exists m, snd (ifm3d_to_ros_image bitDepth (session.UnitVectors frame) h
                                                (getName self)) = Returns m) ->
  reinit c = fails ++ ok :: rest ->
  Forall init_fails fails -> init_succeeds ok ->
  exists tr self' l',
    cycle bitDepth c (self, l) = (tr, Returns tt, (self', l'))
    /\ triple_built (schema_mask_ self) self'
    /\ same_settings self self'
    /\ got_uvec l' = true
    /\ last_frame l' = now_after_wait c
    /\ topics_of tr = [uvec_pub_]
    /\ count_attempts tr = S (List.length fails).
Proof.
  intros Hl Hg Hb Hwait Hready Hconv Hre Hfails Hok.
  rewrite cycle_unfold. unfold sbind at 1.
  rewrite Hwait, (AcquireFrame_frame self l g b frame Hg Hb). cbn [negb].
  unfold sbind at 1. cbn [assign_last_frame on_locals smodify fst snd].
  unfold sbind at 1.
  rewrite (prepare_header_eq c (set_im_ (Some frame) self) _ frame
             device_stamp elapsed thresh eq_refl Hready).
  assert (Hrest : forall tr0 h l3,
             topics_of tr0 = [] -> count_attempts tr0 = 0%nat ->
             got_uvec l3 = false -> last_frame l3 = now_after_wait c ->
             exists tr4 self' l',
               cycle_rest bitDepth c h (set_im_ (Some frame) self, l3)
               = (tr4, Returns tt, (self', l'))
               /\ triple_built (schema_mask_ self) self'
               /\ same_settings self self'
               /\ got_uvec l' = true
               /\ last_frame l' = now_after_wait c
               /\ topics_of (tr0 ++ tr4) = [uvec_pub_]
               /\ count_attempts (tr0 ++ tr4) = S (List.length fails)).
  { intros tr0 h l3 Ht0 Hc0 Hg3 Hl3.
    unfold cycle_rest. unfold sbind at 1. cbn [sget locals_of snd].
    rewrite Hg3. cbn [negb].
    destruct (bootstrap_returns bitDepth c (snd h) (set_im_ (Some frame) self) l3 frame
                fails ok rest eq_refl (Hconv (snd h)) Hre Hfails Hok)
      as (trb & self' & Hrun & Hbuilt & Hs & Htb & Hcb).
    rewrite Hrun. cbn [app].
    eexists. exists self'. eexists. split; [ reflexivity | ].
    split; [ exact Hbuilt | ]. split; [ exact Hs | ].
    split; [ reflexivity | ]. split; [ exact Hl3 | ].
    split.
    - rewrite topics_of_app, Ht0, Htb. reflexivity.
    - rewrite count_attempts_app, Hc0, Hcb. reflexivity. }
  destruct (elapsed >? thresh).
  - cbn [info_once_done]. destruct (info_once_done l).
    + match goal with
      | |- context [cycle_rest bitDepth c ?h (_, ?l3)] =>
          destruct (Hrest [] h l3 eq_refl eq_refl Hl eq_refl)
            as (tr4 & self' & l' & Hrun & H1 & H2 & H3 & H4 & H5 & H6)
      end.
      rewrite Hrun. exists ([] ++ tr4), self', l'. cbn [app] in *.
      exact (conj eq_refl (conj H1 (conj H2 (conj H3 (conj H4 (conj H5 H6)))))).
    + match goal with
      | |- context [cycle_rest bitDepth c ?h (_, ?l3)] =>
          destruct (Hrest [sync_notice] h l3 eq_refl eq_refl Hl eq_refl)
            as (tr4 & self' & l' & Hrun & H1 & H2 & H3 & H4 & H5 & H6)
      end.
      rewrite Hrun. exists ([sync_notice] ++ tr4), self', l'. cbn [app] in *.
      exact (conj eq_refl (conj H1 (conj H2 (conj H3 (conj H4 (conj H5 H6)))))).
  - match goal with
    | |- context [cycle_rest bitDepth c ?h (_, ?l3)] =>
        destruct (Hrest [] h l3 eq_refl eq_refl Hl eq_refl)
          as (tr4 & self' & l' & Hrun & H1 & H2 & H3 & H4 & H5 & H6)
    end.
    rewrite Hrun. exists ([] ++ tr4), self', l'. cbn [app] in *.
      exact (conj eq_refl (conj H1 (conj H2 (conj H3 (conj H4 (conj H5 H6)))))).
Qed.

Lemma bootstrap_switches_schema_witness :
  exists tr self' l',
    cycle image_encodings_model.bitDepth first_frame_cycle
          (bootstrap_nodelet, initial_locals)
    = (tr, Returns tt, (self', l'))
    /\ triple_built 15 self'
    /\ same_settings bootstrap_nodelet self'
    /\ got_uvec l' = true
    /\ last_frame l' = seconds 2
    /\ topics_of tr = [uvec_pub_]
    /\ count_attempts tr = 2%nat.
Proof.
  apply (bootstrap_switches_schema image_encodings_model.bitDepth first_frame_cycle
           bootstrap_nodelet initial_locals
           {| session.cam := {| session.ip := "192.168.0.69"; session.xmlrpc_port := 80 |};
              session.mask := ifm3d.IMG_UVEC; session.pcic_port := 50010 |}
           session.fresh_buffer (frame_at (seconds 2)) [init_unplugged] init_ok []
           (seconds 2) 0 (seconds 60)).
  - reflexivity.
  - reflexivity.
  - reflexivity.
  - reflexivity.
  - vm_compute. repeat split.
  - intros h. eexists. reflexivity.
  - reflexivity.
  - constructor; [ exact I | constructor ].
  - repeat split.
Defined.

(** * The session stays up *)

Lemma triple_relax {S A} (Pre : S -> Prop) (m : SM S A) (Ev Ev' : event -> Prop)
      (Inv Inv' : S -> Prop) (Post : A -> S -> Prop) :
  triple Pre m Ev Inv Post ->
  (forall e, Ev e -> Ev' e) -> (forall s, Inv s -> Inv' s) ->
  triple Pre m Ev' Inv' Post.
Proof.
  intros H He Hi s Hs. specialize (H s Hs). destruct (m s) as [[tr r] s'].
  destruct H as (H1 & H2 & H3). repeat split; auto.
  eapply Forall_impl; [ exact He | exact H1 ].
Qed.

Lemma AcquireFrame_keeps_session w self :
  triple_present self ->
  let '(tr, r, self') := AcquireFrame w self in triple_present self'.
Proof.
  intros (Hc & Hg & Hb). unfold AcquireFrame, try_catch, sbind, sget. cbn [fst snd].
  destruct (fg_ self) as [g | ] eqn:Eg; [ | contradiction ].
  destruct (im_ self) as [b | ] eqn:Eb; [ | contradiction ].
  destruct w as [[frame | ] | [code what | what | ]]; cbn;
    unfold triple_present; cbn; rewrite ?Eg, ?Eb; repeat split;
    try assumption; discriminate.
Qed.

Lemma InitStructures_true_built env mask port self :
  let '(tr, r, self') := InitStructures env mask port self in
  r = Returns true -> triple_built mask self'.
Proof.
  pose proof (InitStructures_cases env mask port self) as H.
  destruct (InitStructures env mask port self) as [[tr r] self'].
  destruct H as (_ & _ & H).
  destruct (MakeShared env) as [[c1 w1 | w1 | ] | ];
    destruct (make_FrameGrabber env) as [[c2 w2 | w2 | ] | ];
    destruct (make_StlImageBuffer env) as [[c3 w3 | w3 | ] | ];
    destruct H as (-> & H); intros Hr; try discriminate Hr; exact H.
Qed.

Section SessionUp.

Variable bitDepth : string -> option Z.

Lemma retry_InitStructures_up envs mask warning :
  triple any_state (retry_InitStructures envs mask warning) any_event any_state
         (fun _ st => session_up st).
Proof.
  induction envs as [ | env rest IH ]; cbn [retry_InitStructures].
  - apply triple_blocked. exact (fun _ _ => I).
  - eapply triple_bind with (Mid := fun _ _ => True);
      [ apply triple_get; intros; split; exact I | ].
    intros st0.
    eapply triple_bind with (Mid := fun ok st => ok = true -> session_up st).
    + intros [self l] _. unfold with_self. cbn [fst snd].
      pose proof (InitStructures_true_built env (mask st0) (pcic_port_ (self_of st0)) self) as H.
      destruct (InitStructures env (mask st0) (pcic_port_ (self_of st0)) self) as [[tr r] self'].
      split; [ apply Forall_forall; intros; exact I | split; [ exact I | ] ].
      intros ok -> ->. apply (triple_built_present (mask st0)). apply H. reflexivity.
    + intros [ | ].
      * apply triple_ret. intros s Hs. split; [ exact I | apply Hs; reflexivity ].
      * eapply triple_bind with (Mid := fun _ _ => True);
          [ apply triple_emit; [ exact I | intros; split; exact I ] | intros ? ].
        eapply triple_bind with (Mid := fun _ _ => True);
          [ apply triple_emit; [ exact I | intros; split; exact I ] | intros ? ].
        eapply triple_weaken; [ exact IH | intros; exact I | auto ].
Qed.

Lemma on_locals_up f :
  triple session_up (on_locals f) any_event any_state (fun _ st => session_up st).
Proof. apply triple_modify. intros [self l] Hs. split; [ exact I | exact Hs ]. Qed.

Lemma log_up e :
  triple session_up (semit e) any_event any_state (fun _ st => session_up st).
Proof. apply triple_emit; [ exact I | intros s Hs; split; [ exact I | exact Hs ] ]. Qed.

Lemma on_timeout_up c :
  triple session_up (on_timeout c) any_event any_state (fun _ st => session_up st).
Proof.
  unfold on_timeout.
  eapply triple_bind with (Mid := fun _ st => session_up st);
    [ apply triple_get; intros s Hs; split; [ exact I | exact Hs ] | ].
  intros st0.
  eapply triple_bind with (Mid := fun _ st => session_up st).
  { destruct (negb (assume_sw_triggered_ (self_of st0))); apply log_up. }
  intros ?.
  eapply triple_bind with (Mid := fun _ st => session_up st);
    [ apply triple_call; intros s Hs; split; [ exact I | intros; exact Hs ]
    | intros elapsed ].
  destruct (ieee.gt _ _).
  - eapply triple_bind; [ apply log_up | intros ? ].
    eapply triple_bind.
    { eapply triple_weaken;
        [ apply retry_InitStructures_up | intros; exact I | intros x s H; exact H ]. }
    intros ?. apply on_locals_up.
  - apply triple_ret. intros s Hs. split; [ exact I | exact Hs ].
Qed.

Lemma prepare_header_up c :
  triple session_up (prepare_header c) any_event any_state (fun _ st => session_up st).
Proof.
  unfold prepare_header.
  eapply triple_bind with (Mid := fun _ st => session_up st);
    [ apply triple_get; intros s Hs; split; [ exact I | exact Hs ] | ].
  intros st0. apply triple_deref; [ intros; exact I | intros im _ ].
  eapply triple_bind with (Mid := fun _ st => session_up st).
  { apply triple_lift; [ apply Forall_forall; intros; exact I | ].
    intros s Hs. split; [ exact I | intros; exact Hs ]. }
  intros device_stamp.
  eapply triple_bind with (Mid := fun _ st => session_up st);
    [ apply triple_call; intros s Hs; split; [ exact I | intros; exact Hs ]
    | intros elapsed ].
  eapply triple_bind with (Mid := fun _ st => session_up st).
  { apply triple_lift; [ apply Forall_forall; intros; exact I | ].
    intros s Hs. split; [ exact I | intros; exact Hs ]. }
  intros thresh.
  eapply triple_bind with (Mid := fun _ st => session_up st).
  - destruct (_ >? _).
    + eapply triple_bind with (Mid := fun _ st => session_up st).
      * apply triple_when; [ intros _ | intros s Hs; split; [ exact I | exact Hs ] ].
        eapply triple_bind; [ apply log_up | intros ? ]. apply on_locals_up.
      * intros ?. apply triple_ret. intros s Hs. split; [ exact I | exact Hs ].
    + apply triple_ret. intros s Hs. split; [ exact I | exact Hs ].
  - intros stamp. apply triple_ret. intros s Hs. split; [ exact I | exact Hs ].
Qed.

Lemma pull_images_up :
  triple session_up pull_images any_event session_up (fun _ st => session_up st).
Proof.
  unfold pull_images.
  apply triple_try_catch.
  - eapply triple_bind with (Mid := fun _ st => session_up st);
      [ apply triple_get; auto | ].
    intros st0. apply triple_deref; [ auto | intros im _ ].
    repeat (eapply triple_bind with (Mid := fun _ st => session_up st);
            [ apply triple_call; auto | intros ? ];
            try (eapply triple_bind with (Mid := fun _ st => session_up st);
                 [ apply triple_modify; intros [self l] Hs; split; exact Hs | intros ? ])).
    apply triple_modify. intros [self l] Hs. split; exact Hs.
  - intros e h Hh.
    destruct e as [code what | what | ]; try discriminate;
      injection Hh as <-; apply triple_emit; auto; exact I.
Qed.

Lemma cycle_rest_up c heads :
  triple session_up (cycle_rest bitDepth c heads) any_event any_state
         (fun _ st => session_up st).
Proof.
  unfold cycle_rest.
  eapply triple_bind with (Mid := fun _ st => session_up st);
    [ apply triple_get; intros s Hs; split; [ exact I | exact Hs ] | ].
  intros st0. destruct (negb (got_uvec (locals_of st0))).
  - rewrite bootstrap_unfold.
    eapply triple_bind with (Mid := fun _ st => session_up st);
      [ apply triple_get; intros s Hs; split; [ exact I | exact Hs ] | ].
    intros st1.
    eapply triple_bind with (Mid := fun _ st => session_up st).
    { apply triple_deref; [ intros; exact I | intros im _ ].
      apply triple_lift; [ apply Forall_forall; intros; exact I | ].
      intros s Hs. split; [ exact I | intros; exact Hs ]. }
    intros m.
    eapply triple_bind; [ apply log_up | intros ? ].
    eapply triple_bind; [ apply log_up | intros ? ].
    eapply triple_bind; [ apply on_locals_up | intros ? ].
    unfold bootstrap_tail.
    eapply triple_bind; [ apply log_up | intros ? ].
    eapply triple_bind.
    { eapply triple_weaken;
        [ apply retry_InitStructures_up | intros; exact I | intros x s H; exact H ]. }
    intros ?. apply log_up.
  - eapply triple_bind.
    { eapply triple_relax; [ apply pull_images_up | auto | intros; exact I ]. }
    intros ?.
    eapply triple_relax.
    + apply (publish_all_allowed bitDepth any_event session_up (fst heads) (snd heads)).
      * intros; exact I.
      * intros; exact I.
    + auto.
    + intros; exact I.
Qed.

Lemma cycle_up c :
  triple session_up (cycle bitDepth c) any_event any_state (fun _ st => session_up st).
Proof.
  rewrite cycle_unfold.
  eapply triple_bind with (Mid := fun _ st => session_up st).
  { intros [self l] Hs. unfold with_self. cbn [fst snd].
    pose proof (AcquireFrame_keeps_session (wait c) self Hs) as H.
    destruct (AcquireFrame (wait c) self) as [[tr r] self'].
    split; [ apply Forall_forall; intros; exact I | split; [ exact I | ] ].
    intros a _. exact H. }
  intros acquired. destruct acquired; cbn [negb]; [ | apply on_timeout_up ].
  eapply triple_bind; [ apply on_locals_up | intros ? ].
  eapply triple_bind; [ apply prepare_header_up | intros heads ].
  apply cycle_rest_up.
Qed.

Lemma cycles_up cs :
  triple session_up (cycles bitDepth cs) any_event any_state (fun _ st => session_up st).
Proof.
  induction cs as [ | c rest IH ]; cbn [cycles].
  - apply triple_ret. intros s Hs. split; [ exact I | exact Hs ].
  - eapply triple_bind; [ apply cycle_up | intros ? ]. exact IH.
Qed.

Lemma startup_up envs :
  triple any_state (startup envs) any_event any_state
         (fun started st =>
            if started then session_up st
            else Forall (fun env => ~ init_succeeds env) envs).
Proof.
  induction envs as [ | env rest IH ]; cbn [startup].
  - apply triple_ret. intros s _. split; [ exact I | constructor ].
  - eapply triple_bind with (Mid := fun _ _ => True);
      [ apply triple_get; intros; split; exact I | ].
    intros st0.
    eapply triple_bind
      with (Mid := fun (ok : bool) (st : RunState) =>
                    if ok then session_up st else ~ init_succeeds env).
    + intros [self l] _. unfold with_self. cbn [fst snd].
      pose proof (InitStructures_true_built env ifm3d.IMG_UVEC (pcic_port_ (self_of st0)) self)
        as H.
      destruct (InitStructures env ifm3d.IMG_UVEC (pcic_port_ (self_of st0)) self)
        as [[tr r] self'] eqn:E.
      split; [ apply Forall_forall; intros; exact I | split; [ exact I | ] ].
      intros ok ->. destruct ok.
      * apply (triple_built_present ifm3d.IMG_UVEC). apply H. reflexivity.
      * intros Hok.
        destruct (InitStructures_succeeds env ifm3d.IMG_UVEC (pcic_port_ (self_of st0)) self
                    Hok) as (tr' & self1 & E' & _).
        rewrite E' in E. discriminate E.
    + intros [ | ].
      * apply triple_ret. intros s Hs. split; [ exact I | exact Hs ].
      * eapply triple_bind with (Mid := fun _ _ => ~ init_succeeds env);
          [ apply triple_emit; [ exact I | intros s Hs; split; [ exact I | exact Hs ] ]
          | intros ? ].
        eapply triple_bind with (Mid := fun _ _ => ~ init_succeeds env);
          [ apply triple_emit; [ exact I | intros s Hs; split; [ exact I | exact Hs ] ]
          | intros ? ].
        intros s Hn. specialize (IH s I).
        destruct (startup rest s) as [[tr r] s']. destruct IH as (H1 & H2 & H3).
        split; [ exact H1 | split; [ exact H2 | ] ].
        intros started Hr. specialize (H3 started Hr).
        destruct started; [ exact H3 | constructor; assumption ].
Qed.

Lemma Run_body_up i :
  triple any_state (Run_body bitDepth i) any_event any_state
         (fun _ st => session_up st
                      \/ Forall (fun env => ~ init_succeeds env) (startup_attempts i)).
Proof.
  unfold Run_body.
  eapply triple_bind; [ apply startup_up | intros started ].
  destruct started.
  - eapply triple_bind; [ apply on_locals_up | intros ? ].
    eapply triple_bind; [ apply on_locals_up | intros ? ].
    eapply triple_weaken; [ apply cycles_up | auto | intros x s H; left; exact H ].
  - eapply triple_bind with (Mid := fun _ _ => Forall (fun env => ~ init_succeeds env)
                                                    (startup_attempts i)).
    { apply triple_modify. intros s Hs. split; [ exact I | exact Hs ]. }
    intros ?.
    eapply triple_bind with (Mid := fun _ _ => Forall (fun env => ~ init_succeeds env)
                                                    (startup_attempts i)).
    { apply triple_modify. intros s Hs. split; [ exact I | exact Hs ]. }
    intros ?. apply triple_ret. intros s Hs. split; [ exact I | right; exact Hs ].
Qed.

End SessionUp.

(** X16.  A run never goes on without a session.  Whenever the cycles
    made so far have all returned, the session handle, the frame grabber
    and the frame buffer are all present, so that the next frame wait has
    a grabber and a buffer to call: this holds after the start-up of
    [Run] and is kept by every cycle, through timeouts, recoveries and
    the switch to the full schema, which return only once the session is
    rebuilt. *)
Theorem session_stays_up bitDepth :
  (forall cs st,
      triple_present (self_of st) ->
      let '(tr, r, st') := cycles bitDepth cs st in
      r = Returns tt -> triple_present (self_of st'))
  /\ (forall self i,
         let '(tr, r, st') := Run bitDepth self i in
         r = Returns tt ->
         List.Exists init_succeeds (startup_attempts i) ->
         triple_present (self_of st')).
Proof.
  split.
  - intros cs st Hs. pose proof (cycles_up bitDepth cs st Hs) as H.
    destruct (cycles bitDepth cs st) as [[tr r] st']. destruct H as (_ & _ & H).
    intros ->. apply (H tt eq_refl).
  - intros self i. unfold Run.
    pose proof (Run_body_up bitDepth i (self, initial_locals) I) as H.
    destruct (Run_body bitDepth i (self, initial_locals)) as [[tr r] st'].
    destruct H as (_ & _ & H). intros -> Hex.
    destruct (H tt eq_refl) as [Hup | Hnone]; [ exact Hup | exfalso ].
    apply Exists_exists in Hex. destruct Hex as (env & Hin & Hok).
    rewrite Forall_forall in Hnone. exact (Hnone env Hin Hok).
Qed.

Lemma session_stays_up_witness :
  triple_present
    (self_of (snd (Run image_encodings_model.bitDepth sample_nodelet sample_run))).
Proof.
  pose proof (proj2 (session_stays_up image_encodings_model.bitDepth)
                sample_nodelet sample_run) as H.
  pose proof sample_run_topics as E.
  destruct (Run image_encodings_model.bitDepth sample_nodelet sample_run) as [[tr r] st].
  destruct E as (-> & _). apply H; [ reflexivity | ].
  right. left. repeat split.
Defined.

(** * The unit vectors across a run *)

(** [Run], by the outcome of its first loop. *)
Lemma Run_unfold bitDepth self i :
  Run bitDepth self i
  = match startup (startup_attempts i) (self, initial_locals) with
    | (trs, Returns started, (self', l)) =>
        let l' := mkLocals (images l) (extrinsics l) (start_time i) false
                           (info_once_done l) in
        if started
        then let '(tr, r, st) := cycles bitDepth (iterations i) (self', l') in
             (trs ++ tr, r, st)
        else (trs, Returns tt, (self', l'))
    | (trs, Throws e, st) => (trs, Throws e, st)
    | (trs, Undefined, st) => (trs, Undefined, st)
    | (trs, Blocked, st) => (trs, Blocked, st)
    end.
Proof.
  unfold Run, Run_body. unfold sbind at 1.
  destruct (startup (startup_attempts i) (self, initial_locals)) as [[trs rs] [self' l]].
  destruct rs as [ started | e | | ]; try reflexivity.
  unfold sbind at 1. cbn [assign_last_frame on_locals smodify fst snd].
  unfold sbind at 1. cbn [assign_got_uvec on_locals smodify fst snd app].
  destruct started.
  - destruct (cycles bitDepth (iterations i) _) as [[tr r] st]. reflexivity.
  - cbn [sret]. rewrite app_nil_r. reflexivity.
Qed.

(** Once an attempt of the first loop can succeed, a run that has
    returned after some cycles goes on with the cycles that follow. *)
Lemma Run_goes_on bitDepth self attempts t0 a b tr0 st0 :
  Exists init_succeeds attempts ->
  Run bitDepth self (mkRunInput attempts t0 a) = (tr0, Returns tt, st0) ->
  Run bitDepth self (mkRunInput attempts t0 (a ++ b))
  = let '(tr, r, st) := cycles bitDepth b st0 in (tr0 ++ tr, r, st).
Proof.
  intros Hex. rewrite !Run_unfold. cbn [startup_attempts start_time iterations].
  pose proof (startup_up attempts (self, initial_locals) I) as Hs.
  destruct (startup attempts (self, initial_locals)) as [[trs rs] [self' l]].
  destruct Hs as (_ & _ & Hs).
  destruct rs as [ started | e | | ]; try discriminate.
  destruct started.
  - cbn zeta. rewrite cycles_app.
    destruct (cycles bitDepth a _) as [[tra ra] sta].
    intros H. injection H as <- -> <-.
    destruct (cycles bitDepth b sta) as [[trb rb] stb].
    rewrite app_assoc. reflexivity.
  - exfalso. specialize (Hs false eq_refl). cbn in Hs.
    apply Exists_exists in Hex. destruct Hex as (env & Hin & Hok).
    rewrite Forall_forall in Hs. exact (Hs env Hin Hok).
Qed.

(** A run in which no wait delivers a frame publishes nothing and
    leaves the bootstrap flag down. *)
Lemma Run_without_frame bitDepth self i :
  Forall no_frame (iterations i) ->
  let '(tr, r, st') := Run bitDepth self i in
  topics_of tr = [] /\ waiting st'.
Proof.
  intros Hno. rewrite Run_unfold.
  pose proof (startup_quiet not_publish waiting (fun e H => H) waiting_settled
                (startup_attempts i) (self, initial_locals) eq_refl) as Hs.
  destruct (startup (startup_attempts i) (self, initial_locals)) as [[trs rs] [self' l]].
  destruct Hs as (Hq & Hw & _).
  destruct rs as [ started | e | | ];
    try (split; [ apply topics_of_quiet; exact Hq | exact Hw ]).
  cbn zeta. destruct started.
  - match goal with
    | |- context [cycles bitDepth (iterations i) ?s] =>
        pose proof (cycles_without_frame bitDepth (iterations i) Hno s) as Hc;
        destruct (cycles bitDepth (iterations i) s) as [[tr r] st]
    end.
    destruct Hc as (Ht & Hg).
    split; [ rewrite topics_of_app, (topics_of_quiet _ Hq), Ht; reflexivity | exact Hg ].
  - split; [ apply topics_of_quiet; exact Hq | reflexivity ].
Qed.

(** C2 (as amended).  Across one run of the acquisition loop the unit
    vectors are published at most once and before every other publish,
    whatever the number of timeouts and reinitializations.  They are
    published on the first successful frame: when the first loop can
    succeed and the run has returned from the cycles that come before
    the first cycle whose wait delivers a frame, that cycle publishes the
    unit vectors of its frame, under the optical header of the cycle, and
    nothing else, and raises the flag -- provided the header of the frame
    can be built and the conversion of its unit vectors returns --; the
    run has published nothing before, and never publishes the unit
    vectors afterwards, so that the topics of the whole run are the
    unit-vector topic followed by topics among which it does not occur.
    And no cycle mixes the two: a cycle publishes the unit vectors alone,
    or does not publish them. *)
Theorem unit_vectors_once bitDepth self attempts t0 :
  (forall its,
      uvec_first (topics_of (fst (fst (Run bitDepth self (mkRunInput attempts t0 its))))))
  /\ (forall before c after frame tr0 st0 device_stamp elapsed thresh,
         Exists init_succeeds attempts ->
         Run bitDepth self (mkRunInput attempts t0 before) = (tr0, Returns tt, st0) ->
         Forall no_frame before ->
         wait c = inl (Some frame) ->
         header_ready c (self_of st0) frame device_stamp elapsed thresh ->
         (forall h, exists m,
               snd (ifm3d_to_ros_image bitDepth (session.UnitVectors frame) h
                                       (getName (self_of st0))) = Returns m) ->
         let stamp := if elapsed >? thresh then now_substitute c else device_stamp in
         exists m tr1 r1 st1,
           snd (ifm3d_to_ros_image bitDepth (session.UnitVectors frame)
                                   (snd (heads_with (self_of st0) stamp))
                                   (getName (self_of st0))) = Returns m
           /\ cycle bitDepth c st0 = (tr1, r1, st1)
           /\ topics_of tr0 = []
           /\ topics_of tr1 = [uvec_pub_]
           /\ In (Publish uvec_pub_ (ImageMsg m)) tr1
           /\ got_uvec (locals_of st1) = true
           /\ let '(tr, r, st') :=
                Run bitDepth self (mkRunInput attempts t0 (before ++ c :: after)) in
              exists tr2, tr = tr0 ++ tr1 ++ tr2
                          /\ topics_of tr = uvec_pub_ :: topics_of tr2
                          /\ ~ In uvec_pub_ (topics_of tr2))
  /\ (forall c st,
         let ts := topics_of (fst (fst (cycle bitDepth c st))) in
         ts = [uvec_pub_] \/ ~ In uvec_pub_ ts).
Proof.
  split; [ intros its; apply Run_uvec_first | split ].
  - intros before c after frame tr0 st0 device_stamp elapsed thresh
           Hex Hrun0 Hno Hwait Hready Hconv stamp.
    pose proof (Run_without_frame bitDepth self (mkRunInput attempts t0 before) Hno) as H0.
    pose proof (Run_body_up bitDepth (mkRunInput attempts t0 before)
                  (self, initial_locals) I) as Hup.
    pose proof Hrun0 as Hbody. unfold Run in Hbody. rewrite Hbody in Hup.
    rewrite Hrun0 in H0. destruct H0 as (Ht0 & Hw0).
    destruct Hup as (_ & _ & Hup). specialize (Hup tt eq_refl).
    destruct Hup as [Hup | Hnone].
    2:{ exfalso. apply Exists_exists in Hex. destruct Hex as (env & Hin & Hok).
        cbn [startup_attempts] in Hnone. rewrite Forall_forall in Hnone.
        exact (Hnone env Hin Hok). }
    destruct st0 as [self0 l0]. cbn [self_of fst] in *.
    destruct Hup as (_ & Hg & Hb). cbn [self_of fst] in Hg, Hb.
    destruct (fg_ self0) as [g | ] eqn:Eg; [ | contradiction ].
    destruct (im_ self0) as [b | ] eqn:Eb; [ | contradiction ].
    destruct (first_frame_publishes bitDepth c self0 l0 g b frame device_stamp elapsed thresh
                Hw0 Eg Eb Hwait Hready Hconv) as (m & Hm & Hcycle).
    pose proof (Run_goes_on bitDepth self attempts t0 before (c :: after) tr0 (self0, l0)
                  Hex Hrun0) as Hgo.
    cbn [cycles] in Hgo. unfold sbind in Hgo.
    destruct (cycle bitDepth c (self0, l0)) as [[tr1 r1] st1].
    destruct Hcycle as (Ht1 & Hin & Hb1).
    exists m, tr1, r1, st1.
    split; [ exact Hm | ]. split; [ reflexivity | ]. split; [ exact Ht0 | ].
    split; [ exact Ht1 | ]. split; [ exact Hin | ]. split; [ exact Hb1 | ].
    rewrite Hgo.
    destruct r1 as [ [] | e | | ];
      try (exists []; split; [ rewrite app_nil_r; reflexivity | ];
           split; [ rewrite topics_of_app, Ht0, Ht1; reflexivity | intros [] ]).
    pose proof (cycles_streaming bitDepth after st1 Hb1) as H2.
    destruct (cycles bitDepth after st1) as [[tr2 r2] st2].
    destruct H2 as (Hn & _).
    exists tr2. split; [ reflexivity | ].
    split; [ rewrite !topics_of_app, Ht0, Ht1; reflexivity | ].
    apply no_uvec_topics. exact Hn.
  - intros c st ts. subst ts.
    destruct (got_uvec (locals_of st)) eqn:Hg.
    + pose proof (cycle_streaming bitDepth c st Hg) as H.
      destruct (cycle bitDepth c st) as [[tr r] st']. destruct H as (Hn & _).
      right. apply no_uvec_topics. exact Hn.
    + pose proof (cycle_waiting bitDepth c st Hg) as H.
      destruct (cycle bitDepth c st) as [[tr r] st']. cbn [fst].
      destruct H as [(Ht & _) | (Ht & _)]; rewrite Ht; [ right; intros [] | left; reflexivity ].
Qed.

Lemma unit_vectors_once_witness :
  exists m tr1 r1 st1,
    snd (ifm3d_to_ros_image image_encodings_model.bitDepth sample_uvec
           (snd (heads_with (self_of (snd sample_start)) (seconds 2)))
           (getName (self_of (snd sample_start)))) = Returns m
    /\ cycle image_encodings_model.bitDepth (frame_cycle (seconds 2) (seconds 2))
             (snd sample_start) = (tr1, r1, st1)
    /\ topics_of (fst (fst sample_start)) = []
    /\ topics_of tr1 = [uvec_pub_]
    /\ In (Publish uvec_pub_ (ImageMsg m)) tr1
    /\ got_uvec (locals_of st1) = true
    /\ let '(tr, r, st') :=
         Run image_encodings_model.bitDepth sample_nodelet
             (mkRunInput [init_unplugged; init_ok] 0
                         ([timeout_cycle (seconds 1) []]
                          ++ frame_cycle (seconds 2) (seconds 2)
                          :: [frame_cycle (seconds 3) (seconds 3)])) in
       exists tr2, tr = fst (fst sample_start) ++ tr1 ++ tr2
                   /\ topics_of tr = uvec_pub_ :: topics_of tr2
                   /\ ~ In uvec_pub_ (topics_of tr2).
Proof.
  refine (proj1 (proj2 (unit_vectors_once image_encodings_model.bitDepth sample_nodelet
                          [init_unplugged; init_ok] 0))
            [timeout_cycle (seconds 1) []] (frame_cycle (seconds 2) (seconds 2))
            [frame_cycle (seconds 3) (seconds 3)] (frame_at (seconds 2))
            (fst (fst sample_start)) (snd sample_start)
            (seconds 2) 0 (seconds 60) _ _ _ _ _ _).
  - right. left. repeat split.
  - vm_compute. reflexivity.
  - constructor; [ intros frame H; discriminate H | constructor ].
  - reflexivity.
  - vm_compute. repeat split.
  - intros h. eexists. vm_compute. reflexivity.
Defined.

(** C2 fails as stated: a first successful frame does not always get
    its unit vectors published.  When the unit vectors come in the
    32-bit unsigned format their conversion throws, and when the capture
    time lies before the epoch [ros::Time] refuses it; either way the
    exception leaves [Run], the frame that follows is never waited for,
    and nothing has been published. *)
Lemma unit_vectors_counterexample :
  (let '(tr, r, st') :=
     Run image_encodings_model.bitDepth sample_nodelet
         (mkRunInput [init_ok] 0
                     [uvec_cycle sample_32U (seconds 2); frame_cycle (seconds 3) (seconds 3)]) in
   wait (uvec_cycle sample_32U (seconds 2))
   = inl (Some (with_unit_vectors sample_32U (frame_at (seconds 2))))
   /\ r = Throws (std_exception "Unknown encoding 32UC1")
   /\ topics_of tr = []
   /\ got_uvec (locals_of st') = false)
  /\ (let '(tr, r, st') :=
        Run image_encodings_model.bitDepth sample_nodelet
            (mkRunInput [init_ok] 0
                        [frame_cycle (-1) (seconds 2); frame_cycle (seconds 3) (seconds 3)]) in
      wait (frame_cycle (-1) (seconds 2)) = inl (Some (frame_at (-1)))
      /\ r = Throws (std_exception "Time is out of dual 32-bit range")
      /\ topics_of tr = []
      /\ got_uvec (locals_of st') = false).
Proof. split; vm_compute; repeat split. Qed.

(** * The schema mask gates the channels *)

Section Gating.

Variable bitDepth : string -> option Z.
Variable schema_mask : Z.

Lemma quiet_let_through e : not_publish e -> let_through schema_mask e.
Proof. destruct e; cbn; intros H; try contradiction; exact I. Qed.

Lemma masked_by_settled : settled (masked_by schema_mask).
Proof.
  intros st st' [Hs _] H. unfold masked_by in *. unfold same_settings in Hs.
  repeat match goal with H : _ /\ _ |- _ => destruct H end. congruence.
Qed.

Lemma convert_publish_gated {A} (conv : M A) (t : topic) (wrap : A -> message) :
  gated schema_mask t = true ->
  Forall not_publish (fst conv) ->
  triple (masked_by schema_mask)
         (sbind (lift conv) (fun m => semit (Publish t (wrap m))))
         (let_through schema_mask) (masked_by schema_mask)
         (fun _ st => masked_by schema_mask st).
Proof.
  intros Hg Hq.
  eapply triple_bind with (Mid := fun _ st => masked_by schema_mask st).
  - apply triple_lift.
    + eapply Forall_impl; [ apply quiet_let_through | exact Hq ].
    + intros s Hs. split; [ exact Hs | intros; exact Hs ].
  - intros m. apply triple_emit; [ exact Hg | auto ].
Qed.

Lemma publish_image_gated t v header :
  gated schema_mask t = true ->
  triple (masked_by schema_mask) (publish_image bitDepth t v header)
         (let_through schema_mask) (masked_by schema_mask)
         (fun _ st => masked_by schema_mask st).
Proof.
  intros Hg. unfold publish_image.
  apply triple_sget_then. intros st0 Hst0. apply triple_from; [ exact Hst0 | ].
  apply (convert_publish_gated _ t ImageMsg Hg). apply ifm3d_to_ros_image_header.
Qed.

Lemma publish_all_gated head optical_head :
  triple (masked_by schema_mask) (publish_all bitDepth head optical_head)
         (let_through schema_mask) (masked_by schema_mask)
         (fun _ st => masked_by schema_mask st).
Proof.
  unfold publish_all.
  apply triple_sget_then. intros st0 Hst0. apply triple_from; [ exact Hst0 | ].
  unfold masked_by in Hst0. rewrite Hst0.
  eapply triple_bind; [ apply publish_image_gated; reflexivity | intros ? ].
  apply triple_bind with (Mid := fun _ st => masked_by schema_mask st).
  { apply triple_when; [ intros Hb | auto ].
    apply (convert_publish_gated _ cloud_pub_ CloudMsg Hb). apply ifm3d_to_ros_cloud_header. }
  intros ?.
  do 5 (apply triple_bind with (Mid := fun _ st => masked_by schema_mask st);
        [ apply triple_when; [ intros Hb; apply publish_image_gated; exact Hb | auto ]
        | intros ? ]).
  apply triple_bind with (Mid := fun _ st => masked_by schema_mask st).
  { apply triple_when; [ intros _ | auto ].
    apply (convert_publish_gated _ rgb_image_pub_ CompressedMsg eq_refl).
    apply ifm3d_to_ros_compressed_image_header. }
  intros ?.
  eapply triple_bind.
  { apply triple_with_local with (P := fun _ => True).
    - apply quiet_let_through.
    - pose proof (fill_extrinsics_header (extrinsics (locals_of st0))
                    (ifm3d_ros_msgs.mkExtrinsics optical_head 0 0 0 0 0 0)) as H.
      destruct (fill_extrinsics _ _) as [[tr r] m]. destruct H as (_ & Hq).
      split; [ exact Hq | exact I ]. }
  intros m. apply triple_emit_from. intros s [Hs _].
  split; [ reflexivity | split; assumption ].
Qed.

Lemma bootstrap_gated c optical_head :
  triple (masked_by schema_mask) (bootstrap bitDepth c optical_head)
         (let_through schema_mask) (masked_by schema_mask)
         (fun _ st => masked_by schema_mask st).
Proof.
  rewrite bootstrap_unfold.
  pose proof quiet_let_through as Hq. pose proof masked_by_settled as Hsettled.
  apply triple_sget_then. intros st0 Hst0. apply triple_from; [ exact Hst0 | ].
  apply triple_bind with (Mid := fun _ st => masked_by schema_mask st).
  { apply triple_deref; [ auto | intros im _ ].
    apply triple_lift.
    - eapply Forall_impl; [ exact Hq | apply ifm3d_to_ros_image_header ].
    - intros s Hs. split; [ exact Hs | intros; exact Hs ]. }
  intros m.
  eapply triple_bind; [ apply triple_log; assumption | intros ? ].
  apply triple_bind with (Mid := fun _ st => masked_by schema_mask st).
  { apply triple_emit; [ reflexivity | auto ]. }
  intros ?.
  apply triple_bind with (Mid := fun _ st => masked_by schema_mask st).
  { apply triple_modify. intros [self l] Hs. split; exact Hs. }
  intros ?. unfold bootstrap_tail.
  eapply triple_bind; [ apply triple_log; assumption | intros ? ].
  eapply triple_bind; [ apply retry_InitStructures_quiet; assumption | intros ? ].
  apply triple_log; assumption.
Qed.

Lemma cycle_gated c :
  triple (masked_by schema_mask) (cycle bitDepth c)
         (let_through schema_mask) (masked_by schema_mask)
         (fun _ st => masked_by schema_mask st).
Proof.
  rewrite cycle_unfold.
  pose proof quiet_let_through as Hq. pose proof masked_by_settled as Hsettled.
  eapply triple_bind;
    [ apply triple_with_self; [ assumption | assumption | apply AcquireFrame_cases ] | ].
  intros acquired. destruct acquired; cbn [negb]; [ | apply on_timeout_quiet; assumption ].
  eapply triple_bind; [ apply triple_on_locals; [ assumption | reflexivity ] | intros ? ].
  eapply triple_bind.
  { eapply triple_weaken;
      [ apply prepare_header_spec; assumption | auto | intros heads s [H _]; exact H ]. }
  intros heads. unfold cycle_rest.
  apply triple_sget_then. intros st0 Hst0. apply triple_from; [ exact Hst0 | ].
  destruct (negb (got_uvec (locals_of st0))).
  - apply bootstrap_gated.
  - eapply triple_bind; [ apply pull_images_quiet; assumption | intros ? ].
    apply publish_all_gated.
Qed.

Lemma Run_body_gated i :
  triple (masked_by schema_mask) (Run_body bitDepth i)
         (let_through schema_mask) (masked_by schema_mask)
         (fun _ st => masked_by schema_mask st).
Proof.
  unfold Run_body.
  pose proof quiet_let_through as Hq. pose proof masked_by_settled as Hsettled.
  eapply triple_bind; [ apply startup_quiet; assumption | intros started ].
  eapply triple_bind; [ apply triple_on_locals; [ assumption | reflexivity ] | intros ? ].
  apply triple_bind with (Mid := fun _ st => masked_by schema_mask st).
  { apply triple_modify. intros [self l] Hs. split; exact Hs. }
  intros ?. destruct started; [ | apply triple_ret; auto ].
  induction (iterations i) as [ | c rest IH ]; cbn [cycles].
  - apply triple_ret. auto.
  - eapply triple_bind; [ apply cycle_gated | intros ? ]. exact IH.
Qed.

End Gating.

(** X17.  Over a whole run, whatever the frames, timeouts and
    recoveries, nothing is ever published on a mask-gated topic whose
    bit is clear in the user's schema mask: a cloud needs the cartesian
    bit, distance, distance noise, amplitude, raw amplitude and gray each
    need their own.  The schema mask itself never changes during the
    run. *)
Theorem Run_respects_schema_mask bitDepth self i :
  let '(tr, r, st') := Run bitDepth self i in
  (forall t, In t (topics_of tr) -> gated (schema_mask_ self) t = true)
  /\ schema_mask_ (self_of st') = schema_mask_ self.
Proof.
  unfold Run.
  pose proof (Run_body_gated bitDepth (schema_mask_ self) i (self, initial_locals) eq_refl) as H.
  destruct (Run_body bitDepth i (self, initial_locals)) as [[tr r] st'].
  destruct H as (Hev & Hinv & _). split; [ | exact Hinv ].
  intros t Hin. unfold topics_of in Hin. apply in_flat_map in Hin.
  destruct Hin as (e & He & Ht). rewrite Forall_forall in Hev. specialize (Hev e He).
  destruct e as [s text | t' m | ]; cbn in Ht; try contradiction.
  destruct Ht as [<- | []]. exact Hev.
Qed.

(** * Start-up settings *)

Lemma wrap16_range z : 0 <= wrap16 z < 65536.
Proof. unfold wrap16. change (2 ^ 16) with 65536. apply Z.mod_pos_bound. lia. Qed.

Lemma wrap16_small z : 0 <= z < 65536 -> wrap16 z = z.
Proof. intros H. unfold wrap16. change (2 ^ 16) with 65536. apply Z.mod_small. exact H. Qed.

Lemma strip_slash_cases nn :
  nn = String "/"%char (strip_slash nn)
  \/ (strip_slash nn = nn /\ forall rest, nn <> String "/"%char rest).
Proof.
  destruct nn as [ | c rest ]; cbn.
  - right. split; [ reflexivity | intros ? ?; discriminate ].
  - destruct (Ascii.eqb c "/"%char) eqn:E.
    + apply Ascii.eqb_eq in E. subst c. left. reflexivity.
    + right. split; [ reflexivity | ].
      intros r H. injection H as Hc _. subst c. rewrite Ascii.eqb_refl in E. discriminate.
Qed.

Lemma append_inj_l (b x y : string) : (b ++ x)%string = (b ++ y)%string -> x = y.
Proof.
  induction b as [ | c b IH ]; cbn; intros H; [ exact H | ].
  injection H as H. exact (IH H).
Qed.

(** X18.  Whatever the node name and the parameter server hold, the
    nodelet that onInit sets up has both ports and the schema mask within
    16 bits, unchanged when the parameter already was; its two frame names
    are one base followed by _link and _optical_link, hence always
    different, the base being the frame_id_base parameter or else the node
    name less one leading slash; and it holds no camera, frame grabber or
    image buffer yet. *)
Theorem onInit_settings nn p :
  let self := onInit nn p in
  (0 <= xmlrpc_port_ self < 65536 /\ 0 <= pcic_port_ self < 65536
   /\ 0 <= schema_mask_ self < 65536)
  /\ ((0 <= param_xmlrpc_port p < 65536 -> xmlrpc_port_ self = param_xmlrpc_port p)
      /\ (0 <= param_pcic_port p < 65536 -> pcic_port_ self = param_pcic_port p)
      /\ (0 <= param_schema_mask p < 65536 -> schema_mask_ self = param_schema_mask p))
  /\ (exists base,
        frame_id_ self = (base ++ "_link")%string
        /\ optical_frame_id_ self = (base ++ "_optical_link")%string
        /\ match param_frame_id_base p with
           | Some b => base = b
           | None => nn = String "/"%char base
                     \/ (nn = base /\ forall rest, nn <> String "/"%char rest)
           end)
  /\ frame_id_ self <> optical_frame_id_ self
  /\ cam_ self = None /\ fg_ self = None /\ im_ self = None.
Proof.
  cbn zeta. unfold onInit. cbn [xmlrpc_port_ pcic_port_ schema_mask_ frame_id_
                                  optical_frame_id_ cam_ fg_ im_].
  split; [ repeat split; apply wrap16_range | ].
  split; [ repeat split; apply wrap16_small | ].
  split.
  - exists (param (param_frame_id_base p) (strip_slash nn)).
    split; [ reflexivity | split; [ reflexivity | ] ].
    destruct (param_frame_id_base p) as [ b | ]; cbn [param]; [ reflexivity | ].
    destruct (strip_slash_cases nn) as [ H | [H1 H2] ].
    + left. exact H.
    + right. rewrite H1. split; [ reflexivity | exact H2 ].
  - split; [ | repeat split ].
    intros H. apply append_inj_l in H. discriminate.
Qed.
